(** * klogg: the log indexing engine of [logdataworker.cpp]

    A shallow embedding of the indexing worker: the line-feed scanners, the
    tab expander, the block parser, the index store ([IndexingData]), the
    block reader, the three operations ([FullIndexOperation],
    [PartialIndexOperation], [CheckFileChangesOperation]) and the change
    check, followed by the properties the specification states about them.

    Conventions of the embedding.
    - [qint64], [qsizetype] and [int] values are [Z]; [size_t] values
      ([std::string_view] indices and sizes) are [nat].  Files are far
      smaller than 2^63 bytes, so 64-bit arithmetic never wraps; the two
      narrowing conversions to [int] of the parser are written out
      ([static_cast_int]).
    - A [QByteArray] and the bytes seen through a [std::string_view] are
      [list byte]; a view also carries the distance of its [data()] pointer
      from the beginning of the block it looks into.
    - The TBB flow graph of [doIndex] (reader thread, bounded prefetch, serial
      parser) is run in its sequential order: the reader produces the blocks,
      the serial parser consumes them in that order.
    - The interrupt flag is set at most once per run by another thread; the
      run sees it through its polls, numbered in program order.
    - An operation is cut into stages (the opening of the file, the parsing
      of a block, every call on the store); an unexpected [std::exception]
      is thrown at the beginning of one stage of the operation's own thread.
    - A loop is a function with fuel; where running out of fuel would show,
      the result is an [option] and the loop is proved to finish. *)

From Stdlib Require Import ZArith List Bool Lia Arith.
From Stdlib.Strings Require Import Byte.
From Stdlib.Strings Require String.
Import String.StringSyntax.
Delimit Scope string_scope with string.
Import ListNotations.

Local Open Scope Z_scope.

(** ** Bytes and views *)

Definition byte := Byte.byte.

Definition LF : byte := x0a.
Definition TAB : byte := x09.
Definition NUL : byte := x00.

(** [std::string_view::find( ch, pos )] on the bytes of a view: the index of
    the first occurrence of [c] at or after [from]; [None] is [npos]. *)
Fixpoint find_at (data : list byte) (c : byte) (idx : nat) : option nat :=
  match data with
  | [] => None
  | b :: rest => if Byte.eqb b c then Some idx else find_at rest c (S idx)
  end.

Definition sv_find (data : list byte) (c : byte) (from : nat) : option nat :=
  find_at (skipn from data) c from.

(** [data[ i ]] *)
Definition sv_at (data : list byte) (i : nat) : byte := nth i data NUL.

(** A [std::string_view] into a block: where it starts, and what it shows. *)
Record string_view := mk_view {
  sv_ptr : Z;
  sv_bytes : list byte
}.

(** ** Encoding parameters *)

Record EncodingParameters := mkEncodingParameters {
  lineFeedWidth : Z;
  lineFeedIndex : Z
}.

(** Modelled from the spec: [EncodingParameters::getBeforeCrOffset] is declared
    in [encodingdetector.h].  The specification describes it as the value
    "used to translate a hit byte address back to the code-unit boundary":
    the number of bytes of the code unit that precede the line-feed byte,
    which is [lineFeedIndex]. *)
Definition getBeforeCrOffset (p : EncodingParameters) : Z := lineFeedIndex p.

(** The data model of the specification: [lineFeedWidth] is 1, 2 or 4 and
    [lineFeedIndex] is 0 or [lineFeedWidth - 1]. *)
Definition wf_params (p : EncodingParameters) : Prop :=
  (lineFeedWidth p = 1 \/ lineFeedWidth p = 2 \/ lineFeedWidth p = 4) /\
  (lineFeedIndex p = 0 \/ lineFeedIndex p = lineFeedWidth p - 1).

(** Modelled from the spec: [TabStop] is declared in a header; "TabStop = 8
    (fixed)". *)
Definition TabStop : Z := 8.

(** ** namespace parse_data_block *)

(** The lambda [isNotDelimeter] of [findNextMultiByteDelimeter]. *)
Definition isNotDelimeter (encodingParams : EncodingParameters)
    (data : list byte) (checkPos : nat) : bool :=
  let lineFeedWidth := Z.to_nat (lineFeedWidth encodingParams) in
  let isCheckForward := lineFeedIndex encodingParams =? 0 in
  if isCheckForward && (length data <? checkPos + lineFeedWidth)%nat then true
  else if negb isCheckForward && (checkPos <? lineFeedWidth - 1)%nat then true
  else
    existsb
      (fun i =>
         let nextByte :=
           if isCheckForward then sv_at data (checkPos + i)
           else sv_at data (checkPos - i) in
         negb (Byte.eqb nextByte NUL))
      (seq 1 (lineFeedWidth - 1)).

(** The [while] loop of [findNextMultiByteDelimeter]; every round moves
    [nextDelimeter] forward, so [length data] rounds are enough. *)
Fixpoint skipRejected (fuel : nat) (encodingParams : EncodingParameters)
    (data : list byte) (delimeter : byte) (nextDelimeter : option nat)
    : option nat :=
  match nextDelimeter with
  | None => None
  | Some n =>
      if isNotDelimeter encodingParams data n then
        match fuel with
        | O => None
        | S fuel' =>
            skipRejected fuel' encodingParams data delimeter
              (sv_find data delimeter (n + 1))
        end
      else Some n
  end.

Definition findNextMultiByteDelimeter (encodingParams : EncodingParameters)
    (data : list byte) (delimeter : byte) : option nat :=
  let nextDelimeter := sv_find data delimeter 0 in
  match nextDelimeter with
  | None => None
  | Some _ =>
      skipRejected (length data) encodingParams data delimeter nextDelimeter
  end.

Definition findNextSingleByteDelimeter (_ : EncodingParameters)
    (data : list byte) (delimeter : byte) : option nat :=
  sv_find data delimeter 0.

(** Pointers into the block are distances from [blockStart]. *)
Definition charOffsetWithinBlock (pointer : Z)
    (encodingParams : EncodingParameters) : Z :=
  pointer - getBeforeCrOffset encodingParams.

Definition FindDelimeter :=
  EncodingParameters -> list byte -> byte -> option nat.

(** Conversion to a 32-bit [int]. *)
Definition static_cast_int (z : Z) : Z :=
  (z + 2147483648) mod 4294967296 - 2147483648.

(** The loop of [expandTabsInLine].  Every round removes at least one byte
    from [blockToExpand], so a fuel of its length is never used up before the
    view is empty.  [additionalSpaces] is a [LineLength::UnderlyingType], a
    32-bit [int]: the sum of [additionalSpaces += ..] is made in the 64 bits
    of [qsizetype] and narrowed when it is stored. *)
Fixpoint expandTabsLoop (fuel : nat) (blockToExpand : string_view)
    (posWithinBlock : Z) (encodingParams : EncodingParameters)
    (findNextDelimeter : FindDelimeter) (additionalSpaces : Z) : Z :=
  match fuel with
  | O => additionalSpaces
  | S fuel' =>
      match sv_bytes blockToExpand with
      | [] => additionalSpaces
      | _ :: _ =>
          match findNextDelimeter encodingParams (sv_bytes blockToExpand) TAB with
          | None => additionalSpaces
          | Some nextTab =>
              let tabPosWithinBlock :=
                charOffsetWithinBlock
                  (sv_ptr blockToExpand + Z.of_nat nextTab) encodingParams in
              let currentExpandedSize :=
                tabPosWithinBlock - posWithinBlock + additionalSpaces in
              let additionalSpaces :=
                static_cast_int
                  (additionalSpaces
                   + (TabStop - Z.rem currentExpandedSize TabStop - 1)) in
              if (length (sv_bytes blockToExpand) <=? nextTab)%nat
              then additionalSpaces
              else
                expandTabsLoop fuel'
                  (mk_view (sv_ptr blockToExpand + Z.of_nat (nextTab + 1))
                           (skipn (nextTab + 1) (sv_bytes blockToExpand)))
                  posWithinBlock encodingParams findNextDelimeter
                  additionalSpaces
          end
      end
  end.

Definition expandTabsInLine (blockToExpand : string_view)
    (posWithinBlock : Z) (encodingParams : EncodingParameters)
    (findNextDelimeter : FindDelimeter) (initialAdditionalSpaces : Z) : Z :=
  expandTabsLoop (length (sv_bytes blockToExpand)) blockToExpand
    posWithinBlock encodingParams findNextDelimeter initialAdditionalSpaces.

(** ** Indexing state *)

Definition QTextCodec := String.string.

Record IndexingState := mkIndexingState {
  encodingParams : EncodingParameters;
  pos : Z;
  max_length : Z;
  additional_spaces : Z;
  end_ : Z;
  file_size : Z;
  encodingGuess : option QTextCodec;
  fileTextCodec : option QTextCodec
}.

Definition set_additional_spaces (a : Z) (s : IndexingState) : IndexingState :=
  mkIndexingState (encodingParams s) (pos s) (max_length s) a (end_ s)
    (file_size s) (encodingGuess s) (fileTextCodec s).

Definition set_max_length (m : Z) (s : IndexingState) : IndexingState :=
  mkIndexingState (encodingParams s) (pos s) m (additional_spaces s) (end_ s)
    (file_size s) (encodingGuess s) (fileTextCodec s).

(** [state.end = e; state.pos = state.end + lineFeedWidth;
    state.additional_spaces = 0] *)
Definition start_next_line (e : Z) (s : IndexingState) : IndexingState :=
  mkIndexingState (encodingParams s)
    (e + lineFeedWidth (encodingParams s)) (max_length s) 0 e
    (file_size s) (encodingGuess s) (fileTextCodec s).

Definition findNextLineFeed (block : list byte) (posWithinBlock : Z)
    (state : IndexingState) (findNextDelimeter : FindDelimeter)
    : bool * Z * Z :=
  let searchStart := posWithinBlock in
  let searchLineSize := Z.to_nat (Z.of_nat (length block) - posWithinBlock) in
  let blockView :=
    firstn searchLineSize (skipn (Z.to_nat searchStart) block) in
  let nextLineFeed := findNextDelimeter (encodingParams state) blockView LF in
  let isEndOfBlock :=
    match nextLineFeed with None => true | Some _ => false end in
  let nextLineSize :=
    match nextLineFeed with None => searchLineSize | Some n => n end in
  let additionalSpaces :=
    expandTabsInLine (mk_view searchStart (firstn nextLineSize blockView))
      posWithinBlock (encodingParams state) findNextDelimeter
      (additional_spaces state) in
  let posWithinBlock :=
    charOffsetWithinBlock (searchStart + Z.of_nat nextLineSize)
      (encodingParams state) in
  (isEndOfBlock, static_cast_int posWithinBlock, additionalSpaces).

(** Modelled from the spec: [FastLinePositionArray] and [LinePositionArray]
    are declared in a header.  "A growable, append-only ordered sequence of
    byte offsets [...] The array also carries a flag indicating whether the
    final entry is a synthetic terminator for a file whose last line lacks a
    line feed." *)
Record LinePositionArray := mkLinePositionArray {
  offsets : list Z;
  fakeFinalLF : bool
}.

Definition emptyLinePositionArray : LinePositionArray :=
  mkLinePositionArray [] false.

Definition lpa_append (a : LinePositionArray) (off : Z) : LinePositionArray :=
  mkLinePositionArray (offsets a ++ [off]) false.

Definition setFakeFinalLF (a : LinePositionArray) : LinePositionArray :=
  mkLinePositionArray (offsets a) true.

(** After appending, the final entry is the final entry of [other], when it
    has one. *)
Definition append_list (a other : LinePositionArray) : LinePositionArray :=
  mkLinePositionArray (offsets a ++ offsets other)
    (match offsets other with [] => fakeFinalLF a | _ :: _ => fakeFinalLF other end).

(** The [while] loop of [IndexOperation::parseDataBlock].  [None]: the loop
    did not finish within [fuel] rounds. *)
Fixpoint parseLoop (fuel : nat) (findNextDelimeter : FindDelimeter)
    (blockBeginning : Z) (block : list byte) (state : IndexingState)
    (linePositions : LinePositionArray)
    : option (LinePositionArray * IndexingState) :=
  match fuel with
  | O => None
  | S fuel' =>
      let size := Z.of_nat (length block) in
      if pos state >? blockBeginning + size
      then Some (linePositions, state)
      else
        let posWithinBlock :=
          static_cast_int
            (if pos state >=? blockBeginning
             then pos state - blockBeginning else 0) in
        let isEndOfBlock := posWithinBlock =? size in
        let '(isEndOfBlock, posWithinBlock, state) :=
          if negb isEndOfBlock
          then
            let '(e, p, a) :=
              findNextLineFeed block posWithinBlock state findNextDelimeter in
            (e, p, set_additional_spaces a state)
          else (isEndOfBlock, posWithinBlock, state) in
        let currentDataEnd := posWithinBlock + blockBeginning in
        let length :=
          Z.quot (currentDataEnd - pos state)
                 (lineFeedWidth (encodingParams state))
          + additional_spaces state in
        let state := set_max_length (Z.max (max_length state) length) state in
        if negb isEndOfBlock
        then
          let state := start_next_line currentDataEnd state in
          parseLoop fuel' findNextDelimeter blockBeginning block state
            (lpa_append linePositions (pos state))
        else Some (linePositions, state)
  end.

(** Every round but the last moves [state.pos] forward inside the block, so
    the loop of a well-formed encoding makes at most [length block + 1]
    rounds ([parseDataBlock_terminates]). *)
Definition parseDataBlock (blockBeginning : Z) (block : list byte)
    (state : IndexingState) : option (LinePositionArray * IndexingState) :=
  let findNextDelimeter : FindDelimeter :=
    if lineFeedWidth (encodingParams state) =? 1
    then findNextSingleByteDelimeter
    else findNextMultiByteDelimeter in
  parseLoop (S (length block)) findNextDelimeter blockBeginning block state
    emptyLinePositionArray.

(** ** The index store: [IndexingData] *)

Record IndexedHash := mkIndexedHash {
  size : Z;
  fullDigest : Z;
  headerDigest : Z;
  headerSize : Z;
  tailDigest : Z;
  tailOffset : Z;
  tailSize : Z
}.

(** [hash_ = {}] *)
Definition emptyIndexedHash : IndexedHash := mkIndexedHash 0 0 0 0 0 0 0.

(** [FileDigest] is the incremental 64-bit digest of a library; its state is
    the bytes it has been fed, and [digest()] is the digest function of the
    [Environment] applied to them. *)
Definition FileDigest := list byte.

Definition addData (d : FileDigest) (data : list byte) : FileDigest := d ++ data.

(** Modelled from the spec: [LineLength] is declared in [linetypes.h]; its
    "UnderlyingType::MAX" is taken to be the one of a 32-bit [int]. *)
Definition LineLength_max : Z := 2147483647.

Record IndexingData := mkIndexingData {
  maxLength_ : Z;
  hash_ : IndexedHash;
  hashBuilder_ : FileDigest;
  linePosition_ : LinePositionArray;
  encodingGuess_ : option QTextCodec;
  encodingForced_ : option QTextCodec;
  progress_ : Z;
  useFastModificationDetection_ : bool
}.

(** What an operation finds around it: the file on disk, the configuration,
    the codecs and the digest of the libraries, and what the other threads
    do to it (the interrupt, an exception). *)
Record Environment := mkEnvironment {
  (** the bytes of the file on disk, unchanged while the operation runs *)
  disk_bytes : list byte;
  (** whether [QFile::open( QIODevice::ReadOnly )] succeeds *)
  disk_readable : bool;
  (** [Configuration::get().fastModificationDetection()] *)
  fastModificationDetection : bool;
  (** [QTextCodec::codecForLocale()] *)
  codecForLocale : QTextCodec;
  (** [EncodingDetector::getInstance().detectEncoding( block )] *)
  detectEncoding : list byte -> QTextCodec;
  (** the constructor [EncodingParameters( codec )] *)
  encodingParametersOf : QTextCodec -> EncodingParameters;
  (** [FileDigest::digest()] of the bytes fed *)
  xxhash : list byte -> Z;
  (** [Some k]: the interrupt flag is set just before the poll number [k] of
      the run; [None]: it is never set *)
  interruptSetAt : option nat;
  (** [Some (k, what)]: the stage number [k] of the run throws a
      [std::exception] with that message *)
  exceptionAt : option (nat * String.string)
}.

Definition getIndexedSize (d : IndexingData) : Z := size (hash_ d).
Definition getHash (d : IndexingData) : IndexedHash := hash_ d.
Definition getMaxLength (d : IndexingData) : Z := maxLength_ d.
Definition getNbLines (d : IndexingData) : nat :=
  length (offsets (linePosition_ d)).
Definition getEncodingGuess (d : IndexingData) := encodingGuess_ d.
Definition getForcedEncoding (d : IndexingData) := encodingForced_ d.
Definition getProgress (d : IndexingData) : Z := progress_ d.

Definition setEncodingGuess (codec : option QTextCodec) (d : IndexingData)
    : IndexingData :=
  mkIndexingData (maxLength_ d) (hash_ d) (hashBuilder_ d) (linePosition_ d)
    codec (encodingForced_ d) (progress_ d) (useFastModificationDetection_ d).

Definition forceEncoding (codec : option QTextCodec) (d : IndexingData)
    : IndexingData :=
  mkIndexingData (maxLength_ d) (hash_ d) (hashBuilder_ d) (linePosition_ d)
    (encodingGuess_ d) codec (progress_ d) (useFastModificationDetection_ d).

Definition setProgress (progress : Z) (d : IndexingData) : IndexingData :=
  mkIndexingData (maxLength_ d) (hash_ d) (hashBuilder_ d) (linePosition_ d)
    (encodingGuess_ d) (encodingForced_ d) progress
    (useFastModificationDetection_ d).

Definition addAll (env : Environment) (block : list byte) (length : Z)
    (linePosition : LinePositionArray) (encoding : option QTextCodec)
    (d : IndexingData) : IndexingData :=
  let maxLength := Z.max (maxLength_ d) length in
  let linePosition := append_list (linePosition_ d) linePosition in
  let '(hash, hashBuilder) :=
    match block with
    | [] => (hash_ d, hashBuilder_ d)
    | _ :: _ =>
        let h := hash_ d in
        let sz := size h + Z.of_nat (List.length block) in
        if negb (useFastModificationDetection_ d)
        then
          let hb := addData (hashBuilder_ d) block in
          (mkIndexedHash sz (xxhash env hb) (headerDigest h) (headerSize h)
             (tailDigest h) (tailOffset h) (tailSize h), hb)
        else
          (mkIndexedHash sz (fullDigest h) (headerDigest h) (headerSize h)
             (tailDigest h) (tailOffset h) (tailSize h), hashBuilder_ d)
    end in
  mkIndexingData maxLength hash hashBuilder linePosition encoding
    (encodingForced_ d) (progress_ d) (useFastModificationDetection_ d).

Definition clear (env : Environment) (_ : IndexingData) : IndexingData :=
  mkIndexingData 0 emptyIndexedHash [] emptyLinePositionArray None None 0
    (fastModificationDetection env).

(** Modelled from the spec: [setHeaderHash] and [setTailHash] are defined in
    the header of [IndexingData]; "publish prefix/suffix fingerprints". *)
Definition setHeaderHash (digest sz : Z) (d : IndexingData) : IndexingData :=
  let h := hash_ d in
  mkIndexingData (maxLength_ d)
    (mkIndexedHash (size h) (fullDigest h) digest sz (tailDigest h)
       (tailOffset h) (tailSize h))
    (hashBuilder_ d) (linePosition_ d) (encodingGuess_ d) (encodingForced_ d)
    (progress_ d) (useFastModificationDetection_ d).

Definition setTailHash (digest offset sz : Z) (d : IndexingData)
    : IndexingData :=
  let h := hash_ d in
  mkIndexingData (maxLength_ d)
    (mkIndexedHash (size h) (fullDigest h) (headerDigest h) (headerSize h)
       digest offset sz)
    (hashBuilder_ d) (linePosition_ d) (encodingGuess_ d) (encodingForced_ d)
    (progress_ d) (useFastModificationDetection_ d).

(** The calls an operation makes through a [MutateAccessor]. *)
Inductive StoreOp :=
| OpClear
| OpForceEncoding (codec : option QTextCodec)
| OpSetEncodingGuess (codec : option QTextCodec)
| OpSetProgress (progress : Z)
| OpAddAll (block : list byte) (length : Z) (linePosition : LinePositionArray)
    (encoding : option QTextCodec)
| OpSetHeaderHash (digest sz : Z)
| OpSetTailHash (digest offset sz : Z).

Definition applyOp (env : Environment) (op : StoreOp) (d : IndexingData)
    : IndexingData :=
  match op with
  | OpClear => clear env d
  | OpForceEncoding c => forceEncoding c d
  | OpSetEncodingGuess c => setEncodingGuess c d
  | OpSetProgress p => setProgress p d
  | OpAddAll b l lp e => addAll env b l lp e d
  | OpSetHeaderHash dg s => setHeaderHash dg s d
  | OpSetTailHash dg o s => setTailHash dg o s d
  end.

(** ** The world of an operation, and its monad *)

Inductive MonitoredFileStatus := Unchanged | DataAdded | Truncated.

(** What an operation sends out: its signals and its message boxes. *)
Inductive Event :=
| indexingProgressed (percent : Z)
| indexingFinished (result : bool)
| fileCheckFinished (status : MonitoredFileStatus)
(** [QMessageBox::critical]: "Can't index file: some lines are too long" *)
| linesTooLong
(** [IssueReporter::askUserAndReportIssue( IssueTemplate::Exception, .. )] *)
| issueReported (errorString : String.string).

Record World := mkWorld {
  store : IndexingData;
  (** the calls made on the store so far, oldest first *)
  oplog : list StoreOp;
  (** the events sent so far, oldest first *)
  events : list Event;
  (** the number of polls of the interrupt flag so far *)
  polls : nat;
  (** the number of stages begun so far *)
  stages : nat
}.

(** An operation returns, or leaves by an exception, or never returns to its
    caller: it runs without end, or [std::terminate] ends the process. *)
Inductive Result (A : Type) :=
| Ok (a : A) (w : World)
| Thrown (what : String.string) (w : World)
| Diverges.
Arguments Ok {A} a w.
Arguments Thrown {A} what w.
Arguments Diverges {A}.

Definition M (A : Type) := World -> Result A.

Definition ret {A} (a : A) : M A := fun w => Ok a w.

Definition bind {A B} (m : M A) (f : A -> M B) : M B :=
  fun w =>
    match m w with
    | Ok a w' => f a w'
    | Thrown what w' => Thrown what w'
    | Diverges => Diverges
    end.

Notation "x <- c1 ;; c2" := (bind c1 (fun x => c2))
  (at level 61, c1 at next level, right associativity).
Notation "c1 ;; c2" := (bind c1 (fun _ => c2))
  (at level 61, right associativity).

(** [try { body } catch ( const std::exception& err ) { handler }] *)
Definition try_catch {A} (body : M A) (handler : String.string -> M A) : M A :=
  fun w =>
    match body w with
    | Thrown what w' => handler what w'
    | r => r
    end.

Definition diverge {A} : M A := fun _ => Diverges.

(** [indexingGraph.wait_for_all(); ioThread.join();] around the nodes of the
    graph.  An exception of a node leaves [wait_for_all] and skips
    [ioThread.join()]: the [std::thread] of the reader is destroyed while it
    can still be joined, and [std::terminate] ends the process before any
    [catch] block is reached. *)
Definition wait_for_all {A} (nodes : M A) : M A :=
  fun w =>
    match nodes w with
    | Thrown _ _ => Diverges
    | r => r
    end.

(** The beginning of a stage of the operation: a place where the exception
    of the environment, if it is due now, is thrown. *)
Definition checkpoint (env : Environment) : M unit :=
  fun w =>
    let w' := mkWorld (store w) (oplog w) (events w) (polls w) (S (stages w)) in
    match exceptionAt env with
    | Some (k, what) =>
        if Nat.eqb k (stages w) then Thrown what w' else Ok tt w'
    | None => Ok tt w'
    end.

(** A call through a [MutateAccessor]. *)
Definition mutate (env : Environment) (op : StoreOp) : M unit :=
  checkpoint env ;;
  fun w =>
    Ok tt (mkWorld (applyOp env op (store w)) (oplog w ++ [op]) (events w)
             (polls w) (stages w)).

(** A look through a [ConstAccessor] (or a getter of a [MutateAccessor]). *)
Definition getStore : M IndexingData := fun w => Ok (store w) w.

Definition emit (ev : Event) : M unit :=
  fun w =>
    Ok tt (mkWorld (store w) (oplog w) (events w ++ [ev]) (polls w) (stages w)).

(** The value of the interrupt flag at the poll number [n]. *)
Definition interruptRequest_ (env : Environment) (n : nat) : bool :=
  match interruptSetAt env with
  | Some k => (k <=? n)%nat
  | None => false
  end.

Definition poll (env : Environment) : M bool :=
  fun w =>
    Ok (interruptRequest_ env (polls w))
       (mkWorld (store w) (oplog w) (events w) (S (polls w)) (stages w)).

(** ** Files *)

(** An open [QFile]: the bytes on disk and the position. *)
Record QFile := mkQFile {
  contents : list byte;
  fpos : Z
}.

Definition file_size_of (f : QFile) : Z := Z.of_nat (length (contents f)).

Definition atEnd (f : QFile) : bool := file_size_of f <=? fpos f.

(** [file.seek( p )]; a negative position is refused. *)
Definition seek (f : QFile) (p : Z) : QFile :=
  if p <? 0 then f else mkQFile (contents f) p.

(** [file.read( buffer, maxSize )]: the number of bytes read ([-1] on an
    error), the bytes, and the file afterwards. *)
Definition read (f : QFile) (maxSize : Z) : Z * list byte * QFile :=
  if maxSize <? 0 then (-1, [], f)
  else
    let data :=
      firstn (Z.to_nat maxSize) (skipn (Z.to_nat (fpos f)) (contents f)) in
    let n := Z.of_nat (length data) in
    (n, data, mkQFile (contents f) (fpos f + n)).

Definition IndexingBlockSize : Z := 1 * 1024 * 1024.

Definition BlockData := (Z * list byte)%type.

(** The [while] loop of [IndexOperation::readFileInBlocks]: the blocks put
    into the gateway, the file afterwards and the number of polls afterwards.
    Every round reads at least one byte, so a fuel of the size of the file is
    never used up before the file is at its end. *)
Fixpoint readLoop (fuel : nat) (env : Environment) (file : QFile) (npolls : nat)
    : list BlockData * QFile * nat :=
  match fuel with
  | O => ([], file, npolls)
  | S fuel' =>
      if atEnd file then ([], file, npolls)
      else if interruptRequest_ env npolls then ([], file, S npolls)
      else
        let blockBeginning := fpos file in
        let '(readBytes, data, file') := read file IndexingBlockSize in
        if readBytes <? 0 then ([], file', S npolls)
        else
          let '(blocks, file'', npolls') :=
            readLoop fuel' env file' (S npolls) in
          ((blockBeginning, data) :: blocks, file'', npolls')
  end.

Definition lastBlock : BlockData := (-1, []).

Definition readFileInBlocks (env : Environment) (file : QFile)
    : M (list BlockData * QFile) :=
  fun w =>
    let '(blocks, file', npolls) :=
      readLoop (length (contents file)) env file (polls w) in
    Ok (blocks ++ [lastBlock], file')
       (mkWorld (store w) (oplog w) (events w) npolls (stages w)).

(** ** IndexOperation *)

Definition orElse {A} (a b : option A) : option A :=
  match a with Some _ => a | None => b end.

Definition guessEncoding (env : Environment) (block : list byte)
    (d : IndexingData) (state : IndexingState) : IndexingState :=
  let encodingGuess :=
    match encodingGuess state with
    | None => Some (detectEncoding env block)
    | Some c => Some c
    end in
  let fileTextCodec :=
    match fileTextCodec state with
    | Some c => c
    | None =>
        match orElse (getForcedEncoding d) (getEncodingGuess d) with
        | Some c => c
        | None =>
            match encodingGuess with
            | Some c => c
            | None => detectEncoding env block
            end
        end
    end in
  mkIndexingState (encodingParametersOf env fileTextCodec) (pos state)
    (max_length state) (additional_spaces state) (end_ state)
    (file_size state) encodingGuess (Some fileTextCodec).

(** Modelled from the spec: [calculateProgress] is defined in [progress.h];
    "computed as clamp(pos * 100 / file_size, 0, 100)". *)
Definition calculateProgress (value maxValue : Z) : Z :=
  Z.max 0 (Z.min 100 (Z.quot (value * 100) maxValue)).

Definition indexNextBlock (env : Environment) (state : IndexingState)
    (blockData : BlockData) : M IndexingState :=
  let '(blockBeginning, block) := blockData in
  if blockBeginning <? 0 then ret state
  else
    checkpoint env ;;
    d <- getStore ;;
    let state := guessEncoding env block d state in
    match block with
    | _ :: _ =>
        match parseDataBlock blockBeginning block state with
        | None => diverge
        | Some (linePositions, state) =>
            let maxLength :=
              if max_length state >? LineLength_max
              then LineLength_max else max_length state in
            mutate env
              (OpAddAll block maxLength linePositions (encodingGuess state)) ;;
            let progress :=
              if file_size state >? 0
              then calculateProgress (pos state) (file_size state)
              else 100 in
            d <- getStore ;;
            (if negb (progress =? getProgress d)
             then
               mutate env (OpSetProgress progress) ;;
               emit (indexingProgressed progress)
             else ret tt) ;;
            ret state
        end
    | [] =>
        mutate env (OpSetEncodingGuess (encodingGuess state)) ;;
        ret state
    end.

(** The serial parser node of the graph, fed with the blocks in the order of
    the queue. *)
Fixpoint parseBlocks (env : Environment) (state : IndexingState)
    (blocks : list BlockData) : M IndexingState :=
  match blocks with
  | [] => ret state
  | blockData :: rest =>
      state' <- indexNextBlock env state blockData ;;
      parseBlocks env state' rest
  end.

(** The header and tail digests of [doIndex], after the graph has finished. *)
Definition rehash (env : Environment) (file : QFile) : M unit :=
  let endFilePos := fpos file in
  let file := seek file 0 in
  let '(headerHashSize, hashBuffer, file) := read file IndexingBlockSize in
  let fastHashDigest := addData [] hashBuffer in
  mutate env (OpSetHeaderHash (xxhash env fastHashDigest) headerHashSize) ;;
  if endFilePos <=? IndexingBlockSize
  then mutate env (OpSetTailHash (xxhash env fastHashDigest) 0 headerHashSize)
  else
    let tailHashOffset := endFilePos - IndexingBlockSize in
    let file := seek file tailHashOffset in
    let '(tailHashSize, hashBuffer, file) := read file IndexingBlockSize in
    let fastHashDigest := addData [] hashBuffer in
    mutate env
      (OpSetTailHash (xxhash env fastHashDigest) tailHashOffset tailHashSize).

(** The end of [doIndex], once the graph has finished and the reader thread
    has been joined: the fake end of line, the header and tail digests, and
    the three checks on the result. *)
Definition doIndex_finish (env : Environment) (file : QFile)
    (state : IndexingState) : M unit :=
  interrupted <- poll env ;;
  (if negb interrupted && (file_size state >? pos state)
   then
     let line_position :=
       setFakeFinalLF
         (lpa_append emptyLinePositionArray (file_size state + 1)) in
     mutate env (OpAddAll [] 0 line_position (encodingGuess state))
   else ret tt) ;;
  rehash env file ;;
  interrupted <- poll env ;;
  (if interrupted then mutate env OpClear else ret tt) ;;
  d <- getStore ;;
  (if getMaxLength d =? LineLength_max
   then emit linesTooLong ;; mutate env OpClear
   else ret tt) ;;
  d <- getStore ;;
  match getEncodingGuess d with
  | None => mutate env (OpSetEncodingGuess (Some (codecForLocale env)))
  | Some _ => ret tt
  end.

Definition doIndex (env : Environment) (initialPosition : Z) : M unit :=
  checkpoint env ;;
  if negb (disk_readable env)
  then
    mutate env OpClear ;;
    mutate env (OpSetEncodingGuess (Some (codecForLocale env))) ;;
    mutate env (OpSetProgress 100) ;;
    emit (indexingProgressed 100)
  else
    let file := mkQFile (disk_bytes env) 0 in
    d <- getStore ;;
    let state :=
      mkIndexingState (mkEncodingParameters 1 0) initialPosition 0 0 0
        (file_size_of file) (getEncodingGuess d)
        (orElse (getForcedEncoding d) (getEncodingGuess d)) in
    let file := seek file (pos state) in
    r <- readFileInBlocks env file ;;
    let '(blocks, file) := r in
    state <- wait_for_all (parseBlocks env state blocks) ;;
    doIndex_finish env file state.

(** ** The operations *)

(** [OperationResult] holds the [bool] of an indexing operation or the
    status of a check. *)
Inductive OperationResult :=
| ResultBool (b : bool)
| ResultStatus (s : MonitoredFileStatus).

(** The [try] block of [FullIndexOperation::run]. *)
Definition FullIndexOperation_try (env : Environment)
    (forcedEncoding_ : option QTextCodec) : M OperationResult :=
  emit (indexingProgressed 0) ;;
  mutate env OpClear ;;
  mutate env (OpForceEncoding forcedEncoding_) ;;
  doIndex env 0 ;;
  interrupted <- poll env ;;
  let result := if interrupted then false else true in
  emit (indexingFinished result) ;;
  ret (ResultBool result).

Definition FullIndexOperation_run (env : Environment)
    (forcedEncoding_ : option QTextCodec) : M OperationResult :=
  try_catch
    (FullIndexOperation_try env forcedEncoding_)
    (fun what =>
       emit (issueReported
               (String.append "FullIndexOperation failed: "%string what)) ;;
       mutate env OpClear ;;
       ret (ResultBool false)).

(** The [try] block of [PartialIndexOperation::run]. *)
Definition PartialIndexOperation_try (env : Environment) : M OperationResult :=
  d <- getStore ;;
  let initialPosition := getIndexedSize d in
  emit (indexingProgressed 0) ;;
  doIndex env initialPosition ;;
  interrupted <- poll env ;;
  let result := if interrupted then false else true in
  emit (indexingFinished result) ;;
  ret (ResultBool result).

Definition PartialIndexOperation_run (env : Environment) : M OperationResult :=
  try_catch
    (PartialIndexOperation_try env)
    (fun what =>
       emit (issueReported
               (String.append "PartialIndexOperation failed: "%string what)) ;;
       mutate env OpClear ;;
       ret (ResultBool false)).

(** The lambda [getDigest] of [doCheckFileChanges]: its [do .. while] loop. *)
Fixpoint getDigestLoop (fuel : nat) (file : QFile) (fileDigest : FileDigest)
    (totalSize indexedSize : Z) : option (FileDigest * QFile) :=
  match fuel with
  | O => None
  | S fuel' =>
      let bytesToRead := Z.min IndexingBlockSize (indexedSize - totalSize) in
      let '(readSize, buffer, file) := read file bytesToRead in
      let '(fileDigest, totalSize) :=
        if readSize >? 0
        then (addData fileDigest buffer, totalSize + readSize)
        else (fileDigest, totalSize) in
      if (readSize >? 0) && (totalSize <? indexedSize)
      then getDigestLoop fuel' file fileDigest totalSize indexedSize
      else Some (fileDigest, file)
  end.

(** Every round but the last reads at least one byte. *)
Definition getDigest (env : Environment) (file : QFile) (indexedSize : Z)
    : option (Z * QFile) :=
  match getDigestLoop (S (length (contents file))) file [] 0 indexedSize with
  | Some (fileDigest, file) => Some (xxhash env fileDigest, file)
  | None => None
  end.

Definition doCheckFileChanges (env : Environment) : M MonitoredFileStatus :=
  checkpoint env ;;
  d <- getStore ;;
  let indexedHash := getHash d in
  let realFileSize := Z.of_nat (length (disk_bytes env)) in
  if (realFileSize =? 0) || (realFileSize <? size indexedHash)
  then ret Truncated
  else
    if negb (disk_readable env) then ret Truncated
    else
      let file := mkQFile (disk_bytes env) 0 in
      isFileModified <-
        (if fastModificationDetection env
         then
           match getDigest env file (headerSize indexedHash) with
           | None => diverge
           | Some (headerDigest', file) =>
               if negb (headerDigest' =? headerDigest indexedHash)
               then ret true
               else
                 let file := seek file (tailOffset indexedHash) in
                 match getDigest env file (tailSize indexedHash) with
                 | None => diverge
                 | Some (tailDigest', _) =>
                     ret (negb (tailDigest' =? tailDigest indexedHash))
                 end
           end
         else
           match getDigest env file (size indexedHash) with
           | None => diverge
           | Some (realHashDigest, _) =>
               ret (negb (realHashDigest =? fullDigest indexedHash))
           end) ;;
      if isFileModified : bool then ret Truncated
      else if realFileSize >? size indexedHash then ret DataAdded
      else ret Unchanged.

(** The [try] block of [CheckFileChangesOperation::run]. *)
Definition CheckFileChangesOperation_try (env : Environment)
    : M OperationResult :=
  result <- doCheckFileChanges env ;;
  emit (fileCheckFinished result) ;;
  ret (ResultStatus result).

Definition CheckFileChangesOperation_run (env : Environment)
    : M OperationResult :=
  try_catch
    (CheckFileChangesOperation_try env)
    (fun what =>
       emit (issueReported
               (String.append "CheckFileChangesOperation failed: "%string
                  what)) ;;
       ret (ResultStatus Truncated)).

(** The three operations of [LogDataWorker], and the virtual call
    [operationRequested->run()] of [connectSignalsAndRun]. *)
Inductive Operation :=
| FullIndex (forcedEncoding : option QTextCodec)
| PartialIndex
| CheckFileChanges.

Definition Operation_run (env : Environment) (op : Operation)
    : M OperationResult :=
  match op with
  | FullIndex forcedEncoding => FullIndexOperation_run env forcedEncoding
  | PartialIndex => PartialIndexOperation_run env
  | CheckFileChanges => CheckFileChangesOperation_run env
  end.

(** The world at the beginning of an operation that finds [d] in the store. *)
Definition startWorld (d : IndexingData) : World := mkWorld d [] [] 0 0.

(** * The specification side

    The notions in which the properties are stated, and the invariants of
    their proofs. *)

(** The words of the specification for a genuine delimiter at the index [n]:
    its [lineFeedWidth - 1] neighbouring bytes, forward when [lineFeedIndex]
    is 0 and backward otherwise, lie within [data] and are all zero. *)
Definition neighboursZero (p : EncodingParameters) (data : list byte)
    (n : nat) : Prop :=
  let w := Z.to_nat (lineFeedWidth p) in
  if lineFeedIndex p =? 0
  then (n + w <= length data)%nat /\
       forall i, (1 <= i < w)%nat -> sv_at data (n + i) = NUL
  else (w - 1 <= n)%nat /\
       forall i, (1 <= i < w)%nat -> sv_at data (n - i) = NUL.

(** The first index at or after [from] that satisfies [ok], as a relation. *)
Definition first_index (data : list byte) (c : byte) (ok : nat -> Prop)
    (from : nat) (r : option nat) : Prop :=
  match r with
  | Some n =>
      (from <= n < length data)%nat /\ sv_at data n = c /\ ok n /\
      forall m, (from <= m < n)%nat -> sv_at data m = c -> ~ ok m
  | None =>
      forall m, (from <= m < length data)%nat -> sv_at data m = c -> ~ ok m
  end.

(** The fields of the state that parsing a block leaves alone. *)
Definition same_setup (s s' : IndexingState) : Prop :=
  encodingParams s' = encodingParams s /\ file_size s' = file_size s /\
  encodingGuess s' = encodingGuess s /\ fileTextCodec s' = fileTextCodec s.

(** The scanner that [parseDataBlock] chooses for the encoding [p]. *)
Definition chosenScanner (p : EncodingParameters) : FindDelimeter :=
  if lineFeedWidth p =? 1
  then findNextSingleByteDelimeter else findNextMultiByteDelimeter.

(** [xs] is strictly increasing and starts above [lo]. *)
Fixpoint chain (lo : Z) (xs : list Z) : Prop :=
  match xs with
  | [] => True
  | x :: rest => lo < x /\ chain x rest
  end.

(** The positions just behind the LF bytes of [l], whose first byte is at
    the position [base]. *)
Fixpoint lf_offsets (l : list byte) (base : Z) : list Z :=
  match l with
  | [] => []
  | b :: rest =>
      if Byte.eqb b LF
      then (base + 1) :: lf_offsets rest (base + 1)
      else lf_offsets rest (base + 1)
  end.

(** The positions of the TAB bytes of [l], whose first byte is at the
    position [base]. *)
Fixpoint tab_positions (l : list byte) (base : Z) : list Z :=
  match l with
  | [] => []
  | b :: rest =>
      if Byte.eqb b TAB
      then base :: tab_positions rest (base + 1)
      else tab_positions rest (base + 1)
  end.

(** The tabs that the loop of [expandTabsInLine] comes by: the position
    within the block of every tab that the scanner finds, in the order in
    which the loop finds them. *)
Fixpoint tabsFoundLoop (fuel : nat) (findNextDelimeter : FindDelimeter)
    (encodingParams : EncodingParameters) (blockToExpand : string_view)
    : list Z :=
  match fuel with
  | O => []
  | S fuel' =>
      match sv_bytes blockToExpand with
      | [] => []
      | _ :: _ =>
          match findNextDelimeter encodingParams (sv_bytes blockToExpand) TAB with
          | None => []
          | Some nextTab =>
              let tabPosWithinBlock :=
                charOffsetWithinBlock
                  (sv_ptr blockToExpand + Z.of_nat nextTab) encodingParams in
              if (length (sv_bytes blockToExpand) <=? nextTab)%nat
              then [tabPosWithinBlock]
              else
                tabPosWithinBlock
                  :: tabsFoundLoop fuel' findNextDelimeter encodingParams
                       (mk_view (sv_ptr blockToExpand + Z.of_nat (nextTab + 1))
                                (skipn (nextTab + 1) (sv_bytes blockToExpand)))
          end
      end
  end.

Definition tabsFound (findNextDelimeter : FindDelimeter)
    (encodingParams : EncodingParameters) (blockToExpand : string_view)
    : list Z :=
  tabsFoundLoop (length (sv_bytes blockToExpand)) findNextDelimeter
    encodingParams blockToExpand.

(** The additional spaces behind the tabs at the positions [tabs], in the
    words of the specification: "the visual column just before it is
    (t - lineStart) + additionalSpaces; [...] additionalSpaces += TabStop -
    (column mod TabStop) - 1". *)
Fixpoint spacesAfterTabs (tabs : list Z) (lineStart additionalSpaces : Z)
    : Z :=
  match tabs with
  | [] => additionalSpaces
  | t :: rest =>
      let column := (t - lineStart) + additionalSpaces in
      spacesAfterTabs rest lineStart
        (additionalSpaces + (TabStop - column mod TabStop - 1))
  end.

(** The store after the calls [ops], oldest first. *)
Definition replay (env : Environment) (ops : list StoreOp) (d : IndexingData)
    : IndexingData :=
  fold_left (fun d op => applyOp env op d) ops d.

(** The bytes that an index of [n] bytes holds after the calls [ops], in the
    words of the amended claim: every [addAll] adds the bytes of its block,
    and [clear] starts again from nothing. *)
Fixpoint bytesAdded (ops : list StoreOp) (n : Z) : Z :=
  match ops with
  | [] => n
  | OpClear :: rest => bytesAdded rest 0
  | OpAddAll block _ _ _ :: rest =>
      bytesAdded rest (n + Z.of_nat (length block))
  | _ :: rest => bytesAdded rest n
  end.

(** [IndexingBlockSize] as a number of bytes to take from a list. *)
Definition blockSize : nat := Z.to_nat IndexingBlockSize.

(** The blocks of the file [c] from the position [p] to the position [q]. *)
Fixpoint contiguous (c : list byte) (p : Z) (blocks : list BlockData) (q : Z)
    : Prop :=
  match blocks with
  | [] => q = p
  | (blockBeginning, data) :: rest =>
      blockBeginning = p /\ data <> [] /\
      data = firstn blockSize (skipn (Z.to_nat p) c) /\
      contiguous c (p + Z.of_nat (length data)) rest q
  end.

(** The length that [indexNextBlock] hands to [addAll]. *)
Definition clampLength (m : Z) : Z :=
  if m >? LineLength_max then LineLength_max else m.

(** The codec that [guessEncoding] settles on in a full index: the forced
    one, or else the one detected on the first block of the file. *)
Definition chosenCodec (env : Environment) (forced : option QTextCodec)
    : QTextCodec :=
  match forced with
  | Some c => c
  | None => detectEncoding env (firstn blockSize (disk_bytes env))
  end.

(** The call that inserts the fake final line feed. *)
Definition is_fake_insert (op : StoreOp) : bool :=
  match op with
  | OpAddAll _ _ lp _ => fakeFinalLF lp
  | _ => false
  end.

(** What holds between two blocks of a full index, once the bytes before the
    position [n] have been parsed. *)
Definition parsed_upto (env : Environment) (forced : option QTextCodec)
    (n : Z) (state : IndexingState) (w : World) : Prop :=
  let c := disk_bytes env in
  let O := offsets (linePosition_ (store w)) in
  0 <= pos state <= n /\
  file_size state = Z.of_nat (length c) /\
  getIndexedSize (store w) = n /\
  chain 0 O /\ last O 0 <= pos state /\
  fakeFinalLF (linePosition_ (store w)) = false /\
  ~ In linesTooLong (events w) /\
  Forall (fun op => is_fake_insert op = false) (oplog w) /\
  ((n = 0 /\ fileTextCodec state = forced /\ encodingGuess state = None /\
    encodingForced_ (store w) = forced /\ encodingGuess_ (store w) = None)
   \/ (0 < n /\ fileTextCodec state = Some (chosenCodec env forced) /\
       encodingGuess_ (store w) <> None)) /\
  (lineFeedWidth (encodingParametersOf env (chosenCodec env forced)) = 1 ->
   O = lf_offsets (firstn (Z.to_nat n) c) 0 /\ pos state = last O 0).

(** The [line_position] that [doIndex] adds for a file without a final line
    feed. *)
Definition fake_line_position (state : IndexingState) : LinePositionArray :=
  setFakeFinalLF (lpa_append emptyLinePositionArray (file_size state + 1)).

(** The file is not empty and its last byte is not LF. *)
Definition ends_without_lf (l : list byte) : bool :=
  match l with
  | [] => false
  | _ :: _ => negb (Byte.eqb (last l NUL) LF)
  end.

(** Every element is below the ones that follow it. *)
Definition strictly_increasing (l : list Z) : Prop :=
  forall i j, (i < j < length l)%nat -> nth i l 0 < nth j l 0.

(** The exception [what] is the one of the environment, and its stage has
    begun. *)
Definition thrown_by_stage (env : Environment) (what : String.string)
    (w : World) : Prop :=
  exists k, exceptionAt env = Some (k, what) /\ (k < stages w)%nat.

(** [m] keeps [I], and throws only the exception of the environment. *)
Definition safe {A : Type} (env : Environment) (I : World -> Prop) (m : M A)
    : Prop :=
  forall w,
    I w ->
    match m w with
    | Ok _ w' => I w'
    | Thrown what w' => I w' /\ thrown_by_stage env what w'
    | Diverges => True
    end.

(** [I] looks only at the store and at the log of the calls on it, and every
    call made through the log keeps it. *)
Definition stable (env : Environment) (I : World -> Prop) : Prop :=
  (forall w op,
      I w ->
      I (mkWorld (applyOp env op (store w)) (oplog w ++ [op]) (events w)
           (polls w) (stages w))) /\
  (forall w ev np ns, I w -> I (mkWorld (store w) (oplog w) ev np ns)).

(** The [try] block of an operation. *)
Definition Operation_try (env : Environment) (op : Operation)
    : M OperationResult :=
  match op with
  | FullIndex forcedEncoding => FullIndexOperation_try env forcedEncoding
  | PartialIndex => PartialIndexOperation_try env
  | CheckFileChanges => CheckFileChangesOperation_try env
  end.

(** What an operation returns when it has caught an exception. *)
Definition failure_result (op : Operation) : OperationResult :=
  match op with
  | CheckFileChanges => ResultStatus Truncated
  | _ => ResultBool false
  end.

(** The fingerprint and the full-file hash builder agree. *)
Definition hash_inv (d : IndexingData) : Prop :=
  if useFastModificationDetection_ d
  then hashBuilder_ d = []
  else size (hash_ d) = Z.of_nat (length (hashBuilder_ d)).

(** The store as it is created, before anything is indexed. *)
Definition emptyIndexingData : IndexingData :=
  mkIndexingData 0 emptyIndexedHash [] emptyLinePositionArray None None 0 false.

(** An environment for the scenarios of the specification: a readable file
    with the bytes [bytes], a detector that answers UTF-8, UTF-16LE with a
    line feed of two bytes whose first byte is LF and every other codec with a
    line feed of one byte, and the length of the bytes as their digest. *)
Definition exampleEnv (bytes : list byte) (fast : bool)
    (interrupt : option nat) (exception : option (nat * String.string))
    : Environment :=
  mkEnvironment bytes true fast "UTF-8"%string (fun _ => "UTF-8"%string)
    (fun c =>
       if String.eqb c "UTF-16LE"%string
       then mkEncodingParameters 2 0 else mkEncodingParameters 1 0)
    (fun l => Z.of_nat (length l)) interrupt exception.

(** The classification of the change check, in the words of the
    specification. *)
Definition classifyFile (env : Environment) (indexedHash : IndexedHash)
    : MonitoredFileStatus :=
  let realFileSize := Z.of_nat (length (disk_bytes env)) in
  let digestOf (offset sz : Z) :=
    xxhash env
      (firstn (Z.to_nat sz) (skipn (Z.to_nat offset) (disk_bytes env))) in
  let digestDiffers :=
    if fastModificationDetection env
    then
      negb (digestOf 0 (headerSize indexedHash) =? headerDigest indexedHash)
      || negb (digestOf (tailOffset indexedHash) (tailSize indexedHash)
               =? tailDigest indexedHash)
    else negb (digestOf 0 (size indexedHash) =? fullDigest indexedHash) in
  if (realFileSize =? 0) || (realFileSize <? size indexedHash)
     || negb (disk_readable env) || digestDiffers
  then Truncated
  else if realFileSize >? size indexedHash then DataAdded
  else Unchanged.

(** The number of polls of the interrupt flag that the reader of a full
    index makes. *)
Definition readerPolls (env : Environment) : nat :=
  let '(_, _, npolls) :=
    readLoop (length (disk_bytes env)) env (mkQFile (disk_bytes env) 0) 0 in
  npolls.

(** The file of three lines of the specification. *)
Definition threeLines : list byte :=
  ["a"%byte; x0a; "b"%byte; "b"%byte; x0a; "c"%byte; "c"%byte; "c"%byte; x0a].

(** The file of one line without a line feed of the specification. *)
Definition hello : list byte :=
  ["h"%byte; "e"%byte; "l"%byte; "l"%byte; "o"%byte].

(** A store that holds the index of [hello]. *)
Definition helloStore : IndexingData :=
  mkIndexingData 5 (mkIndexedHash 5 5 5 5 5 0 5) hello
    (mkLinePositionArray [6] true) (Some "UTF-8"%string) None 0 false.

(** The store after the header and tail digests of [doIndex] have been
    computed from [file], whose position is the end of what was read. *)
Definition rehashed (env : Environment) (file : QFile) (d : IndexingData)
    : IndexingData :=
  let header := firstn blockSize (contents file) in
  let tailHashOffset :=
    if fpos file <=? IndexingBlockSize then 0
    else fpos file - IndexingBlockSize in
  let tail :=
    firstn blockSize (skipn (Z.to_nat tailHashOffset) (contents file)) in
  setTailHash (xxhash env tail) tailHashOffset (Z.of_nat (length tail))
    (setHeaderHash (xxhash env header) (Z.of_nat (length header)) d).

(** The length in bytes of the longest line of [l], whose first line has
    [cur] bytes already: a line ends at a byte LF, and the bytes behind the
    last LF count as a line. *)
Fixpoint longest_line (l : list byte) (cur : Z) : Z :=
  match l with
  | [] => cur
  | b :: rest =>
      if Byte.eqb b LF
      then Z.max cur (longest_line rest 0)
      else longest_line rest (cur + 1)
  end.

(** What the parser and the store hold of the longest line, once the first
    [n] bytes of a file without tabs have been added. *)
Definition longest_upto (env : Environment) (n : Z) (state : IndexingState)
    (d : IndexingData) : Prop :=
  max_length state = longest_line (firstn (Z.to_nat n) (disk_bytes env)) 0 /\
  additional_spaces state = 0 /\
  maxLength_ d = clampLength (max_length state).

(** The offset [o] is the position just behind a line feed of the block: a
    byte LF at the index [n] whose neighbours are zero, in a code unit that
    begins [lineFeedIndex] bytes before it. *)
Definition follows_line_feed (p : EncodingParameters) (blockBeginning : Z)
    (block : list byte) (o : Z) : Prop :=
  exists n : nat,
    (n < length block)%nat /\ sv_at block n = LF /\
    neighboursZero p block n /\
    o = blockBeginning + Z.of_nat n - lineFeedIndex p + lineFeedWidth p.

(** The fingerprint of a file whose bytes are [c]: its size, the digest of
    all its bytes (kept at 0 in fast mode, and for an empty file), and the
    digests of its first and of its last [IndexingBlockSize] bytes. *)
Definition fingerprintOf (env : Environment) (c : list byte) : IndexedHash :=
  let fileSize := Z.of_nat (length c) in
  let header := firstn blockSize c in
  let tailHashOffset :=
    if fileSize <=? IndexingBlockSize then 0 else fileSize - IndexingBlockSize in
  let tail := firstn blockSize (skipn (Z.to_nat tailHashOffset) c) in
  mkIndexedHash fileSize
    (if fastModificationDetection env || (fileSize =? 0)
     then 0 else xxhash env c)
    (xxhash env header) (Z.of_nat (length header))
    (xxhash env tail) tailHashOffset (Z.of_nat (length tail)).

(** What the store holds of the hashes and of the longest line, once the
    first [n] bytes of the file have been added to it. *)
Definition hashed_upto (env : Environment) (n : Z) (d : IndexingData) : Prop :=
  let c := disk_bytes env in
  useFastModificationDetection_ d = fastModificationDetection env /\
  size (hash_ d) = n /\
  hashBuilder_ d
  = (if fastModificationDetection env then [] else firstn (Z.to_nat n) c) /\
  fullDigest (hash_ d)
  = (if fastModificationDetection env || (n =? 0)
     then 0 else xxhash env (firstn (Z.to_nat n) c)) /\
  0 <= maxLength_ d <= LineLength_max.

(** What the store and the parser hold of the encodings, once the first [n]
    bytes of the file have been added in a full index with the forced
    encoding [forced]. *)
Definition encoded_upto (env : Environment) (forced : option QTextCodec)
    (n : Z) (state : IndexingState) (d : IndexingData) : Prop :=
  let guess :=
    if n =? 0 then None
    else Some (detectEncoding env (firstn blockSize (disk_bytes env))) in
  encodingForced_ d = forced /\
  encodingGuess state = guess /\
  encodingGuess_ d = guess.

(** [m] comes to an end from every world, and what it returns satisfies
    [P]. *)
Definition returns {A : Type} (P : A -> Prop) (m : M A) : Prop :=
  forall w,
    match m w with
    | Ok a _ => P a
    | Thrown _ _ => True
    | Diverges => False
    end.

(** Every codec of the environment has well-formed parameters. *)
Definition wf_env (env : Environment) : Prop :=
  forall codec, wf_params (encodingParametersOf env codec).

(** A block that [parseDataBlock] can address with an [int]. *)
Definition small_block (blockData : BlockData) : Prop :=
  Z.of_nat (length (snd blockData)) < 2147483648.

(** No condition on what is returned. *)
Definition anything {A : Type} (_ : A) : Prop := True.

(** The stage counter never goes back in [m], and an exception that [m]
    throws is the one of the environment, due at a stage that had not begun
    when [m] started. *)
Definition climbs {A : Type} (env : Environment) (m : M A) : Prop :=
  forall w,
    match m w with
    | Ok _ w' => (stages w <= stages w')%nat
    | Thrown what _ =>
        exists k, exceptionAt env = Some (k, what) /\ (stages w <= k)%nat
    | Diverges => True
    end.

(** The run of the nodes of the graph in [doIndex env initialPosition]
    entered in the world [w], for a file that opens and an entry that does
    not throw: the parser node over the blocks that the reader puts. *)
Definition graphRun (env : Environment) (initialPosition : Z) (w : World)
    : Result IndexingState :=
  let file := mkQFile (disk_bytes env) 0 in
  let d := store w in
  let state :=
    mkIndexingState (mkEncodingParameters 1 0) initialPosition 0 0 0
      (file_size_of file) (getEncodingGuess d)
      (orElse (getForcedEncoding d) (getEncodingGuess d)) in
  let file := seek file (pos state) in
  let '(blocks, _, npolls) :=
    readLoop (length (contents file)) env file (polls w) in
  parseBlocks env state (blocks ++ [lastBlock])
    (mkWorld (store w) (oplog w) (events w) npolls (S (stages w))).

(** The world in which an indexing operation that finds [d] in the store
    enters [doIndex], and the position it hands over, when nothing has been
    thrown before: a full index has cleared the store and set the forced
    encoding (the stages 0 and 1), a partial index has only read the indexed
    size. *)
Definition doIndexEntry (env : Environment) (op : Operation)
    (d : IndexingData) : World * Z :=
  match op with
  | FullIndex forcedEncoding =>
      (mkWorld (forceEncoding forcedEncoding (clear env d))
         [OpClear; OpForceEncoding forcedEncoding] [indexingProgressed 0] 0 2,
       0)
  | _ => (mkWorld d [] [indexingProgressed 0] 0 0, getIndexedSize d)
  end.

(** The exception of the environment is thrown by a node of the graph of
    [doIndex]: the operation is a full or a partial index, the file opens,
    and the parser node leaves by the exception. *)
Definition graph_throws (env : Environment) (op : Operation)
    (d : IndexingData) : bool :=
  match op with
  | CheckFileChanges => false
  | _ =>
      disk_readable env &&
      match graphRun env (snd (doIndexEntry env op d))
              (fst (doIndexEntry env op d)) with
      | Thrown _ _ => true
      | _ => false
      end
  end.




(** The signal that carries the result of an operation to its listeners. *)
Definition finished_event (result : OperationResult) : Event :=
  match result with
  | ResultBool b => indexingFinished b
  | ResultStatus s => fileCheckFinished s
  end.

(** The codec that [guessEncoding] settles on in a partial index that finds
    [d] in the store: the forced one, or else the guess kept in the store, or
    else the one detected on the first block read behind the indexed part. *)
Definition continuedCodec (env : Environment) (d : IndexingData) : QTextCodec :=
  match orElse (getForcedEncoding d) (getEncodingGuess d) with
  | Some codec => codec
  | None =>
      detectEncoding env
        (firstn blockSize
           (skipn (Z.to_nat (getIndexedSize d)) (disk_bytes env)))
  end.

(** The bytes of the file from the position [n0] to the position [n]. *)
Definition appended (env : Environment) (n0 n : Z) : list byte :=
  firstn (Z.to_nat (n - n0)) (skipn (Z.to_nat n0) (disk_bytes env)).

(** What holds between two blocks of a partial index that found [d] in the
    store, once the bytes before the position [n] have been parsed. *)
Definition continued_upto (env : Environment) (d : IndexingData) (n : Z)
    (state : IndexingState) (w : World) : Prop :=
  let n0 := getIndexedSize d in
  let new := lf_offsets (appended env n0 n) n0 in
  file_size state = Z.of_nat (length (disk_bytes env)) /\
  pos state = last new n0 /\
  getIndexedSize (store w) = n /\
  offsets (linePosition_ (store w)) = offsets (linePosition_ d) ++ new /\
  fakeFinalLF (linePosition_ (store w))
  = match new with [] => fakeFinalLF (linePosition_ d) | _ :: _ => false end /\
  ~ In linesTooLong (events w) /\
  useFastModificationDetection_ (store w) = useFastModificationDetection_ d /\
  hashBuilder_ (store w)
  = (if useFastModificationDetection_ d then hashBuilder_ d
     else hashBuilder_ d ++ appended env n0 n) /\
  fullDigest (hash_ (store w))
  = (if useFastModificationDetection_ d || (n =? n0)
     then fullDigest (hash_ d)
     else xxhash env (hashBuilder_ d ++ appended env n0 n)) /\
  maxLength_ d <= maxLength_ (store w)
  <= Z.max (maxLength_ d) LineLength_max /\
  getForcedEncoding (store w) = getForcedEncoding d /\
  ((n = n0 /\
    fileTextCodec state = orElse (getForcedEncoding d) (getEncodingGuess d) /\
    encodingGuess state = getEncodingGuess d /\
    getEncodingGuess (store w) = getEncodingGuess d)
   \/ (n0 < n /\ fileTextCodec state = Some (continuedCodec env d))).

(** The environment [env] once the file holds [bytes]. *)
Definition withBytes (env : Environment) (bytes : list byte) : Environment :=
  mkEnvironment bytes (disk_readable env) (fastModificationDetection env)
    (codecForLocale env) (detectEncoding env) (encodingParametersOf env)
    (xxhash env) (interruptSetAt env) (exceptionAt env).

(** Every codec of the environment has a line feed of one byte. *)
Definition single_byte_env (env : Environment) : Prop :=
  forall codec,
    wf_params (encodingParametersOf env codec) /\
    lineFeedWidth (encodingParametersOf env codec) = 1.

(** An environment all of whose codecs have a line feed of one byte: a
    readable file with the bytes [bytes], and the length of the bytes as
    their digest. *)
Definition singleByteEnv (bytes : list byte) : Environment :=
  mkEnvironment bytes true false "UTF-8"%string
    (fun _ => "ISO-8859-1"%string) (fun _ => mkEncodingParameters 1 0)
    (fun l => Z.of_nat (length l)) None None.

(** [m] does not look at the interrupt flag. *)
Definition quiet_polls {A : Type} (m : M A) : Prop :=
  forall w,
    match m w with
    | Ok _ w' => polls w' = polls w
    | Thrown _ w' => polls w' = polls w
    | Diverges => True
    end.

(** The number of polls of the interrupt flag that the reader of a partial
    index from the position [n0] makes. *)
Definition readerPollsFrom (env : Environment) (n0 : Z) : nat :=
  let '(_, _, npolls) :=
    readLoop (length (disk_bytes env)) env
      (seek (mkQFile (disk_bytes env) 0) n0) 0 in
  npolls.

(** * Properties *)

Lemma byte_eqb_true_iff (a b : byte) : Byte.eqb a b = true <-> a = b.
Proof.
  split; [apply Byte.byte_dec_bl | apply Byte.byte_dec_lb].
Qed.

Lemma byte_eqb_false_iff (a b : byte) : Byte.eqb a b = false <-> a <> b.
Proof.
  split.
  - apply Byte.eqb_false.
  - intros H. destruct (Byte.eqb a b) eqn:E; [|reflexivity].
    apply byte_eqb_true_iff in E. contradiction.
Qed.

Lemma find_at_spec (l : list byte) (c : byte) :
  forall idx,
    match find_at l c idx with
    | Some n =>
        (idx <= n < idx + length l)%nat /\ nth (n - idx) l NUL = c /\
        forall m, (idx <= m < n)%nat -> nth (m - idx) l NUL <> c
    | None => forall m, (m < length l)%nat -> nth m l NUL <> c
    end.
Proof.
  induction l as [|b rest IH]; intros idx; simpl.
  - intros m Hm. lia.
  - destruct (Byte.eqb b c) eqn:E.
    + apply byte_eqb_true_iff in E. split; [lia|]. split.
      * now rewrite Nat.sub_diag.
      * intros m Hm. lia.
    + apply byte_eqb_false_iff in E. specialize (IH (S idx)).
      destruct (find_at rest c (S idx)) as [n|].
      * destruct IH as (Hn & Hc & Hbefore). split; [lia|]. split.
        -- replace (n - idx)%nat with (S (n - S idx)) by lia. exact Hc.
        -- intros m Hm. destruct (Nat.eq_dec m idx) as [->|Hne].
           ++ now rewrite Nat.sub_diag.
           ++ replace (m - idx)%nat with (S (m - S idx)) by lia.
              apply Hbefore. lia.
      * intros [|m] Hm; [exact E|]. apply IH. lia.
Qed.

Lemma nth_skipn_add (l : list byte) (from k : nat) :
  nth k (skipn from l) NUL = nth (from + k) l NUL.
Proof.
  revert l. induction from as [|from IH]; intros l; simpl.
  - reflexivity.
  - destruct l as [|b rest]; simpl.
    + now destruct k.
    + apply IH.
Qed.

Lemma sv_find_spec (data : list byte) (c : byte) (from : nat) :
  first_index data c (fun _ => True) from (sv_find data c from).
Proof.
  unfold sv_find, first_index.
  pose proof (find_at_spec (skipn from data) c from) as H.
  destruct (find_at (skipn from data) c from) as [n|].
  - destruct H as (Hn & Hc & Hbefore).
    rewrite length_skipn in Hn. rewrite nth_skipn_add in Hc.
    unfold sv_at. split; [lia|]. split; [|split; [exact I|]].
    + now replace (from + (n - from))%nat with n in Hc by lia.
    + intros m Hm Hcm _. apply (Hbefore m Hm).
      rewrite nth_skipn_add. now replace (from + (m - from))%nat with m by lia.
  - intros m Hm Hcm _. apply (H (m - from)%nat).
    + rewrite length_skipn. lia.
    + rewrite nth_skipn_add. now replace (from + (m - from))%nat with m by lia.
Qed.

Lemma isNotDelimeter_false_iff (p : EncodingParameters) (data : list byte)
    (n : nat) :
  isNotDelimeter p data n = false <-> neighboursZero p data n.
Proof.
  unfold isNotDelimeter, neighboursZero.
  set (w := Z.to_nat (lineFeedWidth p)).
  destruct (lineFeedIndex p =? 0); simpl.
  - destruct (Nat.ltb_spec (length data) (n + w)) as [Hlt|Hge].
    + split; [discriminate | intros [H _]; lia].
    + split.
      * intros H. split; [lia|]. intros i Hi.
        destruct (Byte.eqb (sv_at data (n + i)) NUL) eqn:E.
        -- now apply byte_eqb_true_iff.
        -- exfalso. apply Bool.not_true_iff_false in H. apply H.
           apply existsb_exists. exists i. split.
           ++ apply in_seq. lia.
           ++ now rewrite E.
      * intros [_ H]. apply Bool.not_true_iff_false. intros Hex.
        apply existsb_exists in Hex. destruct Hex as (i & Hin & Hi).
        apply in_seq in Hin. rewrite H in Hi by lia. discriminate.
  - destruct (Nat.ltb_spec n (w - 1)) as [Hlt|Hge].
    + split; [discriminate | intros [H _]; lia].
    + split.
      * intros H. split; [lia|]. intros i Hi.
        destruct (Byte.eqb (sv_at data (n - i)) NUL) eqn:E.
        -- now apply byte_eqb_true_iff.
        -- exfalso. apply Bool.not_true_iff_false in H. apply H.
           apply existsb_exists. exists i. split.
           ++ apply in_seq. lia.
           ++ now rewrite E.
      * intros [_ H]. apply Bool.not_true_iff_false. intros Hex.
        apply existsb_exists in Hex. destruct Hex as (i & Hin & Hi).
        apply in_seq in Hin. rewrite H in Hi by lia. discriminate.
Qed.

Lemma skipRejected_spec (p : EncodingParameters) (data : list byte) (c : byte) :
  forall fuel from,
    (length data <= fuel + from)%nat ->
    first_index data c (fun n => isNotDelimeter p data n = false) from
      (skipRejected fuel p data c (sv_find data c from)).
Proof.
  induction fuel as [|fuel IH]; intros from Hfuel.
  - pose proof (sv_find_spec data c from) as Hf.
    destruct (sv_find data c from) as [n|]; simpl.
    + destruct Hf as (Hn & _). lia.
    + intros m Hm Hc _. now apply (Hf m Hm Hc).
  - pose proof (sv_find_spec data c from) as Hf.
    destruct (sv_find data c from) as [n|] eqn:Efind; simpl.
    + destruct Hf as (Hn & Hc & _ & Hbefore).
      destruct (isNotDelimeter p data n) eqn:Erej.
      * specialize (IH (n + 1)%nat ltac:(lia)).
        destruct (skipRejected fuel p data c (sv_find data c (n + 1)))
          as [n'|]; simpl in *.
        -- destruct IH as (Hn' & Hc' & Hok & Hbefore').
           split; [lia|]. split; [assumption|]. split; [assumption|].
           intros m Hm Hcm. destruct (Nat.lt_trichotomy m n) as [Hlt|[->|Hgt]].
           ++ exfalso. now apply (Hbefore m ltac:(lia) Hcm).
           ++ congruence.
           ++ apply Hbefore'; [lia | assumption].
        -- intros m Hm Hcm. destruct (Nat.lt_trichotomy m n) as [Hlt|[->|Hgt]].
           ++ exfalso. now apply (Hbefore m ltac:(lia) Hcm).
           ++ congruence.
           ++ apply IH; [lia | assumption].
      * split; [lia|]. split; [assumption|]. split; [assumption|].
        intros m Hm Hcm. exfalso. now apply (Hbefore m Hm Hcm).
    + intros m Hm Hcm _. now apply (Hf m Hm Hcm).
Qed.

Lemma skipRejected_None (fuel : nat) (p : EncodingParameters)
    (data : list byte) (c : byte) :
  skipRejected fuel p data c None = None.
Proof. now destruct fuel. Qed.

Lemma findNextMultiByteDelimeter_spec (p : EncodingParameters)
    (data : list byte) (c : byte) :
  first_index data c (neighboursZero p data) 0
    (findNextMultiByteDelimeter p data c).
Proof.
  unfold findNextMultiByteDelimeter.
  pose proof (skipRejected_spec p data c (length data) 0 ltac:(lia)) as H.
  destruct (sv_find data c 0) as [n0|] eqn:E.
  - destruct (skipRejected (length data) p data c (Some n0)) as [n|]; simpl in *.
    + destruct H as (Hn & Hc & Hok & Hbefore).
      split; [lia|]. split; [assumption|]. split.
      * now apply isNotDelimeter_false_iff.
      * intros m Hm Hcm Hz. apply (Hbefore m Hm Hcm).
        now apply isNotDelimeter_false_iff.
    + intros m Hm Hcm Hz. apply (H m Hm Hcm). now apply isNotDelimeter_false_iff.
  - rewrite skipRejected_None in H. intros m Hm Hcm Hz. apply (H m Hm Hcm).
    now apply isNotDelimeter_false_iff.
Qed.

Lemma static_cast_int_small (z : Z) :
  -2147483648 <= z < 2147483648 -> static_cast_int z = z.
Proof.
  intros H. unfold static_cast_int. rewrite Z.mod_small; lia.
Qed.

Lemma expandTabsLoop_fuel (lineStart : Z) (p : EncodingParameters)
    (find : FindDelimeter) :
  forall fuel1 fuel2 v acc,
    (length (sv_bytes v) <= fuel1)%nat ->
    (length (sv_bytes v) <= fuel2)%nat ->
    expandTabsLoop fuel1 v lineStart p find acc
    = expandTabsLoop fuel2 v lineStart p find acc.
Proof.
  induction fuel1 as [|fuel1 IH]; intros fuel2 v acc H1 H2.
  - destruct (sv_bytes v) as [|b rest] eqn:Ev; [|rewrite ?Ev in *; simpl in *; lia].
    destruct fuel2; simpl; [reflexivity | now rewrite Ev].
  - destruct fuel2 as [|fuel2].
    + destruct (sv_bytes v) as [|b rest] eqn:Ev.
      * simpl. now rewrite Ev.
      * simpl in H2. lia.
    + simpl. destruct (sv_bytes v) as [|b rest] eqn:Ev; [reflexivity|].
      destruct (find p (b :: rest) TAB) as [nextTab|]; [|reflexivity].
      destruct (Nat.leb_spec (length (b :: rest)) nextTab) as [Hge|Hlt];
        [reflexivity|].
      apply IH; cbn [sv_bytes]; rewrite length_skipn; cbn [length] in *; lia.
Qed.

Lemma expandTabsInLine_no_tab (find : FindDelimeter) (p : EncodingParameters)
    (ptr lineStart acc : Z) (v : list byte) :
  find p v TAB = None ->
  expandTabsInLine (mk_view ptr v) lineStart p find acc = acc.
Proof.
  intros Hfind. unfold expandTabsInLine. simpl.
  destruct v as [|b rest]; simpl; [reflexivity|]. now rewrite Hfind.
Qed.

Lemma expandTabsInLine_tab (find : FindDelimeter) (p : EncodingParameters)
    (ptr lineStart acc : Z) (v : list byte) (nextTab : nat) :
  find p v TAB = Some nextTab ->
  (nextTab < length v)%nat ->
  expandTabsInLine (mk_view ptr v) lineStart p find acc
  = expandTabsInLine
      (mk_view (ptr + Z.of_nat (nextTab + 1)) (skipn (nextTab + 1) v))
      lineStart p find
      (static_cast_int
         (acc + (TabStop
                 - Z.rem (ptr + Z.of_nat nextTab - getBeforeCrOffset p
                          - lineStart + acc) TabStop
                 - 1))).
Proof.
  intros Hfind Hlt. unfold expandTabsInLine. simpl sv_bytes.
  destruct v as [|b rest]; [simpl in Hlt; lia|].
  cbn [expandTabsLoop length sv_bytes sv_ptr]. rewrite Hfind.
  destruct (Nat.leb_spec (S (length rest)) nextTab) as [Hge|_];
    [simpl in Hlt; lia|].
  unfold charOffsetWithinBlock.
  apply expandTabsLoop_fuel; cbn [sv_bytes]; rewrite length_skipn;
    cbn [length] in *; lia.
Qed.

Lemma tabsFoundLoop_fuel (p : EncodingParameters) (find : FindDelimeter) :
  forall fuel1 fuel2 v,
    (length (sv_bytes v) <= fuel1)%nat ->
    (length (sv_bytes v) <= fuel2)%nat ->
    tabsFoundLoop fuel1 find p v = tabsFoundLoop fuel2 find p v.
Proof.
  induction fuel1 as [|fuel1 IH]; intros fuel2 v H1 H2.
  - destruct (sv_bytes v) as [|b rest] eqn:Ev; [|rewrite ?Ev in *; simpl in *; lia].
    destruct fuel2; simpl; [reflexivity | now rewrite Ev].
  - destruct fuel2 as [|fuel2].
    + destruct (sv_bytes v) as [|b rest] eqn:Ev.
      * simpl. now rewrite Ev.
      * simpl in H2. lia.
    + simpl. destruct (sv_bytes v) as [|b rest] eqn:Ev; [reflexivity|].
      destruct (find p (b :: rest) TAB) as [nextTab|]; [|reflexivity].
      destruct (Nat.leb_spec (length (b :: rest)) nextTab) as [Hge|Hlt];
        [reflexivity|].
      f_equal.
      apply IH; cbn [sv_bytes]; rewrite length_skipn; cbn [length] in *; lia.
Qed.

(** The loop of [expandTabsInLine] against the words of the specification,
    as long as no column is negative and the count stays an [int]. *)
Lemma expandTabsLoop_spaces (lineStart : Z) (p : EncodingParameters)
    (find : FindDelimeter) :
  forall fuel v acc,
    Forall (fun t => lineStart <= t) (tabsFoundLoop fuel find p v) ->
    0 <= acc ->
    acc + (TabStop - 1) * Z.of_nat (length (tabsFoundLoop fuel find p v))
    <= LineLength_max ->
    expandTabsLoop fuel v lineStart p find acc
    = spacesAfterTabs (tabsFoundLoop fuel find p v) lineStart acc.
Proof.
  induction fuel as [|fuel IH]; intros v acc Htabs Hacc Hmax; [reflexivity|].
  cbn [expandTabsLoop tabsFoundLoop] in *.
  destruct (sv_bytes v) as [|b rest]; [reflexivity|].
  destruct (find p (b :: rest) TAB) as [nextTab|]; [|reflexivity].
  set (t := charOffsetWithinBlock (sv_ptr v + Z.of_nat nextTab) p) in *.
  cbv zeta in *.
  assert (Hstep :
            lineStart <= t ->
            forall n : nat,
              acc + (TabStop - 1) * Z.of_nat (S n) <= LineLength_max ->
              static_cast_int
                (acc + (TabStop - Z.rem (t - lineStart + acc) TabStop - 1))
              = acc + (TabStop - (t - lineStart + acc) mod TabStop - 1)
              /\ 0 <= acc + (TabStop - (t - lineStart + acc) mod TabStop - 1)
              /\ acc + (TabStop - (t - lineStart + acc) mod TabStop - 1)
                 + (TabStop - 1) * Z.of_nat n <= LineLength_max).
  { intros Ht n Hn.
    rewrite Z.rem_mod_nonneg by (unfold TabStop; lia).
    pose proof (Z.mod_pos_bound (t - lineStart + acc) TabStop
                  ltac:(unfold TabStop; lia)) as Hmod.
    unfold TabStop, LineLength_max in *.
    rewrite static_cast_int_small by lia. lia. }
  destruct (length (b :: rest) <=? nextTab)%nat.
  - inversion Htabs as [|t' l' Ht _]; subst.
    destruct (Hstep Ht 0%nat Hmax) as (-> & _). reflexivity.
  - inversion Htabs as [|t' l' Ht Hrest]; subst.
    cbn [length] in Hmax.
    destruct (Hstep Ht _ Hmax) as (-> & Hacc' & Hmax').
    cbn [spacesAfterTabs]. apply IH; assumption.
Qed.

Lemma tab_positions_none (l : list byte) (base : Z) :
  (forall m, (m < length l)%nat -> nth m l NUL <> TAB) ->
  tab_positions l base = [].
Proof.
  revert base. induction l as [|b rest IH]; intros base H; simpl; [reflexivity|].
  destruct (Byte.eqb b TAB) eqn:E.
  - apply byte_eqb_true_iff in E. exfalso. apply (H 0%nat); simpl; [lia|exact E].
  - apply IH. intros m Hm. apply (H (S m)). simpl. lia.
Qed.

Lemma tab_positions_first (l : list byte) :
  forall (i : nat) (base : Z),
    (i < length l)%nat ->
    nth i l NUL = TAB ->
    (forall m, (m < i)%nat -> nth m l NUL <> TAB) ->
    tab_positions l base
    = (base + Z.of_nat i)
        :: tab_positions (skipn (S i) l) (base + Z.of_nat i + 1).
Proof.
  induction l as [|b rest IH]; intros i base Hi Hc Hbefore; [simpl in Hi; lia|].
  destruct i as [|i].
  - simpl in Hc. subst b. cbn [tab_positions skipn].
    rewrite (proj2 (byte_eqb_true_iff TAB TAB) eq_refl).
    replace (base + Z.of_nat 0) with base by lia. reflexivity.
  - cbn [tab_positions]. destruct (Byte.eqb b TAB) eqn:E.
    + apply byte_eqb_true_iff in E. exfalso.
      apply (Hbefore 0%nat); [lia | exact E].
    + rewrite (IH i (base + 1)).
      * change (skipn (S (S i)) (b :: rest)) with (skipn (S i) rest).
        replace (base + 1 + Z.of_nat i) with (base + Z.of_nat (S i)) by lia.
        reflexivity.
      * simpl in Hi. lia.
      * exact Hc.
      * intros m Hm. apply (Hbefore (S m)). lia.
Qed.

(** The single-byte scanner finds every TAB byte of the view. *)
Lemma tabsFound_single_byte (p : EncodingParameters) :
  forall fuel v,
    (length (sv_bytes v) <= fuel)%nat ->
    tabsFoundLoop fuel findNextSingleByteDelimeter p v
    = tab_positions (sv_bytes v) (charOffsetWithinBlock (sv_ptr v) p).
Proof.
  induction fuel as [|fuel IH]; intros [ptr bytes] Hlen; cbn [sv_bytes sv_ptr] in *.
  - destruct bytes; [reflexivity | simpl in Hlen; lia].
  - cbn [tabsFoundLoop sv_bytes sv_ptr].
    destruct bytes as [|b rest]; [reflexivity|].
    set (bytes := b :: rest) in *.
    unfold findNextSingleByteDelimeter, charOffsetWithinBlock.
    pose proof (sv_find_spec bytes TAB 0) as Hs. unfold first_index in Hs.
    destruct (sv_find bytes TAB 0) as [i|].
    + destruct Hs as (Hi & Hc & _ & Hbefore). unfold sv_at in Hc.
      destruct (Nat.leb_spec (length bytes) i) as [Hge|_]; [lia|].
      rewrite (tab_positions_first bytes i (ptr - getBeforeCrOffset p)
                 ltac:(lia) Hc)
        by (intros m Hm Hcm; apply (Hbefore m ltac:(lia) Hcm); exact I).
      f_equal; [lia|].
      rewrite IH by (cbn [sv_bytes]; rewrite length_skipn; lia).
      cbn [sv_bytes sv_ptr]. unfold charOffsetWithinBlock.
      rewrite Nat.add_1_r. f_equal. lia.
    + rewrite tab_positions_none; [reflexivity|].
      intros m Hm Hcm. apply (Hs m ltac:(lia) Hcm). exact I.
Qed.

Lemma same_setup_refl s : same_setup s s.
Proof. now repeat split. Qed.

Lemma same_setup_trans s1 s2 s3 :
  same_setup s1 s2 -> same_setup s2 s3 -> same_setup s1 s3.
Proof.
  unfold same_setup. intros (A1 & A2 & A3 & A4) (B1 & B2 & B3 & B4).
  repeat split; congruence.
Qed.

Lemma view_of_rest (block : list byte) (k : Z) :
  0 <= k ->
  firstn (Z.to_nat (Z.of_nat (length block) - k)) (skipn (Z.to_nat k) block)
  = skipn (Z.to_nat k) block.
Proof.
  intros Hk. apply firstn_all2. rewrite length_skipn. lia.
Qed.

Section ParseRound.

Variable find : FindDelimeter.
Variable blockBeginning : Z.
Variable block : list byte.
Variable state : IndexingState.
Variable lp : LinePositionArray.

Hypothesis Hsize : Z.of_nat (length block) < 2147483648.
Hypothesis Hbco : 0 <= getBeforeCrOffset (encodingParams state) <= 3.

Lemma parseLoop_out_of_block (fuel : nat) :
  pos state > blockBeginning + Z.of_nat (length block) ->
  parseLoop (S fuel) find blockBeginning block state lp = Some (lp, state).
Proof.
  set (sz := Z.of_nat (length block)) in *.
  intros H. cbn [parseLoop]. fold sz.
  destruct (Z.gtb_spec (pos state) (blockBeginning + sz)); [reflexivity | lia].
Qed.

Lemma parseLoop_at_end (fuel : nat) :
  pos state <= blockBeginning + Z.of_nat (length block) ->
  Z.max 0 (pos state - blockBeginning) = Z.of_nat (length block) ->
  exists state',
    parseLoop (S fuel) find blockBeginning block state lp = Some (lp, state')
    /\ same_setup state state' /\ pos state' = pos state.
Proof.
  set (sz := Z.of_nat (length block)) in *.
  set (k := Z.max 0 (pos state - blockBeginning)).
  intros Hin Hk. cbn [parseLoop]. fold sz.
  destruct (Z.gtb_spec (pos state) (blockBeginning + sz)); [lia|].
  assert (Hraw : (if pos state >=? blockBeginning
                  then pos state - blockBeginning else 0) = k).
  { subst k. destruct (Z.geb_spec (pos state) blockBeginning); lia. }
  rewrite Hraw, static_cast_int_small by (subst k sz; lia).
  rewrite Hk, Z.eqb_refl. cbn.
  eexists. split; [reflexivity|]. now repeat split.
Qed.

Lemma parseLoop_no_line_feed (fuel : nat) :
  pos state <= blockBeginning + Z.of_nat (length block) ->
  Z.max 0 (pos state - blockBeginning) < Z.of_nat (length block) ->
  find (encodingParams state)
    (skipn (Z.to_nat (Z.max 0 (pos state - blockBeginning))) block) LF = None ->
  exists state',
    parseLoop (S fuel) find blockBeginning block state lp = Some (lp, state')
    /\ same_setup state state' /\ pos state' = pos state.
Proof.
  set (sz := Z.of_nat (length block)) in *.
  set (k := Z.max 0 (pos state - blockBeginning)).
  set (p := encodingParams state) in *.
  intros Hin Hk Hfind. cbn [parseLoop]. fold sz.
  destruct (Z.gtb_spec (pos state) (blockBeginning + sz)); [lia|].
  assert (Hraw : (if pos state >=? blockBeginning
                  then pos state - blockBeginning else 0) = k).
  { subst k. destruct (Z.geb_spec (pos state) blockBeginning); lia. }
  rewrite Hraw, static_cast_int_small by (subst k sz; lia).
  destruct (Z.eqb_spec k sz); [lia|]. cbn [negb].
  unfold findNextLineFeed, sz.
  rewrite view_of_rest by (subst k; lia). fold sz. fold p. rewrite Hfind. cbn.
  eexists. split; [reflexivity|]. now repeat split.
Qed.

Lemma parseLoop_line_feed (fuel : nat) (i : nat) :
  pos state <= blockBeginning + Z.of_nat (length block) ->
  Z.max 0 (pos state - blockBeginning) < Z.of_nat (length block) ->
  find (encodingParams state)
    (skipn (Z.to_nat (Z.max 0 (pos state - blockBeginning))) block) LF
  = Some i ->
  (i < length (skipn (Z.to_nat (Z.max 0 (pos state - blockBeginning))) block))%nat ->
  exists state1,
    same_setup state state1 /\
    pos state1
    = blockBeginning + Z.max 0 (pos state - blockBeginning) + Z.of_nat i
      - getBeforeCrOffset (encodingParams state)
      + lineFeedWidth (encodingParams state) /\
    parseLoop (S fuel) find blockBeginning block state lp
    = parseLoop fuel find blockBeginning block state1
        (lpa_append lp (pos state1)).
Proof.
  set (sz := Z.of_nat (length block)) in *.
  set (k := Z.max 0 (pos state - blockBeginning)).
  set (p := encodingParams state) in *.
  intros Hin Hk Hfind Hi. cbn [parseLoop]. fold sz.
  destruct (Z.gtb_spec (pos state) (blockBeginning + sz)); [lia|].
  assert (Hraw : (if pos state >=? blockBeginning
                  then pos state - blockBeginning else 0) = k).
  { subst k. destruct (Z.geb_spec (pos state) blockBeginning); lia. }
  rewrite Hraw, static_cast_int_small by (subst k sz; lia).
  destruct (Z.eqb_spec k sz); [lia|]. cbn [negb].
  unfold findNextLineFeed, sz.
  rewrite view_of_rest by (subst k; lia). fold sz. fold p. rewrite Hfind.
  unfold charOffsetWithinBlock.
  rewrite length_skipn in Hi.
  rewrite static_cast_int_small by (fold p; subst k sz; lia).
  cbn [negb].
  eexists. split; [|split; [|reflexivity]].
  - now repeat split.
  - cbn. fold p. lia.
Qed.

End ParseRound.

Lemma chain_weaken lo lo' xs : lo' <= lo -> chain lo xs -> chain lo' xs.
Proof. destruct xs; simpl; [trivial|]. intros H [H1 H2]. split; [lia|trivial]. Qed.

Lemma last_cons_default (x : Z) (l : list Z) (d : Z) :
  last (x :: l) d = last l x.
Proof.
  revert x d. induction l as [|y rest IH]; intros x d; [reflexivity|].
  change (last (x :: y :: rest) d) with (last (y :: rest) d).
  now rewrite !IH.
Qed.

Lemma chain_last_le lo xs : chain lo xs -> lo <= last xs lo.
Proof.
  revert lo. induction xs as [|x rest IH]; intros lo; [simpl; lia|].
  intros [H1 H2]. rewrite last_cons_default. specialize (IH x H2). lia.
Qed.

Lemma chain_app lo xs ys :
  chain lo xs -> chain (last xs lo) ys -> chain lo (xs ++ ys).
Proof.
  revert lo. induction xs as [|x rest IH]; intros lo; simpl app.
  - simpl. trivial.
  - intros [H1 H2] H3. split; [exact H1|]. apply IH; [exact H2|].
    now rewrite last_cons_default in H3.
Qed.

Lemma chosenScanner_advance (p : EncodingParameters) (view : list byte)
    (c : byte) (i : nat) :
  wf_params p ->
  chosenScanner p p view c = Some i ->
  (i < length view)%nat /\
  0 <= Z.of_nat i - getBeforeCrOffset p /\
  Z.of_nat i - getBeforeCrOffset p + lineFeedWidth p <= Z.of_nat (length view).
Proof.
  intros [Hw Hidx] Hfind. unfold chosenScanner, getBeforeCrOffset in *.
  destruct (Z.eqb_spec (lineFeedWidth p) 1) as [H1|H1].
  - unfold findNextSingleByteDelimeter in Hfind.
    pose proof (sv_find_spec view c 0) as Hs. rewrite Hfind in Hs.
    destruct Hs as (Hi & _). lia.
  - pose proof (findNextMultiByteDelimeter_spec p view c) as Hs.
    rewrite Hfind in Hs. destruct Hs as (Hi & _ & Hz & _).
    unfold neighboursZero in Hz.
    destruct (Z.eqb_spec (lineFeedIndex p) 0) as [H0|H0].
    + destruct Hz as [Hz _]. lia.
    + destruct Hz as [Hz _]. lia.
Qed.

Lemma lf_offsets_none (l : list byte) (base : Z) :
  (forall m, (m < length l)%nat -> nth m l NUL <> LF) ->
  lf_offsets l base = [].
Proof.
  revert base. induction l as [|b rest IH]; intros base H; simpl; [reflexivity|].
  destruct (Byte.eqb b LF) eqn:E.
  - apply byte_eqb_true_iff in E. exfalso. apply (H 0%nat); simpl; [lia|exact E].
  - apply IH. intros m Hm. apply (H (S m)). simpl. lia.
Qed.

Lemma lf_offsets_first (l : list byte) :
  forall (i : nat) (base : Z),
    (i < length l)%nat ->
    nth i l NUL = LF ->
    (forall m, (m < i)%nat -> nth m l NUL <> LF) ->
    lf_offsets l base
    = (base + Z.of_nat i + 1)
        :: lf_offsets (skipn (S i) l) (base + Z.of_nat i + 1).
Proof.
  induction l as [|b rest IH]; intros i base Hi Hc Hbefore; [simpl in Hi; lia|].
  destruct i as [|i].
  - simpl in Hc. subst b. cbn [lf_offsets skipn].
    rewrite (proj2 (byte_eqb_true_iff LF LF) eq_refl).
    replace (base + Z.of_nat 0 + 1) with (base + 1) by lia. reflexivity.
  - cbn [lf_offsets]. destruct (Byte.eqb b LF) eqn:E.
    + apply byte_eqb_true_iff in E. exfalso.
      apply (Hbefore 0%nat); [lia | exact E].
    + rewrite (IH i (base + 1)).
      * change (skipn (S (S i)) (b :: rest)) with (skipn (S i) rest).
        replace (base + 1 + Z.of_nat i + 1) with (base + Z.of_nat (S i) + 1)
          by lia.
        reflexivity.
      * simpl in Hi. lia.
      * exact Hc.
      * intros m Hm. apply (Hbefore (S m)). lia.
Qed.

Section ParseLoop.

Variable blockBeginning : Z.
Variable block : list byte.

Hypothesis Hsize : Z.of_nat (length block) < 2147483648.

Lemma parseLoop_result :
  forall fuel state lp,
    wf_params (encodingParams state) ->
    (Z.to_nat (blockBeginning + Z.of_nat (length block)
               - Z.max (pos state) blockBeginning) < fuel)%nat ->
    exists new state',
      parseLoop fuel (chosenScanner (encodingParams state)) blockBeginning
        block state lp
      = Some (mkLinePositionArray (offsets lp ++ new)
                (match new with [] => fakeFinalLF lp | _ :: _ => false end),
              state')
      /\ same_setup state state'
      /\ chain (Z.max (pos state) blockBeginning) new
      /\ pos state' = last new (pos state)
      /\ (pos state <= blockBeginning + Z.of_nat (length block) ->
          pos state' <= blockBeginning + Z.of_nat (length block) /\
          (lineFeedWidth (encodingParams state) = 1 ->
           new = lf_offsets
                   (skipn (Z.to_nat (Z.max 0 (pos state - blockBeginning))) block)
                   (blockBeginning + Z.max 0 (pos state - blockBeginning)))).
Proof.
  set (sz := Z.of_nat (length block)) in *.
  induction fuel as [|fuel IH]; intros state lp Hwf Hfuel; [lia|].
  assert (Hbco : 0 <= getBeforeCrOffset (encodingParams state) <= 3).
  { destruct Hwf as [Hw Hi]. unfold getBeforeCrOffset. lia. }
  set (p := encodingParams state) in *.
  set (k := Z.max 0 (pos state - blockBeginning)).
  destruct (Z_gt_le_dec (pos state) (blockBeginning + sz)) as [Hout|Hin].
  { exists [], state. rewrite app_nil_r.
    rewrite (parseLoop_out_of_block _ _ _ _ _ fuel Hout).
    destruct lp as [o f]. simpl.
    split; [reflexivity|]. split; [apply same_setup_refl|].
    split; [exact I|]. split; [reflexivity|]. intros; lia. }
  destruct (Z.eq_dec k sz) as [Hend|Hnend].
  { destruct (parseLoop_at_end (chosenScanner p) blockBeginning block state lp
                Hsize fuel Hin Hend) as (state' & Hrun & Hsame & Hpos).
    exists [], state'. rewrite app_nil_r. rewrite Hrun.
    destruct lp as [o f]. simpl.
    split; [reflexivity|]. split; [exact Hsame|].
    split; [exact I|]. split; [exact Hpos|]. intros _. split; [lia|].
    intros _. fold k. rewrite Hend. unfold sz. rewrite Nat2Z.id.
    now rewrite skipn_all. }
  assert (Hk : k < sz) by (subst k sz; lia).
  destruct (chosenScanner p p (skipn (Z.to_nat k) block) LF) as [i|] eqn:Hfind.
  - destruct (chosenScanner_advance p _ _ _ Hwf Hfind) as (Hi & Hlo & Hhi).
    destruct (parseLoop_line_feed (chosenScanner p) blockBeginning block state
                lp Hsize Hbco fuel i Hin Hk Hfind Hi)
      as (state1 & Hsame1 & Hpos1 & Hrun).
    fold p in Hpos1. fold k in Hpos1.
    assert (Hlen : Z.of_nat (length (skipn (Z.to_nat k) block)) = sz - k).
    { rewrite length_skipn. subst sz k. lia. }
    assert (Hp1 : encodingParams state1 = p) by apply Hsame1.
    destruct (IH state1 (lpa_append lp (pos state1))) as
      (new1 & state' & Hrun1 & Hsame' & Hchain & Hlast & Hin1).
    { now rewrite Hp1. }
    { destruct Hwf as [Hw _]. fold p in Hw. subst k. lia. }
    rewrite Hp1 in Hrun1.
    exists (pos state1 :: new1), state'. rewrite Hrun, Hrun1.
    cbn [lpa_append offsets fakeFinalLF].
    rewrite <- app_assoc. cbn [app].
    split; [now destruct new1|].
    split; [eapply same_setup_trans; eassumption|].
    split.
    { cbn [chain]. destruct Hwf as [Hw _]. fold p in Hw. split; [subst k; lia|].
      eapply chain_weaken; [|exact Hchain]. lia. }
    split; [now rewrite last_cons_default|].
    intros _. destruct Hin1 as [Hle Hexact]; [lia|]. split; [exact Hle|].
    intros Hw1. rewrite Hp1 in Hexact. specialize (Hexact Hw1).
    unfold chosenScanner in Hfind. rewrite Hw1, Z.eqb_refl in Hfind.
    unfold findNextSingleByteDelimeter in Hfind.
    pose proof (sv_find_spec (skipn (Z.to_nat k) block) LF 0) as Hs.
    rewrite Hfind in Hs. destruct Hs as (_ & Hc & _ & Hbefore).
    assert (Hb0 : getBeforeCrOffset p = 0).
    { destruct Hwf as [_ Hidx]. fold p in Hidx. unfold getBeforeCrOffset. lia. }
    rewrite (lf_offsets_first _ i (blockBeginning + k) Hi Hc).
    2:{ intros m Hm Hcm. apply (Hbefore m); [lia | exact Hcm | exact I]. }
    rewrite Hpos1, Hb0, Hw1.
    replace (blockBeginning + k + Z.of_nat i - 0 + 1)
      with (blockBeginning + k + Z.of_nat i + 1) by lia.
    f_equal. rewrite Hexact, Hpos1, Hb0, Hw1.
    replace (Z.max 0 (blockBeginning + k + Z.of_nat i - 0 + 1 - blockBeginning))
      with (k + Z.of_nat i + 1) by lia.
    rewrite skipn_skipn.
    replace (Z.to_nat (k + Z.of_nat i + 1)) with (S i + Z.to_nat k)%nat by lia.
    f_equal. lia.
  - destruct (parseLoop_no_line_feed (chosenScanner p) blockBeginning block
                state lp Hsize fuel Hin Hk Hfind)
      as (state' & Hrun & Hsame & Hpos).
    exists [], state'. rewrite app_nil_r. rewrite Hrun.
    destruct lp as [o f]. simpl.
    split; [reflexivity|]. split; [exact Hsame|].
    split; [exact I|]. split; [exact Hpos|]. intros _. split; [lia|].
    intros Hw1. fold k. symmetry. apply lf_offsets_none.
    unfold chosenScanner in Hfind. fold p in Hw1.
    rewrite Hw1, Z.eqb_refl in Hfind.
    unfold findNextSingleByteDelimeter in Hfind.
    pose proof (sv_find_spec (skipn (Z.to_nat k) block) LF 0) as Hs.
    rewrite Hfind in Hs. intros m Hm Hcm. apply (Hs m); [lia | exact Hcm | exact I].
Qed.

End ParseLoop.

Lemma parseDataBlock_result (blockBeginning : Z) (block : list byte)
    (state : IndexingState) :
  Z.of_nat (length block) < 2147483648 ->
  wf_params (encodingParams state) ->
  pos state <= blockBeginning + Z.of_nat (length block) ->
  exists new state',
    parseDataBlock blockBeginning block state
    = Some (mkLinePositionArray new false, state')
    /\ same_setup state state'
    /\ chain (Z.max (pos state) blockBeginning) new
    /\ pos state' = last new (pos state)
    /\ pos state' <= blockBeginning + Z.of_nat (length block)
    /\ (lineFeedWidth (encodingParams state) = 1 ->
        new = lf_offsets
                (skipn (Z.to_nat (Z.max 0 (pos state - blockBeginning))) block)
                (blockBeginning + Z.max 0 (pos state - blockBeginning))).
Proof.
  intros Hsize Hwf Hin.
  destruct (parseLoop_result blockBeginning block Hsize (S (length block))
              state emptyLinePositionArray Hwf ltac:(lia))
    as (new & state' & Hrun & Hsame & Hchain & Hlast & Hrest).
  exists new, state'.
  change (parseDataBlock blockBeginning block state)
    with (parseLoop (S (length block)) (chosenScanner (encodingParams state))
            blockBeginning block state emptyLinePositionArray).
  rewrite Hrun. cbn [offsets emptyLinePositionArray fakeFinalLF app].
  destruct (Hrest Hin) as [Hle Hexact].
  split; [now destruct new|]. tauto.
Qed.

Lemma blockSize_eq : Z.to_nat IndexingBlockSize = blockSize.
Proof. unfold blockSize. reflexivity. Qed.

Lemma blockSize_Z : Z.of_nat blockSize = IndexingBlockSize.
Proof. unfold blockSize. apply Z2Nat.id. unfold IndexingBlockSize. lia. Qed.

Lemma blockSize_pos : (0 < blockSize)%nat.
Proof.
  apply Nat2Z.inj_lt. rewrite blockSize_Z. unfold IndexingBlockSize. simpl. lia.
Qed.

Lemma blockSize_small : Z.of_nat blockSize < 2147483648.
Proof. rewrite blockSize_Z. unfold IndexingBlockSize. lia. Qed.

Lemma read_block (file : QFile) :
  read file IndexingBlockSize
  = (Z.of_nat (length (firstn blockSize (skipn (Z.to_nat (fpos file)) (contents file)))),
     firstn blockSize (skipn (Z.to_nat (fpos file)) (contents file)),
     mkQFile (contents file)
       (fpos file
        + Z.of_nat (length (firstn blockSize
                              (skipn (Z.to_nat (fpos file)) (contents file)))))).
Proof.
  unfold read. change (IndexingBlockSize <? 0) with false. cbv iota.
  rewrite blockSize_eq. reflexivity.
Qed.

#[global] Opaque blockSize.

Lemma readLoop_contiguous (env : Environment) :
  forall fuel file npolls blocks file' npolls',
    readLoop fuel env file npolls = (blocks, file', npolls') ->
    0 <= fpos file ->
    contents file' = contents file /\
    contiguous (contents file) (fpos file) blocks (fpos file') /\
    fpos file <= fpos file' /\
    (fpos file <= file_size_of file -> fpos file' <= file_size_of file) /\
    (interruptSetAt env = None ->
     (length (contents file) <= fuel + Z.to_nat (fpos file))%nat ->
     file_size_of file <= fpos file').
Proof.
  induction fuel as [|fuel IH]; intros file npolls blocks file' npolls' Hrun Hpos.
  - simpl in Hrun. inversion Hrun; subst. unfold file_size_of.
    repeat split; try reflexivity; try lia.
  - cbn [readLoop] in Hrun.
    destruct (atEnd file) eqn:Eend.
    { inversion Hrun; subst. unfold atEnd in Eend. apply Z.leb_le in Eend.
      repeat split; try reflexivity; try lia. }
    destruct (interruptRequest_ env npolls) eqn:Eirq.
    { inversion Hrun; subst. unfold interruptRequest_ in Eirq.
      repeat split; try reflexivity; try lia.
      intros Hnone. rewrite Hnone in Eirq. discriminate. }
    rewrite read_block in Hrun.
    set (data := firstn blockSize (skipn (Z.to_nat (fpos file)) (contents file))) in *.
    destruct (Z.ltb_spec (Z.of_nat (length data)) 0) as [Hneg|_]; [lia|].
    destruct (readLoop fuel env
                (mkQFile (contents file) (fpos file + Z.of_nat (length data)))
                (S npolls)) as [[blocks1 file1] npolls1] eqn:Erec.
    inversion Hrun; subst blocks file' npolls'. clear Hrun.
    apply IH in Erec; [|cbn; lia]. cbn [contents fpos] in Erec.
    destruct Erec as (Hc & Hcont & Hle & Hin & Hall).
    unfold atEnd in Eend. apply Z.leb_gt in Eend. unfold file_size_of in *.
    assert (Hlen : (0 < length data)%nat).
    { subst data. rewrite length_firstn, length_skipn.
      pose proof blockSize_pos. lia. }
    assert (Hlen2 : Z.of_nat (length data)
                    <= Z.of_nat (length (contents file)) - fpos file).
    { subst data. rewrite length_firstn, length_skipn. lia. }
    split; [exact Hc|]. split.
    { cbn [contiguous]. split; [reflexivity|]. split.
      - intros Hnil. rewrite Hnil in Hlen. simpl in Hlen. lia.
      - split; [reflexivity | exact Hcont]. }
    split; [lia|]. split; [intros _; apply Hin; cbn; lia|].
    intros Hnone Hfuel. apply Hall; [exact Hnone|]. lia.
Qed.

(** ** Running without an exception *)

Lemma checkpoint_ok (env : Environment) (w : World) :
  exceptionAt env = None ->
  checkpoint env w
  = Ok tt (mkWorld (store w) (oplog w) (events w) (polls w) (S (stages w))).
Proof. intros H. unfold checkpoint. now rewrite H. Qed.

Lemma mutate_ok (env : Environment) (op : StoreOp) (w : World) :
  exceptionAt env = None ->
  mutate env op w
  = Ok tt (mkWorld (applyOp env op (store w)) (oplog w ++ [op]) (events w)
             (polls w) (S (stages w))).
Proof. intros H. unfold mutate, bind. now rewrite checkpoint_ok. Qed.

Lemma poll_quiet (env : Environment) (w : World) :
  interruptSetAt env = None ->
  poll env w
  = Ok false (mkWorld (store w) (oplog w) (events w) (S (polls w)) (stages w)).
Proof. intros H. unfold poll, interruptRequest_. now rewrite H. Qed.

Lemma indexNextBlock_block (env : Environment) (state : IndexingState)
    (blockBeginning : Z) (block : list byte) (w : World)
    (lp : LinePositionArray) (state' : IndexingState) :
  exceptionAt env = None ->
  0 <= blockBeginning ->
  block <> [] ->
  parseDataBlock blockBeginning block
    (guessEncoding env block (store w) state) = Some (lp, state') ->
  exists w',
    indexNextBlock env state (blockBeginning, block) w = Ok state' w' /\
    store w'
    = setProgress (progress_ (store w'))
        (addAll env block (clampLength (max_length state')) lp
           (encodingGuess state') (store w)) /\
    polls w' = polls w /\
    (exists ops,
        oplog w'
        = oplog w
          ++ OpAddAll block (clampLength (max_length state')) lp
               (encodingGuess state') :: ops
        /\ (ops = [] \/ exists pr, ops = [OpSetProgress pr])) /\
    (forall ev, In ev (events w') ->
                In ev (events w) \/ exists pr, ev = indexingProgressed pr).
Proof.
  intros Hexc Hbb Hne Hparse. unfold indexNextBlock.
  destruct (Z.ltb_spec blockBeginning 0) as [Hneg|_]; [lia|].
  unfold bind, getStore, ret, emit.
  rewrite checkpoint_ok by exact Hexc. cbv beta iota. cbn [store].
  destruct block as [|b rest]; [congruence|].
  rewrite Hparse. cbv beta iota.
  rewrite mutate_ok by exact Hexc. cbv beta iota.
  cbn [store oplog events polls stages applyOp].
  fold (clampLength (max_length state')).
  set (progress := if file_size state' >? 0
                   then calculateProgress (pos state') (file_size state')
                   else 100).
  set (d1 := addAll env (b :: rest) (clampLength (max_length state')) lp
               (encodingGuess state') (store w)).
  destruct (negb (progress =? getProgress d1)) eqn:Eprog.
  - rewrite mutate_ok by exact Hexc. cbv beta iota.
    cbn [store oplog events polls stages applyOp].
    eexists. split; [reflexivity|]. cbn [store oplog events polls stages].
    split; [reflexivity|]. split; [reflexivity|]. split.
    + eexists. rewrite <- app_assoc. split; [reflexivity|]. right. now eexists.
    + intros ev Hin. apply in_app_or in Hin. destruct Hin as [Hin|[<-|[]]].
      * now left.
      * right. now eexists.
  - eexists. split; [reflexivity|].
    cbn [store oplog events polls stages].
    split; [now destruct d1|]. split; [reflexivity|]. split.
    + eexists. split; [reflexivity|]. now left.
    + intros ev Hin. now left.
Qed.

Lemma indexNextBlock_lastBlock (env : Environment) (state : IndexingState)
    (w : World) :
  indexNextBlock env state lastBlock w = Ok state w.
Proof. reflexivity. Qed.

Lemma last_app_default (xs ys : list Z) (d : Z) :
  last (xs ++ ys) d = last ys (last xs d).
Proof.
  revert d. induction xs as [|x rest IH]; intros d; [reflexivity|].
  change ((x :: rest) ++ ys) with (x :: (rest ++ ys)).
  now rewrite !last_cons_default, IH.
Qed.

Lemma last_default_mono (xs : list Z) (d d' : Z) :
  d <= d' -> last xs d <= last xs d'.
Proof.
  destruct xs as [|x rest]; [trivial|]. intros _.
  rewrite !last_cons_default. lia.
Qed.

Lemma chain_last_bound (lo lo' d : Z) (xs : list Z) :
  chain lo xs -> lo' <= lo -> lo' <= d -> lo' <= last xs d.
Proof.
  destruct xs as [|x rest]; [trivial|]. intros Hc H1 H2.
  destruct Hc as [Hx Hc]. rewrite last_cons_default.
  pose proof (chain_last_le _ _ Hc). lia.
Qed.

Lemma lf_offsets_app (l1 l2 : list byte) :
  forall base,
    lf_offsets (l1 ++ l2) base
    = lf_offsets l1 base ++ lf_offsets l2 (base + Z.of_nat (length l1)).
Proof.
  induction l1 as [|b rest IH]; intros base.
  - cbn [app lf_offsets length]. change (Z.of_nat 0) with 0.
    now rewrite Z.add_0_r.
  - cbn [app lf_offsets length]. rewrite IH.
    replace (base + 1 + Z.of_nat (length rest))
      with (base + Z.of_nat (S (length rest))) by lia.
    now destruct (Byte.eqb b LF).
Qed.

Lemma firstn_add_skipn (A : Type) (a b : nat) (l : list A) :
  firstn (a + b) l = firstn a l ++ firstn b (skipn a l).
Proof.
  revert l. induction a as [|a IH]; intros l; [reflexivity|].
  destruct l as [|x rest].
  - cbn [Nat.add firstn skipn app]. now rewrite firstn_nil.
  - cbn [Nat.add firstn skipn app]. now rewrite IH.
Qed.

Lemma firstn_length_firstn (A : Type) (n : nat) (l : list A) :
  firstn (length (firstn n l)) l = firstn n l.
Proof.
  revert l. induction n as [|n IH]; intros l; [reflexivity|].
  destruct l as [|x rest]; [reflexivity|].
  cbn [firstn length]. now rewrite IH.
Qed.

Lemma firstn_chunk (c : list byte) (p : Z) :
  0 <= p ->
  let data := firstn blockSize (skipn (Z.to_nat p) c) in
  firstn (Z.to_nat (p + Z.of_nat (length data))) c
  = firstn (Z.to_nat p) c ++ data.
Proof.
  intros Hp data.
  replace (Z.to_nat (p + Z.of_nat (length data)))
    with (Z.to_nat p + length data)%nat by lia.
  rewrite firstn_add_skipn. f_equal. apply firstn_length_firstn.
Qed.

Lemma addAll_offsets env block l lp e d :
  offsets (linePosition_ (addAll env block l lp e d))
  = offsets (linePosition_ d) ++ offsets lp.
Proof.
  unfold addAll. destruct block; [reflexivity|].
  now destruct (useFastModificationDetection_ d).
Qed.

Lemma addAll_fake env block l lp e d :
  fakeFinalLF (linePosition_ (addAll env block l lp e d))
  = match offsets lp with
    | [] => fakeFinalLF (linePosition_ d)
    | _ :: _ => fakeFinalLF lp
    end.
Proof.
  unfold addAll. destruct block; [reflexivity|].
  now destruct (useFastModificationDetection_ d).
Qed.

Lemma addAll_size env block l lp e d :
  size (hash_ (addAll env block l lp e d))
  = size (hash_ d) + Z.of_nat (length block).
Proof.
  unfold addAll. destruct block; [simpl; lia|].
  now destruct (useFastModificationDetection_ d).
Qed.

Lemma addAll_guess env block l lp e d :
  encodingGuess_ (addAll env block l lp e d) = e.
Proof.
  unfold addAll. destruct block; [reflexivity|].
  now destruct (useFastModificationDetection_ d).
Qed.

Lemma addAll_forced env block l lp e d :
  encodingForced_ (addAll env block l lp e d) = encodingForced_ d.
Proof.
  unfold addAll. destruct block; [reflexivity|].
  now destruct (useFastModificationDetection_ d).
Qed.

Lemma addAll_maxLength env block l lp e d :
  maxLength_ (addAll env block l lp e d) = Z.max (maxLength_ d) l.
Proof.
  unfold addAll. destruct block; [reflexivity|].
  now destruct (useFastModificationDetection_ d).
Qed.

Lemma guessEncoding_fields env block d state :
  let s := guessEncoding env block d state in
  pos s = pos state /\ file_size s = file_size state /\
  encodingGuess s <> None /\
  fileTextCodec s <> None /\
  (forall c, fileTextCodec s = Some c ->
             encodingParams s = encodingParametersOf env c) /\
  (forall c, fileTextCodec state = Some c -> fileTextCodec s = Some c).
Proof.
  unfold guessEncoding. cbn.
  repeat split; try (destruct (encodingGuess state); discriminate);
    try discriminate.
  - intros c Hc. now inversion Hc.
  - intros c Hc. now rewrite Hc.
Qed.

Section FullIndexBlocks.

Variable env : Environment.
Variable forced : option QTextCodec.

Hypothesis Hexc : exceptionAt env = None.
Hypothesis Hwf : wf_params (encodingParametersOf env (chosenCodec env forced)).

Lemma parsed_upto_step (p : Z) (data : list byte) (state : IndexingState)
    (w : World) :
  0 <= p ->
  data = firstn blockSize (skipn (Z.to_nat p) (disk_bytes env)) ->
  data <> [] ->
  parsed_upto env forced p state w ->
  exists state' w',
    indexNextBlock env state (p, data) w = Ok state' w' /\
    polls w' = polls w /\
    parsed_upto env forced (p + Z.of_nat (length data)) state' w'.
Proof.
  intros Hp Hdata Hne Hinv.
  destruct Hinv as (Hpos & Hfs & Hsz & Hchain & Hlast & Hfake & Hev & Hops
                    & Hcodec & Hexact).
  set (c := disk_bytes env) in *.
  set (state1 := guessEncoding env data (store w) state).
  pose proof (guessEncoding_fields env data (store w) state) as Hg.
  fold state1 in Hg. cbv zeta in Hg.
  destruct Hg as (Hg_pos & Hg_fs & Hg_guess & _ & _ & _).
  assert (Hcodec1 : fileTextCodec state1 = Some (chosenCodec env forced)
                    /\ encodingParams state1
                       = encodingParametersOf env (chosenCodec env forced)).
  { subst state1. unfold guessEncoding. cbn [fileTextCodec encodingParams].
    destruct Hcodec as [(Hn0 & Hftc & Hguess & Hforced & Hsguess)
                       |(Hn & Hftc & _)].
    - rewrite Hftc, Hguess. unfold getForcedEncoding, getEncodingGuess.
      rewrite Hforced, Hsguess. unfold chosenCodec.
      rewrite Hn0 in Hdata.
      change (Z.to_nat 0) with 0%nat in Hdata. cbn [skipn] in Hdata.
      fold c. rewrite <- Hdata.
      destruct forced; cbn; split; reflexivity.
    - rewrite Hftc. split; reflexivity. }
  destruct Hcodec1 as [Hftc1 Hparams1].
  assert (Hlen : Z.of_nat (length data) < 2147483648).
  { pose proof blockSize_small. subst data. rewrite length_firstn. lia. }
  destruct (parseDataBlock_result p data state1 Hlen) as
    (new & state' & Hparse & Hsame & Hchain' & Hlast' & Hle & Hexact').
  { rewrite Hparams1. exact Hwf. }
  { rewrite Hg_pos. lia. }
  destruct (indexNextBlock_block env state p data w _ _ Hexc Hp Hne Hparse)
    as (w' & Hrun & Hstore & Hpolls & Hlog & Hevents).
  destruct Hsame as (S1 & S2 & S3 & S4).
  rewrite Hg_pos in *.
  assert (Hnew0 : Z.max 0 (pos state - p) = 0) by lia.
  exists state', w'. split; [exact Hrun|]. split; [exact Hpolls|].
  assert (Hoff : offsets (linePosition_ (store w'))
                 = offsets (linePosition_ (store w)) ++ new).
  { rewrite Hstore. cbn [setProgress linePosition_]. now rewrite addAll_offsets. }
  unfold parsed_upto. fold c. rewrite Hoff.
  assert (Hlen0 : (0 < length data)%nat).
  { destruct data; [congruence | simpl; lia]. }
  split.
  { split; [|lia]. rewrite Hlast'.
    apply (chain_last_bound _ 0 _ _ Hchain'); lia. }
  split; [congruence|]. split.
  { unfold getIndexedSize in *. rewrite Hstore. cbn [setProgress hash_].
    rewrite addAll_size. lia. }
  split.
  { apply chain_app; [exact Hchain|]. eapply chain_weaken; [|exact Hchain']. lia. }
  split.
  { rewrite last_app_default, Hlast'. now apply last_default_mono. }
  split.
  { rewrite Hstore. cbn [setProgress linePosition_]. rewrite addAll_fake.
    cbn [offsets fakeFinalLF]. now destruct new. }
  split.
  { intros Hin. destruct (Hevents _ Hin) as [Hold|[pr Hpr]];
      [contradiction | discriminate]. }
  split.
  { destruct Hlog as (ops & Hlog & Hops'). rewrite Hlog.
    apply Forall_app. split; [exact Hops|]. constructor; [reflexivity|].
    destruct Hops' as [->|[pr ->]]; repeat constructor. }
  split.
  { right. split; [lia|]. split; [congruence|].
    rewrite Hstore. cbn [setProgress encodingGuess_]. rewrite addAll_guess.
    congruence. }
  intros Hw1. specialize (Hexact Hw1). destruct Hexact as [HO HP].
  rewrite Hparams1 in Hexact'. specialize (Hexact' Hw1).
  rewrite Hnew0 in Hexact'. change (Z.to_nat 0) with 0%nat in Hexact'.
  cbn [skipn] in Hexact'. rewrite Z.add_0_r in Hexact'.
  assert (Hpc : p <= Z.of_nat (length c)).
  { destruct (Z_le_gt_dec p (Z.of_nat (length c))) as [H|H]; [exact H|].
    exfalso. apply Hne. rewrite Hdata. rewrite skipn_all2 by lia.
    apply firstn_nil. }
  split.
  - rewrite Hdata at 1. fold c. rewrite (firstn_chunk c p Hp).
    rewrite lf_offsets_app, length_firstn, <- Hdata.
    rewrite HO, Hexact'. f_equal. f_equal. lia.
  - rewrite Hlast', last_app_default. now rewrite HP.
Qed.

Lemma parseBlocks_app (state : IndexingState) (blocks1 blocks2 : list BlockData)
    (w : World) (state' : IndexingState) (w' : World) :
  parseBlocks env state blocks1 w = Ok state' w' ->
  parseBlocks env state (blocks1 ++ blocks2) w
  = parseBlocks env state' blocks2 w'.
Proof.
  revert state w. induction blocks1 as [|b rest IH]; intros state w Hrun.
  - cbn in Hrun. unfold ret in Hrun. now inversion Hrun.
  - cbn [app parseBlocks] in *. unfold bind in *.
    destruct (indexNextBlock env state b w) as [s1 w1| |]; try discriminate.
    now apply IH.
Qed.

Lemma parseBlocks_contiguous :
  forall blocks p q state w,
    0 <= p ->
    contiguous (disk_bytes env) p blocks q ->
    parsed_upto env forced p state w ->
    exists state' w',
      parseBlocks env state (blocks ++ [lastBlock]) w = Ok state' w' /\
      polls w' = polls w /\
      parsed_upto env forced q state' w'.
Proof.
  induction blocks as [|[bb data] rest IH]; intros p q state w Hp Hcont Hinv.
  - cbn in Hcont. subst q. exists state, w. split; [reflexivity|]. now split.
  - cbn [contiguous] in Hcont. destruct Hcont as (-> & Hne & Hdata & Hcont).
    destruct (parsed_upto_step p data state w Hp Hdata Hne Hinv)
      as (s1 & w1 & Hrun1 & Hpolls1 & Hinv1).
    destruct (IH (p + Z.of_nat (length data)) q s1 w1 ltac:(lia) Hcont Hinv1)
      as (s2 & w2 & Hrun2 & Hpolls2 & Hinv2).
    exists s2, w2. cbn [app parseBlocks]. unfold bind at 1. rewrite Hrun1.
    split; [exact Hrun2|]. split; [congruence | exact Hinv2].
Qed.

End FullIndexBlocks.

Lemma poll_eq (env : Environment) (w : World) :
  poll env w
  = Ok (interruptRequest_ env (polls w))
       (mkWorld (store w) (oplog w) (events w) (S (polls w)) (stages w)).
Proof. reflexivity. Qed.

Lemma rehash_ok (env : Environment) (file : QFile) :
  exceptionAt env = None ->
  exists dg s dg' o s',
    forall w,
      rehash env file w
      = Ok tt
          (mkWorld (setTailHash dg' o s' (setHeaderHash dg s (store w)))
             (oplog w ++ [OpSetHeaderHash dg s; OpSetTailHash dg' o s'])
             (events w) (polls w) (S (S (stages w)))).
Proof.
  intros Hexc. unfold rehash. rewrite read_block.
  cbn [contents fpos seek].
  destruct (fpos file <=? IndexingBlockSize).
  - do 5 eexists. intros w. unfold bind.
    rewrite mutate_ok by exact Hexc. cbv beta iota.
    rewrite mutate_ok by exact Hexc.
    cbn [store oplog events polls stages applyOp].
    rewrite <- app_assoc. reflexivity.
  - rewrite read_block. do 5 eexists. intros w. unfold bind.
    rewrite mutate_ok by exact Hexc. cbv beta iota.
    rewrite mutate_ok by exact Hexc.
    cbn [store oplog events polls stages applyOp].
    rewrite <- app_assoc. reflexivity.
Qed.

Lemma doIndex_finish_ok (env : Environment) (file : QFile)
    (state : IndexingState) (w : World) :
  exceptionAt env = None ->
  let b1 := interruptRequest_ env (polls w) in
  let b2 := interruptRequest_ env (S (polls w)) in
  let insert := negb b1 && (file_size state >? pos state) in
  let d1 :=
    if insert
    then addAll env [] 0 (fake_line_position state) (encodingGuess state) (store w)
    else store w in
  exists dg s dg' o s',
    let d2 := setTailHash dg' o s' (setHeaderHash dg s d1) in
    let d3 := if b2 then clear env d2 else d2 in
    let tooLong := getMaxLength d3 =? LineLength_max in
    let d4 := if tooLong then clear env d3 else d3 in
    exists w',
    doIndex_finish env file state w = Ok tt w' /\
    polls w' = S (S (polls w)) /\
    store w'
    = match getEncodingGuess d4 with
      | None => setEncodingGuess (Some (codecForLocale env)) d4
      | Some _ => d4
      end /\
    events w' = events w ++ (if tooLong then [linesTooLong] else []) /\
    oplog w'
    = oplog w
      ++ (if insert
          then [OpAddAll [] 0 (fake_line_position state) (encodingGuess state)]
          else [])
      ++ [OpSetHeaderHash dg s; OpSetTailHash dg' o s']
      ++ (if b2 then [OpClear] else [])
      ++ (if tooLong then [OpClear] else [])
      ++ match getEncodingGuess d4 with
         | None => [OpSetEncodingGuess (Some (codecForLocale env))]
         | Some _ => []
         end.
Proof.
  intros Hexc b1 b2 insert d1.
  destruct (rehash_ok env file Hexc) as (dg & s & dg' & o & s' & Hrehash).
  exists dg, s, dg', o, s'. subst b1 b2 insert d1. cbv zeta.
  unfold doIndex_finish, bind, getStore, ret, emit, fake_line_position.
  repeat (cbv beta iota; cbn [store oplog events polls stages applyOp];
          first
            [ rewrite mutate_ok by exact Hexc
            | rewrite Hrehash
            | rewrite poll_eq
            | match goal with
              | |- context [if ?b then _ else _] => destruct b
              end
            | match goal with
              | |- context [getEncodingGuess ?d] => destruct (getEncodingGuess d)
              end ]);
    (eexists; split; [reflexivity|]; cbn [store oplog events polls stages];
     rewrite <- ?app_assoc; cbn [app]; rewrite ?app_nil_r; repeat split).
Qed.

Lemma orElse_None_r (A : Type) (a : option A) : orElse a None = a.
Proof. now destruct a. Qed.

Lemma FullIndexOperation_run_ok (env : Environment)
    (forced : option QTextCodec) (d : IndexingData) :
  exceptionAt env = None ->
  disk_readable env = true ->
  wf_params (encodingParametersOf env (chosenCodec env forced)) ->
  exists blocks file' np state1 w1 w2,
    readLoop (length (disk_bytes env)) env (mkQFile (disk_bytes env) 0) 0%nat
    = (blocks, file', np) /\
    contents file' = disk_bytes env /\
    0 <= fpos file' <= Z.of_nat (length (disk_bytes env)) /\
    (interruptSetAt env = None ->
     fpos file' = Z.of_nat (length (disk_bytes env))) /\
    parsed_upto env forced (fpos file') state1 w1 /\
    polls w1 = np /\
    doIndex_finish env file' state1 w1 = Ok tt w2 /\
    FullIndexOperation_run env forced (startWorld d)
    = Ok (ResultBool (negb (interruptRequest_ env (polls w2))))
        (mkWorld (store w2) (oplog w2)
           (events w2
            ++ [indexingFinished (negb (interruptRequest_ env (polls w2)))])
           (S (polls w2)) (stages w2)).
Proof.
  intros Hexc Hread Hwf.
  set (c := disk_bytes env).
  destruct (readLoop (length c) env (mkQFile c 0) 0%nat)
    as [[blocks file'] np] eqn:Eread.
  destruct (readLoop_contiguous env _ _ _ _ _ _ Eread ltac:(cbn; lia))
    as (Hc & Hcont & Hle & Hin & Hall).
  cbn [contents fpos] in Hc, Hcont, Hle, Hin, Hall.
  unfold file_size_of in Hin, Hall. cbn [contents] in Hin, Hall.
  set (state0 :=
         mkIndexingState (mkEncodingParameters 1 0) 0 0 0 0
           (Z.of_nat (length c)) None (orElse forced None)).
  set (w0 := mkWorld (forceEncoding forced (clear env d))
               [OpClear; OpForceEncoding forced] [indexingProgressed 0] np 3).
  assert (Hinv0 : parsed_upto env forced 0 state0 w0).
  { unfold parsed_upto. cbn. rewrite orElse_None_r.
    repeat split; try lia; try reflexivity.
    - intros [H|[]]. discriminate.
    - repeat constructor.
    - left. now repeat split. }
  destruct (parseBlocks_contiguous env forced Hexc Hwf blocks 0 (fpos file')
              state0 w0 ltac:(lia) Hcont Hinv0)
    as (state1 & w1 & Hparse & Hpolls & Hinv1).
  destruct (doIndex_finish_ok env file' state1 w1 Hexc)
    as (dg & s & dg' & o & s' & w2 & Hfin & _).
  exists blocks, file', np, state1, w1, w2.
  split; [reflexivity|]. split; [exact Hc|]. split; [lia|].
  split; [intros Hnone; specialize (Hall Hnone ltac:(lia)); lia|].
  split; [exact Hinv1|]. split; [exact Hpolls|]. split; [exact Hfin|].
  unfold FullIndexOperation_run, FullIndexOperation_try, try_catch, bind, emit, ret.
  cbn [startWorld store oplog events polls stages].
  rewrite mutate_ok by exact Hexc. cbv beta iota.
  cbn [store oplog events polls stages applyOp app].
  rewrite mutate_ok by exact Hexc. cbv beta iota.
  cbn [store oplog events polls stages applyOp app].
  unfold doIndex, wait_for_all, bind, getStore.
  rewrite checkpoint_ok by exact Hexc. cbv beta iota.
  rewrite Hread. cbn [negb].
  cbn [store oplog events polls stages pos].
  unfold readFileInBlocks.
  cbn [store oplog events polls stages pos contents fpos].
  unfold seek. change (0 <? 0) with false. cbv iota. cbn [contents].
  fold c. rewrite Eread.
  unfold getEncodingGuess, getForcedEncoding, file_size_of.
  cbn [forceEncoding clear encodingGuess_ encodingForced_ contents].
  fold c. fold state0.
  change (mkWorld (forceEncoding forced (clear env d))
            [OpClear; OpForceEncoding forced] [indexingProgressed 0] np 3)
    with w0.
  rewrite Hparse. rewrite Hfin. rewrite poll_eq.
  destruct (interruptRequest_ env (polls w2)); reflexivity.
Qed.

Lemma lf_offsets_length (l : list byte) (base : Z) :
  length (lf_offsets l base) = count_occ Byte.byte_eq_dec l LF.
Proof.
  revert base. induction l as [|b rest IH]; intros base; [reflexivity|].
  cbn [lf_offsets count_occ].
  destruct (Byte.byte_eq_dec b LF) as [->|Hne].
  - rewrite (proj2 (byte_eqb_true_iff LF LF) eq_refl). cbn [length].
    now rewrite IH.
  - rewrite (proj2 (byte_eqb_false_iff b LF) Hne). apply IH.
Qed.

Lemma lf_offsets_last_le (l : list byte) :
  forall base d, last (lf_offsets l base) d <= Z.max d (base + Z.of_nat (length l)).
Proof.
  induction l as [|b rest IH]; intros base d; [cbn; lia|].
  cbn [lf_offsets length]. destruct (Byte.eqb b LF).
  - rewrite last_cons_default. specialize (IH (base + 1) (base + 1)). lia.
  - specialize (IH (base + 1) d). lia.
Qed.

Lemma ends_without_lf_spec (l : list byte) :
  (Z.of_nat (length l) >? last (lf_offsets l 0) 0) = ends_without_lf l.
Proof.
  induction l as [|b l' _] using rev_ind; [reflexivity|].
  assert (Hends : ends_without_lf (l' ++ [b]) = negb (Byte.eqb b LF)).
  { unfold ends_without_lf. rewrite last_last. now destruct l'. }
  rewrite Hends, lf_offsets_app, length_app. cbn [lf_offsets length].
  destruct (Byte.eqb b LF); cbn [negb].
  - rewrite last_app_default. cbn [last].
    destruct (Z.gtb_spec (Z.of_nat (length l' + 1))
                (0 + Z.of_nat (length l') + 1)); [lia | reflexivity].
  - rewrite app_nil_r. pose proof (lf_offsets_last_le l' 0 0).
    destruct (Z.gtb_spec (Z.of_nat (length l' + 1)) (last (lf_offsets l' 0) 0));
      [reflexivity | lia].
Qed.

Lemma chain_Forall (lo : Z) (l : list Z) :
  chain lo l -> Forall (fun x => lo < x) l.
Proof.
  revert lo. induction l as [|x rest IH]; intros lo; [constructor|].
  intros [Hx Hc]. constructor; [exact Hx|].
  apply IH. eapply chain_weaken; [|exact Hc]. lia.
Qed.

Lemma chain_increasing (lo : Z) (l : list Z) :
  chain lo l -> strictly_increasing l.
Proof.
  revert lo. induction l as [|x rest IH]; intros lo Hc i j Hij;
    [simpl in Hij; lia|].
  destruct Hc as [Hx Hc]. destruct j as [|j]; [lia|].
  destruct i as [|i].
  - cbn [nth]. pose proof (chain_Forall _ _ Hc) as HF.
    rewrite Forall_forall in HF. apply HF. apply nth_In. simpl in Hij. lia.
  - cbn [nth]. apply (IH x Hc). simpl in Hij. lia.
Qed.

Lemma setEncodingGuess_if_none_linePosition env d :
  linePosition_
    (match getEncodingGuess d with
     | None => setEncodingGuess (Some (codecForLocale env)) d
     | Some _ => d
     end)
  = linePosition_ d.
Proof. now destruct (getEncodingGuess d). Qed.

Lemma setEncodingGuess_if_none_hash env d :
  hash_
    (match getEncodingGuess d with
     | None => setEncodingGuess (Some (codecForLocale env)) d
     | Some _ => d
     end)
  = hash_ d.
Proof. now destruct (getEncodingGuess d). Qed.

Lemma full_index_single_byte (env : Environment)
    (forced : option QTextCodec) (d : IndexingData) :
  exceptionAt env = None ->
  interruptSetAt env = None ->
  disk_readable env = true ->
  wf_params (encodingParametersOf env (chosenCodec env forced)) ->
  lineFeedWidth (encodingParametersOf env (chosenCodec env forced)) = 1 ->
  exists w',
    FullIndexOperation_run env forced (startWorld d) = Ok (ResultBool true) w' /\
    (~ In linesTooLong (events w') ->
     offsets (linePosition_ (store w'))
     = lf_offsets (disk_bytes env) 0
       ++ (if ends_without_lf (disk_bytes env)
           then [Z.of_nat (length (disk_bytes env)) + 1] else []) /\
     fakeFinalLF (linePosition_ (store w')) = ends_without_lf (disk_bytes env) /\
     getIndexedSize (store w') = Z.of_nat (length (disk_bytes env))).
Proof.
  intros Hexc Hirq Hread Hwf Hw1.
  destruct (FullIndexOperation_run_ok env forced d Hexc Hread Hwf)
    as (blocks & file' & np & state1 & w1 & w2 & _ & _ & _ & Hq & Hinv & _
        & Hfin & Hrun).
  specialize (Hq Hirq).
  destruct (doIndex_finish_ok env file' state1 w1 Hexc)
    as (dg & s & dg' & o & s' & w2' & Hfin' & Hpolls & Hstore & Hevents & _).
  rewrite Hfin in Hfin'. inversion Hfin'; subst w2'. clear Hfin'.
  unfold interruptRequest_ in Hrun, Hstore, Hevents.
  rewrite Hirq in Hrun, Hstore, Hevents. cbn [negb andb] in Hrun, Hstore, Hevents.
  eexists. split; [exact Hrun|]. cbn [events store].
  intros Hquiet.
  destruct Hinv as (Hpos & Hfs & Hsz & _ & _ & Hfake & _ & _ & _ & Hexact).
  destruct (Hexact Hw1) as [HO HP]. clear Hexact.
  rewrite Hq, Nat2Z.id, firstn_all in HO.
  match type of Hevents with
  | context [if ?t then _ else _] => destruct t eqn:Etoo
  end.
  { exfalso. apply Hquiet. rewrite Hevents.
    apply in_or_app. left. apply in_or_app. right. now left. }
  rewrite Hstore. unfold getIndexedSize in *.
  rewrite !setEncodingGuess_if_none_linePosition, setEncodingGuess_if_none_hash.
  cbn [setTailHash setHeaderHash linePosition_ hash_ size].
  rewrite Hfs, HP, HO, ends_without_lf_spec.
  destruct (ends_without_lf (disk_bytes env)).
  - rewrite addAll_offsets, addAll_fake, addAll_size. unfold fake_line_position.
    cbn [setFakeFinalLF lpa_append offsets fakeFinalLF emptyLinePositionArray
         app length].
    rewrite HO, Hsz, Hq, Hfs. split; [reflexivity|]. split; [reflexivity|].
    change (Z.of_nat 0) with 0. lia.
  - rewrite HO, Hfake, Hsz, Hq, app_nil_r. now repeat split.
Qed.

(** C1.  A full index of a readable file under an encoding whose line feed
    is one byte wide, with no interrupt and no exception, returns
    [Successful].  Unless the run ends on the "lines too long" error, the
    number of lines in the store is the number of LF bytes of the file, plus
    one exactly when the file is not empty and its last byte is not LF; in
    that case the last offset is the file size plus one and the fake-final-LF
    flag is set, and otherwise the flag is not set. *)
Theorem full_index_line_count (env : Environment)
    (forced : option QTextCodec) (d : IndexingData) :
  exceptionAt env = None ->
  interruptSetAt env = None ->
  disk_readable env = true ->
  wf_params (encodingParametersOf env (chosenCodec env forced)) ->
  lineFeedWidth (encodingParametersOf env (chosenCodec env forced)) = 1 ->
  exists w',
    FullIndexOperation_run env forced (startWorld d) = Ok (ResultBool true) w' /\
    (~ In linesTooLong (events w') ->
     let lp := linePosition_ (store w') in
     getNbLines (store w')
     = (count_occ Byte.byte_eq_dec (disk_bytes env) LF
        + (if ends_without_lf (disk_bytes env) then 1 else 0))%nat /\
     (ends_without_lf (disk_bytes env) = true ->
      last (offsets lp) 0 = Z.of_nat (length (disk_bytes env)) + 1 /\
      fakeFinalLF lp = true) /\
     (ends_without_lf (disk_bytes env) = false -> fakeFinalLF lp = false)).
Proof.
  intros Hexc Hirq Hread Hwf Hw1.
  destruct (full_index_single_byte env forced d Hexc Hirq Hread Hwf Hw1)
    as (w' & Hrun & Hres).
  exists w'. split; [exact Hrun|]. intros Hquiet.
  destruct (Hres Hquiet) as (HO & Hfake & _). cbv zeta.
  unfold getNbLines. rewrite HO, Hfake, length_app, lf_offsets_length.
  destruct (ends_without_lf (disk_bytes env)).
  - cbn [length]. split; [reflexivity|]. split; [|discriminate].
    intros _. rewrite last_app_default. cbn [last]. now split.
  - cbn [length]. split; [reflexivity|]. split; [discriminate|].
    intros _. reflexivity.
Qed.


Section Safe.

Variable env : Environment.
Variable I : World -> Prop.
Hypothesis HI_frame :
  forall w ev np ns, I w -> I (mkWorld (store w) (oplog w) ev np ns).
Hypothesis HI_call :
  forall w op,
    I w ->
    I (mkWorld (applyOp env op (store w)) (oplog w ++ [op]) (events w)
         (polls w) (stages w)).

Lemma safe_ret (A : Type) (a : A) : safe env I (ret a).
Proof. intros w Hw. exact Hw. Qed.

Lemma safe_bind (A B : Type) (m : M A) (f : A -> M B) :
  safe env I m -> (forall a, safe env I (f a)) -> safe env I (bind m f).
Proof.
  intros Hm Hf w Hw. unfold bind. specialize (Hm w Hw).
  destruct (m w) as [a w1|what w1|]; [|exact Hm|exact Logic.I].
  apply (Hf a w1 Hm).
Qed.

Lemma safe_diverge (A : Type) : safe env I (@diverge A).
Proof. intros w Hw. exact Logic.I. Qed.

Lemma safe_getStore : safe env I getStore.
Proof. intros w Hw. exact Hw. Qed.

Lemma safe_emit (ev : Event) : safe env I (emit ev).
Proof. intros w Hw. unfold emit. now apply HI_frame. Qed.

Lemma safe_poll : safe env I (poll env).
Proof. intros w Hw. unfold poll. now apply HI_frame. Qed.

Lemma safe_checkpoint : safe env I (checkpoint env).
Proof.
  intros w Hw. unfold checkpoint.
  destruct (exceptionAt env) as [[k what]|] eqn:E; [|now apply HI_frame].
  destruct (Nat.eqb_spec k (stages w)) as [->|Hne]; [|now apply HI_frame].
  split; [now apply HI_frame|]. exists (stages w). cbn. split; [exact E | lia].
Qed.

Lemma safe_mutate (op : StoreOp) : safe env I (mutate env op).
Proof.
  unfold mutate. apply safe_bind; [apply safe_checkpoint|].
  intros _ w Hw. now apply HI_call.
Qed.

Lemma safe_readFileInBlocks (file : QFile) :
  safe env I (readFileInBlocks env file).
Proof.
  intros w Hw. unfold readFileInBlocks.
  destruct (readLoop (length (contents file)) env file (polls w))
    as [[blocks file'] np].
  now apply HI_frame.
Qed.

Ltac safe_step :=
  match goal with
  | |- safe _ _ (bind _ _) => apply safe_bind; [|intros]
  | |- safe _ _ (ret _) => apply safe_ret
  | |- safe _ _ (checkpoint _) => apply safe_checkpoint
  | |- safe _ _ (mutate _ _) => apply safe_mutate
  | |- safe _ _ (emit _) => apply safe_emit
  | |- safe _ _ (poll _) => apply safe_poll
  | |- safe _ _ getStore => apply safe_getStore
  | |- safe _ _ diverge => apply safe_diverge
  | |- safe _ _ (readFileInBlocks _ _) => apply safe_readFileInBlocks
  | |- safe _ _ (if ?b then _ else _) => destruct b
  | |- safe _ _ (match ?x with _ => _ end) => destruct x
  end.

Lemma safe_indexNextBlock (state : IndexingState) (blockData : BlockData) :
  safe env I (indexNextBlock env state blockData).
Proof.
  unfold indexNextBlock. destruct blockData as [blockBeginning block].
  repeat (cbv zeta; safe_step).
Qed.

Lemma safe_parseBlocks (blocks : list BlockData) :
  forall state, safe env I (parseBlocks env state blocks).
Proof.
  induction blocks as [|b rest IH]; intros state; cbn [parseBlocks].
  - apply safe_ret.
  - apply safe_bind; [apply safe_indexNextBlock | intros; apply IH].
Qed.

Lemma safe_rehash (file : QFile) : safe env I (rehash env file).
Proof.
  unfold rehash. rewrite read_block.
  destruct (fpos file <=? IndexingBlockSize).
  - repeat safe_step.
  - rewrite read_block. repeat safe_step.
Qed.

Lemma safe_doIndex_finish (file : QFile) (state : IndexingState) :
  safe env I (doIndex_finish env file state).
Proof.
  unfold doIndex_finish.
  repeat (cbv zeta; first [apply safe_rehash | safe_step]).
Qed.

Lemma safe_wait_for_all (A : Type) (nodes : M A) :
  safe env I nodes -> safe env I (wait_for_all nodes).
Proof.
  intros Hnodes w Hw. unfold wait_for_all. specialize (Hnodes w Hw).
  destruct (nodes w) as [a w1|what w1|]; [exact Hnodes | exact Logic.I..].
Qed.

Lemma safe_doIndex (initialPosition : Z) :
  safe env I (doIndex env initialPosition).
Proof.
  unfold doIndex.
  repeat (cbv zeta;
          first [ apply safe_doIndex_finish
                | apply safe_wait_for_all, safe_parseBlocks
                | safe_step ]).
Qed.

Lemma safe_doCheckFileChanges : safe env I (doCheckFileChanges env).
Proof.
  unfold doCheckFileChanges. repeat (cbv zeta; safe_step).
Qed.

Lemma safe_FullIndexOperation_try (forced : option QTextCodec) :
  safe env I (FullIndexOperation_try env forced).
Proof.
  unfold FullIndexOperation_try.
  repeat (cbv zeta; first [apply safe_doIndex | safe_step]).
Qed.

Lemma safe_PartialIndexOperation_try :
  safe env I (PartialIndexOperation_try env).
Proof.
  unfold PartialIndexOperation_try.
  repeat (cbv zeta; first [apply safe_doIndex | safe_step]).
Qed.

Lemma safe_CheckFileChangesOperation_try :
  safe env I (CheckFileChangesOperation_try env).
Proof.
  unfold CheckFileChangesOperation_try.
  repeat (cbv zeta; first [apply safe_doCheckFileChanges | safe_step]).
Qed.

End Safe.

Lemma stable_True (env : Environment) : stable env (fun _ => True).
Proof. split; intros; exact Logic.I. Qed.

Lemma replay_snoc (env : Environment) (ops : list StoreOp) (op : StoreOp)
    (d : IndexingData) :
  replay env (ops ++ [op]) d = applyOp env op (replay env ops d).
Proof. unfold replay. now rewrite fold_left_app. Qed.

Lemma stable_replay (env : Environment) (d : IndexingData) :
  stable env (fun w => store w = replay env (oplog w) d).
Proof.
  split.
  - intros w op Hw. cbn [store oplog]. now rewrite replay_snoc, Hw.
  - intros w ev np ns Hw. exact Hw.
Qed.

Lemma mutate_after_throw (env : Environment) (op : StoreOp) (what : String.string)
    (w : World) :
  thrown_by_stage env what w ->
  mutate env op w
  = Ok tt (mkWorld (applyOp env op (store w)) (oplog w ++ [op]) (events w)
             (polls w) (S (stages w))).
Proof.
  intros (k & Hk & Hlt). unfold mutate, bind, checkpoint. rewrite Hk.
  destruct (Nat.eqb_spec k (stages w)) as [->|_]; [lia | reflexivity].
Qed.

Lemma safe_try_catch (A : Type) (env : Environment) (I : World -> Prop)
    (body : M A) (handler : String.string -> M A) :
  safe env I body -> (forall what, safe env I (handler what)) ->
  safe env I (try_catch body handler).
Proof.
  intros Hb Hh w Hw. unfold try_catch. specialize (Hb w Hw).
  destruct (body w) as [a w1|what w1|]; [exact Hb| |exact Logic.I].
  apply (Hh what w1). apply Hb.
Qed.

Lemma safe_Operation_try (env : Environment) (I : World -> Prop)
    (op : Operation) :
  stable env I -> safe env I (Operation_try env op).
Proof.
  intros HI. destruct op; cbn [Operation_try].
  - apply safe_FullIndexOperation_try; apply HI.
  - apply safe_PartialIndexOperation_try; apply HI.
  - apply safe_CheckFileChangesOperation_try; apply HI.
Qed.

Lemma safe_Operation_run (env : Environment) (I : World -> Prop)
    (op : Operation) :
  stable env I -> safe env I (Operation_run env op).
Proof.
  intros HI.
  destruct op; cbn [Operation_run];
    unfold FullIndexOperation_run, PartialIndexOperation_run,
      CheckFileChangesOperation_run;
    (apply safe_try_catch;
     [ first [ apply safe_FullIndexOperation_try; apply HI
             | apply safe_PartialIndexOperation_try; apply HI
             | apply safe_CheckFileChangesOperation_try; apply HI ]
     | intros what;
       repeat first
         [ apply safe_emit; apply HI
         | apply safe_mutate; apply HI
         | apply safe_ret
         | apply safe_bind; [|intros] ] ]).
Qed.

Lemma CheckFileChangesOperation_try_store (env : Environment)
    (d : IndexingData) :
  safe env (fun w => store w = d) (CheckFileChangesOperation_try env).
Proof.
  apply safe_CheckFileChangesOperation_try. intros w ev np ns Hw. exact Hw.
Qed.

Lemma applyOp_hash_inv (env : Environment) (op : StoreOp) (d : IndexingData) :
  hash_inv d -> hash_inv (applyOp env op d).
Proof.
  unfold hash_inv.
  destruct op as [|c|c|pr|blk len lp enc|dg sz|dg o sz]; cbn [applyOp];
    try (intros H; exact H).
  - intros _. cbn. now destruct (fastModificationDetection env).
  - unfold addAll. destruct blk as [|b rest]; [intros H; exact H|].
    destruct (useFastModificationDetection_ d) eqn:E;
      cbn [negb useFastModificationDetection_ hashBuilder_ hash_ size];
      rewrite ?E.
    + intros H; exact H.
    + intros H. unfold addData. rewrite length_app. cbn [length]. lia.
Qed.

Lemma replay_hash_inv (env : Environment) (ops : list StoreOp)
    (d : IndexingData) :
  hash_inv d -> hash_inv (replay env ops d).
Proof.
  revert d. induction ops as [|op rest IH]; intros d Hd; [exact Hd|].
  cbn. apply IH. now apply applyOp_hash_inv.
Qed.

Lemma exception_handled (env : Environment)
    (op : Operation) (d : IndexingData) (what : String.string) (w1 : World) :
  Operation_try env op (startWorld d) = Thrown what w1 ->
  exists w',
    Operation_run env op (startWorld d) = Ok (failure_result op) w' /\
    store w'
    = match op with
      | CheckFileChanges => d
      | _ => clear env d
      end /\
    (exists errorString, In (issueReported errorString) (events w')).
Proof.
  intros Hthrow.
  pose proof (safe_Operation_try env (fun _ => True) op (stable_True env)
                (startWorld d) Logic.I) as Hsafe.
  rewrite Hthrow in Hsafe. destruct Hsafe as [_ Hstage].
  destruct op as [forced| |]; cbn [Operation_try Operation_run failure_result] in *.
  - unfold FullIndexOperation_run, try_catch. rewrite Hthrow.
    unfold bind, emit, ret.
    rewrite (mutate_after_throw env OpClear what) by exact Hstage.
    eexists. split; [reflexivity|]. cbn. split; [reflexivity|].
    eexists. apply in_or_app. right. now left.
  - unfold PartialIndexOperation_run, try_catch. rewrite Hthrow.
    unfold bind, emit, ret.
    rewrite (mutate_after_throw env OpClear what) by exact Hstage.
    eexists. split; [reflexivity|]. cbn. split; [reflexivity|].
    eexists. apply in_or_app. right. now left.
  - unfold CheckFileChangesOperation_run, try_catch. rewrite Hthrow.
    unfold bind, emit, ret.
    eexists. split; [reflexivity|]. cbn. split.
    + pose proof (CheckFileChangesOperation_try_store env d (startWorld d)
                    eq_refl) as Hs.
      rewrite Hthrow in Hs. apply Hs.
    + eexists. apply in_or_app. right. now left.
Qed.

Lemma replay_size (env : Environment) (ops : list StoreOp) :
  forall d,
    size (hash_ (replay env ops d)) = bytesAdded ops (size (hash_ d)).
Proof.
  induction ops as [|op rest IH]; intros d; [reflexivity|].
  change (replay env (op :: rest) d) with (replay env rest (applyOp env op d)).
  rewrite IH.
  destruct op as [|c|c|pr|blk len lp enc|dg sz|dg o sz];
    cbn [applyOp bytesAdded]; try reflexivity.
  f_equal. unfold addAll. destruct blk as [|b blk']; [cbn; lia|].
  destruct (negb (useFastModificationDetection_ d)); reflexivity.
Qed.

(** C6, amended.  The store an operation leaves is the result of the calls
    in the log, and after every call of the log the following holds.  The
    [size] of the fingerprint counts the bytes of the blocks added since the
    store was last cleared (on top of the size the operation found, when it
    has not cleared the store), whether fast modification detection is on or
    off.  When it is off for the store, that [size] is the number of bytes
    fed to the full-file hash builder; when it is on, the hash builder has
    been fed nothing. *)
Theorem fingerprint_size_follows_hash_builder (env : Environment)
    (op : Operation) (d : IndexingData) (r : OperationResult) (w' : World) :
  hash_inv d ->
  Operation_run env op (startWorld d) = Ok r w' ->
  store w' = replay env (oplog w') d /\
  forall n,
    let calls := firstn n (oplog w') in
    size (hash_ (replay env calls d)) = bytesAdded calls (size (hash_ d)) /\
    hash_inv (replay env calls d).
Proof.
  intros Hd Hrun. split.
  - pose proof (safe_Operation_run env _ op (stable_replay env d)
                  (startWorld d) eq_refl) as Hsafe.
    rewrite Hrun in Hsafe. exact Hsafe.
  - intros n calls. split; [apply replay_size | now apply replay_hash_inv].
Qed.

Lemma IndexingBlockSize_pos : 0 < IndexingBlockSize.
Proof. unfold IndexingBlockSize. lia. Qed.

Lemma firstn_nil_iff_length (A : Type) (n : nat) (l : list A) :
  length (firstn n l) = 0%nat -> n = 0%nat \/ l = [].
Proof.
  destruct n; [now left|]. destruct l; [now right|]. discriminate.
Qed.

Lemma getDigestLoop_spec :
  forall fuel file fd total n,
    0 <= fpos file ->
    (Z.to_nat (file_size_of file - fpos file) < fuel)%nat ->
    exists file',
      getDigestLoop fuel file fd total n
      = Some (fd ++ firstn (Z.to_nat (n - total))
                      (skipn (Z.to_nat (fpos file)) (contents file)),
              file') /\
      contents file' = contents file.
Proof.
  pose proof IndexingBlockSize_pos as HBS.
  induction fuel as [|fuel IH]; intros file fd total n Hpos Hfuel; [lia|].
  cbn [getDigestLoop]. unfold read.
  set (btr := Z.min IndexingBlockSize (n - total)).
  set (rest := skipn (Z.to_nat (fpos file)) (contents file)).
  destruct (Z.ltb_spec btr 0) as [Hneg|Hnn].
  { cbn. exists file. replace (Z.to_nat (n - total)) with 0%nat by lia.
    now rewrite app_nil_r. }
  cbn [contents].
  set (data := firstn (Z.to_nat btr) rest).
  destruct (Z.gtb_spec (Z.of_nat (length data)) 0) as [Hgt|Hz].
  - cbn [andb].
    assert (Hlen : Z.of_nat (length data) <= btr).
    { subst data. rewrite length_firstn. lia. }
    destruct (Z.ltb_spec (total + Z.of_nat (length data)) n) as [Hmore|Hdone].
    + destruct (IH (mkQFile (contents file) (fpos file + Z.of_nat (length data)))
                  (addData fd data) (total + Z.of_nat (length data)) n)
        as (file' & Hrun & Hc).
      { cbn. lia. }
      { unfold file_size_of in *. cbn [contents fpos].
        assert (Hdr : (length data <= length rest)%nat).
        { subst data. rewrite length_firstn. lia. }
        assert (Hrest : length rest
                        = (length (contents file) - Z.to_nat (fpos file))%nat).
        { subst rest. apply length_skipn. }
        clear - Hpos Hfuel Hgt Hdr Hrest. lia. }
      exists file'. rewrite Hrun. cbn [contents fpos] in *.
      split; [|exact Hc]. f_equal. f_equal.
      unfold addData. rewrite <- app_assoc. f_equal.
      replace (Z.to_nat (n - total))
        with (length data + Z.to_nat (n - (total + Z.of_nat (length data))))%nat
        by lia.
      rewrite firstn_add_skipn. fold rest. f_equal.
      * subst data. symmetry. apply firstn_length_firstn.
      * subst rest. rewrite skipn_skipn. f_equal. f_equal. lia.
    + assert (Hdata : firstn (Z.to_nat (n - total)) rest = data).
      { subst data. f_equal. lia. }
      rewrite Hdata. eexists. split; reflexivity.
  - cbn [andb].
    assert (Hnone : firstn (Z.to_nat (n - total)) rest = []).
    { assert (Hl0 : length data = 0%nat) by lia.
      subst data. apply firstn_nil_iff_length in Hl0.
      destruct Hl0 as [H0|Hnil].
      - now replace (Z.to_nat (n - total)) with 0%nat by lia.
      - rewrite Hnil. apply firstn_nil. }
    rewrite Hnone, app_nil_r. eexists. split; reflexivity.
Qed.

Lemma getDigest_spec (env : Environment) (file : QFile) (n : Z) :
  0 <= fpos file ->
  exists file',
    getDigest env file n
    = Some (xxhash env
              (firstn (Z.to_nat n)
                 (skipn (Z.to_nat (fpos file)) (contents file))),
            file') /\
    contents file' = contents file.
Proof.
  intros Hpos. unfold getDigest.
  destruct (getDigestLoop_spec (S (length (contents file))) file [] 0 n Hpos)
    as (file' & Hrun & Hc).
  { unfold file_size_of. lia. }
  exists file'. rewrite Hrun, Z.sub_0_r. cbn [app]. now split.
Qed.

(** C4.  The change check returns [Truncated] when the file is empty or
    shorter than the fingerprint, when it cannot be opened, or when the
    digest computed again (header, then tail, in fast mode; the first
    [indexedHash.size] bytes otherwise) differs from the stored one; otherwise
    [DataAdded] when the file is longer than the fingerprint and [Unchanged]
    when it is as long.  The check leaves the store as it was. *)
Theorem change_check_classification (env : Environment) (d : IndexingData) :
  exceptionAt env = None ->
  0 <= tailOffset (getHash d) ->
  exists w',
    CheckFileChangesOperation_run env (startWorld d)
    = Ok (ResultStatus (classifyFile env (getHash d))) w' /\
    store w' = d /\
    events w' = [fileCheckFinished (classifyFile env (getHash d))].
Proof.
  intros Hexc Htail.
  unfold CheckFileChangesOperation_run, CheckFileChangesOperation_try,
    try_catch, doCheckFileChanges, bind, getStore, ret, emit, diverge.
  rewrite checkpoint_ok by exact Hexc. cbv beta iota.
  cbn [startWorld store oplog events polls stages].
  unfold classifyFile.
  set (h := getHash d) in *.
  set (c := disk_bytes env).
  destruct ((Z.of_nat (length c) =? 0) || (Z.of_nat (length c) <? size h));
    cbn [orb]; [eexists; repeat split|].
  destruct (disk_readable env); cbn [negb orb]; [|eexists; repeat split].
  destruct (fastModificationDetection env).
  - destruct (getDigest_spec env (mkQFile c 0) (headerSize h) ltac:(cbn; lia))
      as (file1 & Hd1 & Hc1).
    rewrite Hd1. cbn [contents fpos] in *. change (Z.to_nat 0) with 0%nat.
    cbn [skipn].
    destruct (xxhash env (firstn (Z.to_nat (headerSize h)) c) =? headerDigest h);
      cbn [negb orb]; [|eexists; repeat split].
    unfold seek. destruct (Z.ltb_spec (tailOffset h) 0) as [Hneg|_]; [lia|].
    destruct (getDigest_spec env (mkQFile (contents file1) (tailOffset h))
                (tailSize h) ltac:(cbn; lia)) as (file2 & Hd2 & Hc2).
    rewrite Hd2. cbn [contents fpos]. rewrite Hc1.
    destruct (xxhash env
                (firstn (Z.to_nat (tailSize h))
                   (skipn (Z.to_nat (tailOffset h)) c)) =? tailDigest h);
      cbn [negb]; [|eexists; repeat split].
    destruct (Z.of_nat (length c) >? size h); eexists; repeat split.
  - destruct (getDigest_spec env (mkQFile c 0) (size h) ltac:(cbn; lia))
      as (file1 & Hd1 & Hc1).
    rewrite Hd1. cbn [contents fpos] in *. change (Z.to_nat 0) with 0%nat.
    cbn [skipn].
    destruct (xxhash env (firstn (Z.to_nat (size h)) c) =? fullDigest h);
      cbn [negb]; [|eexists; repeat split].
    destruct (Z.of_nat (length c) >? size h); eexists; repeat split.
Qed.

Lemma doIndex_unreadable (env : Environment) (initialPosition : Z) (w : World) :
  exceptionAt env = None ->
  disk_readable env = false ->
  doIndex env initialPosition w
  = Ok tt
      (mkWorld
         (setProgress 100
            (setEncodingGuess (Some (codecForLocale env)) (clear env (store w))))
         (oplog w
          ++ [OpClear; OpSetEncodingGuess (Some (codecForLocale env));
              OpSetProgress 100])
         (events w ++ [indexingProgressed 100]) (polls w)
         (S (S (S (S (stages w)))))).
Proof.
  intros Hexc Hread. unfold doIndex, bind, emit.
  rewrite checkpoint_ok by exact Hexc. cbv beta iota. rewrite Hread. cbn [negb].
  rewrite mutate_ok by exact Hexc. cbv beta iota.
  rewrite mutate_ok by exact Hexc. cbv beta iota.
  rewrite mutate_ok by exact Hexc. cbv beta iota.
  cbn [store oplog events polls stages applyOp].
  rewrite <- !app_assoc. reflexivity.
Qed.

Lemma interruptRequest_mono (env : Environment) (n m : nat) :
  interruptRequest_ env n = true -> (n <= m)%nat ->
  interruptRequest_ env m = true.
Proof.
  unfold interruptRequest_. destruct (interruptSetAt env) as [k|]; [|discriminate].
  intros H Hle. apply Nat.leb_le in H. apply Nat.leb_le. lia.
Qed.

(** C8.  When the file cannot be opened, and no exception nor interrupt
    comes in, a full or partial index returns [Successful]; the store is the
    cleared one with the codec of the locale as encoding guess and a progress
    of 100, it holds no line, and the events are the progress 0, the progress
    100 and the successful end. *)
Theorem open_failure_yields_empty_index (env : Environment)
    (op : Operation) (d : IndexingData) :
  op <> CheckFileChanges ->
  disk_readable env = false ->
  exceptionAt env = None ->
  interruptRequest_ env 0 = false ->
  exists w',
    Operation_run env op (startWorld d) = Ok (ResultBool true) w' /\
    store w'
    = mkIndexingData 0 emptyIndexedHash [] emptyLinePositionArray
        (Some (codecForLocale env)) None 100 (fastModificationDetection env) /\
    getNbLines (store w') = 0%nat /\
    events w'
    = [indexingProgressed 0; indexingProgressed 100; indexingFinished true].
Proof.
  intros Hop Hread Hexc Hirq.
  destruct op as [forced| |]; [| |congruence]; cbn [Operation_run].
  - unfold FullIndexOperation_run, FullIndexOperation_try, try_catch, bind,
      emit, ret.
    cbn [startWorld store oplog events polls stages].
    rewrite mutate_ok by exact Hexc. cbv beta iota.
    rewrite mutate_ok by exact Hexc. cbv beta iota.
    rewrite doIndex_unreadable by assumption.
    rewrite poll_eq. cbn [store oplog events polls stages]. rewrite Hirq.
    eexists. split; [reflexivity|]. now repeat split.
  - unfold PartialIndexOperation_run, PartialIndexOperation_try, try_catch,
      bind, emit, ret, getStore.
    cbn [startWorld store oplog events polls stages].
    rewrite doIndex_unreadable by assumption.
    rewrite poll_eq. cbn [store oplog events polls stages]. rewrite Hirq.
    eexists. split; [reflexivity|]. now repeat split.
Qed.

(** C7, amended.  When the interrupt flag is set by the time the reader has
    finished, a reader that sees it reads no further block, the sentinel is
    still put last, and the full index returns [Interrupted] with a cleared
    store (the encoding guess being the codec of the locale): no fake final
    line feed is inserted, and the header and tail digests are still
    computed and stored just before the store is cleared. *)
Theorem interrupt_clears_store (env : Environment)
    (forced : option QTextCodec) (d : IndexingData) :
  exceptionAt env = None ->
  disk_readable env = true ->
  wf_params (encodingParametersOf env (chosenCodec env forced)) ->
  interruptRequest_ env (readerPolls env) = true ->
  (forall fuel file npolls,
      atEnd file = false ->
      interruptRequest_ env npolls = true ->
      readLoop (S fuel) env file npolls = ([], file, S npolls)) /\
  (forall file w,
      exists blocks file' w',
        readFileInBlocks env file w = Ok (blocks ++ [lastBlock], file') w') /\
  exists w' dg s dg' o s' before,
    FullIndexOperation_run env forced (startWorld d) = Ok (ResultBool false) w' /\
    store w' = setEncodingGuess (Some (codecForLocale env)) (clear env d) /\
    getNbLines (store w') = 0%nat /\
    oplog w'
    = before
      ++ [OpSetHeaderHash dg s; OpSetTailHash dg' o s'; OpClear;
          OpSetEncodingGuess (Some (codecForLocale env))] /\
    Forall (fun op => is_fake_insert op = false) (oplog w') /\
    last (events w') (indexingProgressed 0) = indexingFinished false.
Proof.
  intros Hexc Hread Hwf Hseen.
  split.
  { intros fuel file npolls Hend Hirq. cbn [readLoop]. now rewrite Hend, Hirq. }
  split.
  { intros file w. unfold readFileInBlocks.
    destruct (readLoop (length (contents file)) env file (polls w))
      as [[blocks file'] np].
    now do 3 eexists. }
  destruct (FullIndexOperation_run_ok env forced d Hexc Hread Hwf)
    as (blocks & file' & np & state1 & w1 & w2 & Eread & _ & _ & _ & Hinv
        & Hnp & Hfin & Hrun).
  unfold readerPolls in Hseen. rewrite Eread in Hseen.
  destruct (doIndex_finish_ok env file' state1 w1 Hexc)
    as (dg & s & dg' & o & s' & w2' & Hfin' & Hpolls & Hstore & Hevents & Hlog).
  rewrite Hfin in Hfin'. inversion Hfin'; subst w2'. clear Hfin'.
  rewrite Hnp in *.
  assert (Hb2 : interruptRequest_ env (S np) = true)
    by (apply (interruptRequest_mono env np); [exact Hseen | lia]).
  assert (Hb3 : interruptRequest_ env (polls w2) = true)
    by (apply (interruptRequest_mono env np); [exact Hseen | lia]).
  rewrite Hseen, Hb2 in Hstore, Hevents, Hlog.
  cbn [negb andb] in Hstore, Hevents, Hlog.
  change (getMaxLength (clear env
            (setTailHash dg' o s' (setHeaderHash dg s (store w1))))
          =? LineLength_max) with false in Hstore, Hevents, Hlog.
  cbv iota in Hstore, Hevents, Hlog. cbn [app] in Hlog.
  change (getEncodingGuess (clear env
            (setTailHash dg' o s' (setHeaderHash dg s (store w1)))))
    with (@None QTextCodec) in Hstore, Hlog.
  cbv iota in Hstore, Hlog.
  rewrite Hb3 in Hrun. cbn [negb] in Hrun.
  eexists. exists dg, s, dg', o, s', (oplog w1).
  split; [exact Hrun|]. cbn [store oplog events].
  split; [rewrite Hstore; reflexivity|].
  split; [rewrite Hstore; reflexivity|].
  split; [exact Hlog|]. split.
  - rewrite Hlog. apply Forall_app. split; [apply Hinv|]. repeat constructor.
  - rewrite last_last. reflexivity.
Qed.

(** C10.  [addAll] with an empty block changes neither the fingerprint nor the
    hash builder: only the line positions, the maximal length and the encoding
    guess.  After a full index of a file that does not end with a line feed
    (single-byte encoding), the indexed size is the size of the file although
    the last offset is the file size plus one, and a partial index that
    follows starts [doIndex] at the size of the file. *)
Theorem empty_block_keeps_fingerprint (env : Environment)
    (forced : option QTextCodec) (d : IndexingData) :
  exceptionAt env = None ->
  interruptSetAt env = None ->
  disk_readable env = true ->
  wf_params (encodingParametersOf env (chosenCodec env forced)) ->
  lineFeedWidth (encodingParametersOf env (chosenCodec env forced)) = 1 ->
  ends_without_lf (disk_bytes env) = true ->
  (forall len lp enc st,
      let st' := addAll env [] len lp enc st in
      hash_ st' = hash_ st /\ hashBuilder_ st' = hashBuilder_ st /\
      encodingForced_ st' = encodingForced_ st /\
      progress_ st' = progress_ st /\
      useFastModificationDetection_ st' = useFastModificationDetection_ st /\
      linePosition_ st' = append_list (linePosition_ st) lp /\
      maxLength_ st' = Z.max (maxLength_ st) len /\
      encodingGuess_ st' = enc) /\
  exists w',
    FullIndexOperation_run env forced (startWorld d) = Ok (ResultBool true) w' /\
    (~ In linesTooLong (events w') ->
     getIndexedSize (store w') = Z.of_nat (length (disk_bytes env)) /\
     last (offsets (linePosition_ (store w'))) 0
     = Z.of_nat (length (disk_bytes env)) + 1 /\
     forall env2,
       PartialIndexOperation_try env2 (startWorld (store w'))
       = (emit (indexingProgressed 0) ;;
          doIndex env2 (Z.of_nat (length (disk_bytes env))) ;;
          interrupted <- poll env2 ;;
          emit (indexingFinished (if interrupted then false else true)) ;;
          ret (ResultBool (if interrupted then false else true)))
           (startWorld (store w'))).
Proof.
  intros Hexc Hirq Hread Hwf Hw1 Hends. split.
  { intros len lp enc st. cbn. now repeat split. }
  destruct (full_index_single_byte env forced d Hexc Hirq Hread Hwf Hw1)
    as (w' & Hrun & Hres).
  exists w'. split; [exact Hrun|]. intros Hquiet.
  destruct (Hres Hquiet) as (HO & _ & Hsize).
  split; [exact Hsize|]. split.
  - rewrite HO, Hends, last_app_default. reflexivity.
  - intros env2. unfold PartialIndexOperation_try.
    unfold bind at 1. unfold getStore at 1. cbn [startWorld store].
    now rewrite Hsize.
Qed.

(** C3.  For a multi-byte encoding, what [findNextMultiByteDelimeter]
    returns is the first candidate byte whose [lineFeedWidth - 1] neighbours
    (forward when [lineFeedIndex] is 0, backward otherwise) all lie within
    the slice and are all zero: every earlier candidate fails that test, and
    [npos] is returned exactly when every candidate fails it.  A full index
    of the bytes 41 00 0A 01 0A 00 42 00 0A 00 as UTF-16LE gives two lines,
    with the offsets 6 and 10. *)
Theorem multi_byte_delimiter_needs_zero_neighbours (p : EncodingParameters)
    (data : list byte) (delimeter : byte) :
  1 < lineFeedWidth p ->
  first_index data delimeter (neighboursZero p data) 0
    (findNextMultiByteDelimeter p data delimeter) /\
  forall d fast,
    exists w',
      FullIndexOperation_run
        (exampleEnv [x41; x00; x0a; x01; x0a; x00; x42; x00; x0a; x00] fast
           None None)
        (Some "UTF-16LE"%string) (startWorld d)
      = Ok (ResultBool true) w' /\
      getNbLines (store w') = 2%nat /\
      linePosition_ (store w') = mkLinePositionArray [6; 10] false.
Proof.
  intros _. split; [apply findNextMultiByteDelimeter_spec|].
  intros d fast.
  destruct fast; eexists;
    (split; [vm_compute; reflexivity | split; vm_compute; reflexivity]).
Qed.

(** C5.  The expander adds, for every tab that the scanner finds in the
    line, [TabStop - (column mod TabStop) - 1] to the count of additional
    spaces, where the column is [(tab position - line start)] plus the
    additional spaces counted so far: what [expandTabsInLine] returns is the
    count so obtained over the tabs found, in their order, as long as no tab
    lies before the start of the line and the count stays within an [int].
    The single-byte scanner finds every TAB byte of the line.  A full index
    of the four bytes "a", TAB, "b", LF gives one line and a maximal length
    of 9. *)
Theorem tab_expands_to_next_tab_stop (find : FindDelimeter)
    (p : EncodingParameters) (view : string_view) (lineStart acc : Z) :
  let tabs := tabsFound find p view in
  Forall (fun t => lineStart <= t) tabs ->
  0 <= acc ->
  acc + (TabStop - 1) * Z.of_nat (length tabs) <= LineLength_max ->
  expandTabsInLine view lineStart p find acc
  = spacesAfterTabs tabs lineStart acc /\
  tabsFound findNextSingleByteDelimeter p view
  = tab_positions (sv_bytes view) (charOffsetWithinBlock (sv_ptr view) p) /\
  forall d fast,
    exists w',
      FullIndexOperation_run
        (exampleEnv ["a"%byte; x09; "b"%byte; x0a] fast None None) None
        (startWorld d)
      = Ok (ResultBool true) w' /\
      getNbLines (store w') = 1%nat /\
      getMaxLength (store w') = 9.
Proof.
  intros tabs Htabs Hacc Hmax. split; [|split].
  - apply expandTabsLoop_spaces; assumption.
  - apply tabsFound_single_byte. apply Nat.le_refl.
  - intros d fast.
    destruct fast; eexists;
      (split; [vm_compute; reflexivity | split; vm_compute; reflexivity]).
Qed.

Lemma full_index_line_count_witness :
  exists w',
    FullIndexOperation_run (exampleEnv hello false None None) None
      (startWorld emptyIndexingData) = Ok (ResultBool true) w' /\
    getNbLines (store w') = 1%nat /\
    offsets (linePosition_ (store w')) = [6] /\
    fakeFinalLF (linePosition_ (store w')) = true.
Proof.
  destruct (full_index_line_count (exampleEnv hello false None None) None
              emptyIndexingData)
    as (w' & Hrun & Hres);
    [reflexivity | reflexivity | reflexivity | (vm_compute; lia) | reflexivity |].
  exists w'. split; [exact Hrun|].
  vm_compute in Hrun. injection Hrun as <-.
  vm_compute. repeat split.
Defined.

Lemma multi_byte_delimiter_needs_zero_neighbours_witness :
  1 < lineFeedWidth (mkEncodingParameters 2 0) /\
  first_index [x41; x00; x0a; x01; x0a; x00] LF
    (neighboursZero (mkEncodingParameters 2 0)
       [x41; x00; x0a; x01; x0a; x00]) 0
    (findNextMultiByteDelimeter (mkEncodingParameters 2 0)
       [x41; x00; x0a; x01; x0a; x00] LF) /\
  findNextMultiByteDelimeter (mkEncodingParameters 2 0)
    [x41; x00; x0a; x01; x0a; x00] LF = Some 4%nat.
Proof.
  split; [reflexivity|]. split; [|reflexivity].
  apply (multi_byte_delimiter_needs_zero_neighbours (mkEncodingParameters 2 0)
           [x41; x00; x0a; x01; x0a; x00] LF).
  reflexivity.
Defined.

Lemma change_check_classification_witness :
  exists w',
    CheckFileChangesOperation_run
      (exampleEnv (hello ++ threeLines) false None None) (startWorld helloStore)
    = Ok (ResultStatus DataAdded) w' /\
    store w' = helloStore.
Proof.
  destruct (change_check_classification
              (exampleEnv (hello ++ threeLines) false None None) helloStore)
    as (w' & Hrun & Hstore & _); [reflexivity | (vm_compute; discriminate) |].
  exists w'. split; [exact Hrun | exact Hstore].
Defined.

Lemma tab_expands_to_next_tab_stop_witness :
  expandTabsInLine
    (mk_view 0 ["a"%byte; x09; "b"%byte; "c"%byte; x09; "d"%byte]) 0
    (mkEncodingParameters 1 0) findNextSingleByteDelimeter 0
  = 11 /\
  tabsFound findNextSingleByteDelimeter (mkEncodingParameters 1 0)
    (mk_view 0 ["a"%byte; x09; "b"%byte; "c"%byte; x09; "d"%byte])
  = [1; 4].
Proof.
  destruct (tab_expands_to_next_tab_stop findNextSingleByteDelimeter
              (mkEncodingParameters 1 0)
              (mk_view 0 ["a"%byte; x09; "b"%byte; "c"%byte; x09; "d"%byte])
              0 0)
    as (Hspaces & Htabs & _);
    [ (vm_compute; repeat constructor; discriminate) | lia
    | (vm_compute; discriminate) | ].
  split; [exact Hspaces | exact Htabs].
Defined.

Lemma fingerprint_size_follows_hash_builder_witness :
  exists w',
    Operation_run (exampleEnv threeLines true None None) (FullIndex None)
      (startWorld emptyIndexingData) = Ok (ResultBool true) w' /\
    store w'
    = replay (exampleEnv threeLines true None None) (oplog w')
        emptyIndexingData /\
    size (hash_ (store w')) = 9 /\
    hashBuilder_ (store w') = [].
Proof.
  eexists. split; [vm_compute; reflexivity|].
  destruct (fingerprint_size_follows_hash_builder
              (exampleEnv threeLines true None None) (FullIndex None)
              emptyIndexingData (ResultBool true) _ eq_refl
              ltac:(vm_compute; reflexivity)) as [Hstore Hinv].
  split; [exact Hstore|]. vm_compute. split; reflexivity.
Defined.

Lemma interrupt_clears_store_witness :
  exists w',
    FullIndexOperation_run (exampleEnv threeLines false (Some 0%nat) None) None
      (startWorld helloStore) = Ok (ResultBool false) w' /\
    getNbLines (store w') = 0%nat.
Proof.
  destruct (interrupt_clears_store
              (exampleEnv threeLines false (Some 0%nat) None) None helloStore)
    as (_ & _ & w' & dg & s & dg' & o & s' & before & Hrun & _ & Hlines & _);
    [reflexivity | reflexivity | (vm_compute; lia) | reflexivity |].
  exists w'. split; [exact Hrun | exact Hlines].
Defined.

Lemma open_failure_yields_empty_index_witness :
  exists w',
    Operation_run
      (mkEnvironment [] false false "UTF-8"%string (fun _ => "UTF-8"%string)
         (fun _ => mkEncodingParameters 1 0) (fun _ => 0) None None)
      PartialIndex (startWorld helloStore) = Ok (ResultBool true) w' /\
    getNbLines (store w') = 0%nat.
Proof.
  destruct (open_failure_yields_empty_index
              (mkEnvironment [] false false "UTF-8"%string
                 (fun _ => "UTF-8"%string) (fun _ => mkEncodingParameters 1 0)
                 (fun _ => 0) None None)
              PartialIndex helloStore)
    as (w' & Hrun & _ & Hlines & _);
    [discriminate | reflexivity | reflexivity | reflexivity |].
  exists w'. split; [exact Hrun | exact Hlines].
Defined.

Lemma empty_block_keeps_fingerprint_witness :
  exists w',
    FullIndexOperation_run (exampleEnv hello false None None) None
      (startWorld emptyIndexingData) = Ok (ResultBool true) w' /\
    getIndexedSize (store w') = 5 /\
    last (offsets (linePosition_ (store w'))) 0 = 6.
Proof.
  destruct (empty_block_keeps_fingerprint (exampleEnv hello false None None)
              None emptyIndexingData)
    as (_ & w' & Hrun & Hres);
    [reflexivity | reflexivity | reflexivity | (vm_compute; lia) | reflexivity
    | reflexivity |].
  exists w'. split; [exact Hrun|].
  vm_compute in Hrun. injection Hrun as <-.
  vm_compute. now split.
Defined.

(** C6, as the specification states it, fails in fast mode. *)
Lemma fast_mode_size_without_hashed_bytes :
  exists w',
    Operation_run (exampleEnv hello true None None) (FullIndex None)
      (startWorld emptyIndexingData) = Ok (ResultBool true) w' /\
    size (hash_ (store w')) = 5 /\
    hashBuilder_ (store w') = [] /\
    size (hash_ (store w')) <> Z.of_nat (length (hashBuilder_ (store w'))).
Proof.
  eexists. split; [vm_compute; reflexivity|].
  split; [reflexivity|]. split; [reflexivity|]. vm_compute. discriminate.
Qed.

(** C7, as the specification states it, fails: an interrupted run computes
    the header and tail digests all the same. *)
Lemma interrupted_run_rehashes :
  exists w',
    FullIndexOperation_run (exampleEnv hello false (Some 0%nat) None) None
      (startWorld emptyIndexingData) = Ok (ResultBool false) w' /\
    In (OpSetHeaderHash 5 5) (oplog w') /\
    In (OpSetTailHash 5 0 5) (oplog w').
Proof.
  eexists. split; [vm_compute; reflexivity|].
  split; vm_compute; tauto.
Qed.

(** C9, as the specification states it, fails for the change check: the
    exception is caught, and the store is left as it was. *)
Lemma check_exception_keeps_store :
  exists w',
    Operation_run
      (exampleEnv hello false None (Some (0%nat, "std::bad_alloc"%string)))
      CheckFileChanges (startWorld helloStore)
    = Ok (ResultStatus Truncated) w' /\
    store w' = helloStore /\
    store w'
    <> clear (exampleEnv hello false None
                (Some (0%nat, "std::bad_alloc"%string))) helloStore.
Proof.
  eexists. split; [vm_compute; reflexivity|].
  split; [reflexivity|]. vm_compute. discriminate.
Qed.

(** An interrupt that comes in after the checks of [doIndex], just before
    [FullIndexOperation::run] reads the flag for its result: the run reports
    [Interrupted], and the store keeps the index. *)
Lemma late_interrupt_keeps_index :
  exists w',
    FullIndexOperation_run (exampleEnv hello false (Some 3%nat) None) None
      (startWorld emptyIndexingData) = Ok (ResultBool false) w' /\
    getNbLines (store w') = 1%nat /\
    getIndexedSize (store w') = 5.
Proof.
  eexists. split; [vm_compute; reflexivity|]. split; reflexivity.
Qed.

(** * Further properties of the code *)

Lemma first_index_unique (data : list byte) (c : byte) (ok1 ok2 : nat -> Prop)
    (from : nat) (r1 r2 : option nat) :
  (forall n, (n < length data)%nat -> (ok1 n <-> ok2 n)) ->
  first_index data c ok1 from r1 ->
  first_index data c ok2 from r2 ->
  r1 = r2.
Proof.
  intros Hiff H1 H2. destruct r1 as [n1|], r2 as [n2|]; cbn in H1, H2.
  - destruct H1 as (Hn1 & Hc1 & Hok1 & Hb1), H2 as (Hn2 & Hc2 & Hok2 & Hb2).
    f_equal. destruct (Nat.lt_trichotomy n1 n2) as [Hlt|[Heq|Hgt]];
      [|exact Heq|].
    + exfalso. apply (Hb2 n1); [lia | exact Hc1 | apply Hiff; [lia | exact Hok1]].
    + exfalso. apply (Hb1 n2); [lia | exact Hc2 | apply Hiff; [lia | exact Hok2]].
  - destruct H1 as (Hn1 & Hc1 & Hok1 & _). exfalso.
    apply (H2 n1); [lia | exact Hc1 | apply Hiff; [lia | exact Hok1]].
  - destruct H2 as (Hn2 & Hc2 & Hok2 & _). exfalso.
    apply (H1 n2); [lia | exact Hc2 | apply Hiff; [lia | exact Hok2]].
  - reflexivity.
Qed.

(** X1.  For an encoding whose line feed is one byte wide, the multi-byte
    scanner finds exactly what the single-byte scanner finds: with no
    neighbouring byte to check, it rejects no candidate. *)
Theorem multi_byte_scanner_at_width_one (p : EncodingParameters)
    (data : list byte) (delimeter : byte) :
  lineFeedWidth p = 1 ->
  findNextMultiByteDelimeter p data delimeter
  = findNextSingleByteDelimeter p data delimeter.
Proof.
  intros Hw.
  apply (first_index_unique data delimeter (neighboursZero p data)
           (fun _ => True) 0).
  - intros n Hn. unfold neighboursZero. rewrite Hw.
    change (Z.to_nat 1) with 1%nat.
    destruct (lineFeedIndex p =? 0); split; intros _; try exact I;
      (split; [lia | intros i Hi; lia]).
  - apply findNextMultiByteDelimeter_spec.
  - apply sv_find_spec.
Qed.

Lemma multi_byte_scanner_at_width_one_witness :
  findNextMultiByteDelimeter (mkEncodingParameters 1 0)
    ["a"%byte; x0a; "b"%byte] LF
  = findNextSingleByteDelimeter (mkEncodingParameters 1 0)
      ["a"%byte; x0a; "b"%byte] LF.
Proof.
  apply (multi_byte_scanner_at_width_one (mkEncodingParameters 1 0)
           ["a"%byte; x0a; "b"%byte] LF).
  reflexivity.
Defined.

Lemma chain_In_gt (lo : Z) (xs : list Z) (o : Z) :
  chain lo xs -> In o xs -> lo < o.
Proof.
  intros Hc Hin. pose proof (chain_Forall _ _ Hc) as HF.
  rewrite Forall_forall in HF. now apply HF.
Qed.

Lemma chain_In_le_last (xs : list Z) :
  forall lo d o, chain lo xs -> In o xs -> o <= last xs d.
Proof.
  induction xs as [|x rest IH]; intros lo d o Hc Hin; [destruct Hin|].
  destruct Hc as [Hx Hc]. rewrite last_cons_default.
  destruct Hin as [<-|Hin].
  - apply (chain_last_le _ _ Hc).
  - apply (IH x x o Hc Hin).
Qed.

(** X2.  [parseDataBlock] comes to an end on every block that an [int] can
    address, for every well-formed encoding and from every state.  The
    offsets it emits are strictly increasing, lie above both the position of
    the state and the beginning of the block, and are at most the end of the
    block; it leaves [state.pos] on the last offset emitted and does not
    touch the encoding parameters or the file size.  When the state is
    already beyond the block, it emits nothing and leaves the state as it
    was. *)
Theorem parseDataBlock_emits_offsets_inside_block (blockBeginning : Z)
    (block : list byte) (state : IndexingState) :
  Z.of_nat (length block) < 2147483648 ->
  wf_params (encodingParams state) ->
  exists new state',
    parseDataBlock blockBeginning block state
    = Some (mkLinePositionArray new false, state') /\
    strictly_increasing new /\
    (forall o, In o new ->
               Z.max (pos state) blockBeginning < o
               <= blockBeginning + Z.of_nat (length block)) /\
    pos state' = last new (pos state) /\
    encodingParams state' = encodingParams state /\
    file_size state' = file_size state /\
    (pos state > blockBeginning + Z.of_nat (length block) ->
     new = [] /\ state' = state).
Proof.
  intros Hsize Hwf.
  destruct (Z_gt_le_dec (pos state) (blockBeginning + Z.of_nat (length block)))
    as [Hout|Hin].
  - exists [], state. split.
    + unfold parseDataBlock. cbv zeta. now apply parseLoop_out_of_block.
    + split; [intros i j Hij; simpl in Hij; lia|].
      split; [intros o []|]. now repeat split.
  - destruct (parseDataBlock_result blockBeginning block state Hsize Hwf Hin)
      as (new & state' & Hrun & Hsame & Hchain & Hlast & Hle & _).
    exists new, state'. split; [exact Hrun|].
    split; [eapply chain_increasing; exact Hchain|].
    split.
    { intros o Ho. split; [eapply chain_In_gt; eassumption|].
      pose proof (chain_In_le_last new _ (pos state) o Hchain Ho). lia. }
    split; [exact Hlast|]. split; [apply Hsame|]. split; [apply Hsame|].
    intros Hout. lia.
Qed.

Lemma parseDataBlock_emits_offsets_inside_block_witness :
  exists new state',
    parseDataBlock 0 [x00; x41; x00; x0a; x00; x42]
      (mkIndexingState (mkEncodingParameters 2 1) 0 0 0 0 6 None None)
    = Some (mkLinePositionArray new false, state') /\
    pos state' = last new 0.
Proof.
  destruct (parseDataBlock_emits_offsets_inside_block 0
              [x00; x41; x00; x0a; x00; x42]
              (mkIndexingState (mkEncodingParameters 2 1) 0 0 0 0 6 None None))
    as (new & state' & Hrun & _ & _ & Hlast & _);
    [(simpl; lia) | (unfold wf_params; simpl; lia) |].
  exists new, state'. split; [exact Hrun | exact Hlast].
Defined.

(** X3.  Blocks compose.  For an encoding with a one-byte line feed, parsing
    a block and then the block that follows it in the file emits, one after
    the other, the offsets that parsing the two as a single block emits, and
    ends at the same position: where the reader cuts the file does not
    matter. *)
Theorem parseDataBlock_split (blockBeginning : Z) (block1 block2 : list byte)
    (state : IndexingState) :
  Z.of_nat (length (block1 ++ block2)) < 2147483648 ->
  wf_params (encodingParams state) ->
  lineFeedWidth (encodingParams state) = 1 ->
  pos state <= blockBeginning + Z.of_nat (length block1) ->
  exists new1 state1 new2 state2 state',
    parseDataBlock blockBeginning block1 state
    = Some (mkLinePositionArray new1 false, state1) /\
    parseDataBlock (blockBeginning + Z.of_nat (length block1)) block2 state1
    = Some (mkLinePositionArray new2 false, state2) /\
    parseDataBlock blockBeginning (block1 ++ block2) state
    = Some (mkLinePositionArray (new1 ++ new2) false, state') /\
    pos state' = pos state2.
Proof.
  intros Hsize Hwf Hw1 Hin.
  rewrite length_app in Hsize.
  destruct (parseDataBlock_result blockBeginning block1 state
              ltac:(lia) Hwf Hin)
    as (new1 & state1 & Hrun1 & Hsame1 & _ & Hlast1 & Hle1 & Hexact1).
  assert (Hp1 : encodingParams state1 = encodingParams state) by apply Hsame1.
  destruct (parseDataBlock_result (blockBeginning + Z.of_nat (length block1))
              block2 state1 ltac:(lia) ltac:(now rewrite Hp1) ltac:(lia))
    as (new2 & state2 & Hrun2 & _ & _ & Hlast2 & _ & Hexact2).
  destruct (parseDataBlock_result blockBeginning (block1 ++ block2) state
              ltac:(rewrite length_app; lia) Hwf
              ltac:(rewrite length_app; lia))
    as (new & state' & Hrun & _ & _ & Hlast & _ & Hexact).
  specialize (Hexact1 Hw1). rewrite Hp1 in Hexact2. specialize (Hexact2 Hw1).
  specialize (Hexact Hw1).
  set (k := Z.max 0 (pos state - blockBeginning)) in *.
  assert (Hk : (Z.to_nat k <= length block1)%nat) by (subst k; lia).
  assert (Hnew : new = new1 ++ new2).
  { rewrite Hexact, Hexact1, Hexact2.
    rewrite skipn_app.
    replace (Z.to_nat k - length block1)%nat with 0%nat by lia.
    cbn [skipn]. rewrite lf_offsets_app, length_skipn. f_equal.
    replace (Z.max 0 (pos state1 - (blockBeginning + Z.of_nat (length block1))))
      with 0 by lia.
    change (Z.to_nat 0) with 0%nat. cbn [skipn]. f_equal. subst k. lia. }
  exists new1, state1, new2, state2, state'.
  split; [exact Hrun1|]. split; [exact Hrun2|].
  split; [now rewrite <- Hnew|].
  rewrite Hlast, Hlast2, Hlast1, Hnew. apply last_app_default.
Qed.

Lemma parseDataBlock_split_witness :
  exists new1 state1 new2 state2 state',
    parseDataBlock 0 ["a"%byte; x0a; "b"%byte]
      (mkIndexingState (mkEncodingParameters 1 0) 0 0 0 0 5 None None)
    = Some (mkLinePositionArray new1 false, state1) /\
    parseDataBlock 3 ["b"%byte; x0a] state1
    = Some (mkLinePositionArray new2 false, state2) /\
    parseDataBlock 0 (["a"%byte; x0a; "b"%byte] ++ ["b"%byte; x0a])
      (mkIndexingState (mkEncodingParameters 1 0) 0 0 0 0 5 None None)
    = Some (mkLinePositionArray (new1 ++ new2) false, state') /\
    pos state' = pos state2.
Proof.
  apply (parseDataBlock_split 0 ["a"%byte; x0a; "b"%byte] ["b"%byte; x0a]
           (mkIndexingState (mkEncodingParameters 1 0) 0 0 0 0 5 None None));
    [(simpl; lia) | (unfold wf_params; simpl; lia) | reflexivity | (simpl; lia)].
Defined.

Lemma chosenScanner_hit (p : EncodingParameters) (view : list byte)
    (c : byte) (i : nat) :
  chosenScanner p p view c = Some i -> sv_at view i = c.
Proof.
  intros Hfind. unfold chosenScanner in Hfind.
  destruct (lineFeedWidth p =? 1).
  - unfold findNextSingleByteDelimeter in Hfind.
    pose proof (sv_find_spec view c 0) as Hs. rewrite Hfind in Hs.
    now destruct Hs as (_ & Hc & _).
  - pose proof (findNextMultiByteDelimeter_spec p view c) as Hs.
    rewrite Hfind in Hs. now destruct Hs as (_ & Hc & _).
Qed.

Lemma count_occ_skipn_hit (v : list byte) (c : byte) (i : nat) :
  (i < length v)%nat ->
  sv_at v i = c ->
  (count_occ Byte.byte_eq_dec (skipn (i + 1) v) c
   < count_occ Byte.byte_eq_dec v c)%nat.
Proof.
  unfold sv_at. rewrite Nat.add_1_r. revert i.
  induction v as [|b rest IH]; intros i Hi Hc.
  - simpl in Hi. lia.
  - destruct i as [|i].
    + simpl in Hc. subst b. cbn [skipn].
      rewrite count_occ_cons_eq by reflexivity. apply Nat.lt_succ_diag_r.
    + cbn [skipn]. simpl in Hc, Hi.
      specialize (IH i ltac:(lia) Hc).
      destruct (Byte.byte_eq_dec b c) as [E|E].
      * rewrite count_occ_cons_eq by exact E. apply Nat.lt_lt_succ_r, IH.
      * rewrite count_occ_cons_neq by exact E. exact IH.
Qed.

Lemma expandTabs_bounded_from (p : EncodingParameters) (lineStart : Z) :
  wf_params p ->
  forall (n : nat) (v : list byte) (ptr acc : Z),
    (length v <= n)%nat ->
    lineStart <= ptr ->
    0 <= acc ->
    acc + (TabStop - 1) * Z.of_nat (count_occ Byte.byte_eq_dec v TAB)
    <= LineLength_max ->
    acc <= expandTabsInLine (mk_view ptr v) lineStart p (chosenScanner p) acc
    <= acc + (TabStop - 1) * Z.of_nat (count_occ Byte.byte_eq_dec v TAB).
Proof.
  intros Hwf. induction n as [|n IH]; intros v ptr acc Hlen Hptr Hacc Hmax.
  - destruct v; [|simpl in Hlen; lia]. unfold expandTabsInLine. simpl. lia.
  - destruct (chosenScanner p p v TAB) as [nextTab|] eqn:Efind.
    + destruct (chosenScanner_advance p v TAB nextTab Hwf Efind)
        as (Hlt & Hbco & _).
      pose proof (chosenScanner_hit p v TAB nextTab Efind) as Hhit.
      rewrite (expandTabsInLine_tab _ p ptr lineStart acc v nextTab Efind Hlt).
      set (column := ptr + Z.of_nat nextTab - getBeforeCrOffset p
                     - lineStart + acc).
      assert (Hcol : 0 <= column) by (subst column; lia).
      pose proof (Z.rem_bound_pos column TabStop Hcol ltac:(unfold TabStop; lia))
        as Hrem.
      pose proof (count_occ_skipn_hit v TAB nextTab Hlt Hhit) as Hcount.
      assert (Hfit : acc + (TabStop - Z.rem column TabStop - 1)
                     + (TabStop - 1)
                       * Z.of_nat (count_occ Byte.byte_eq_dec
                                     (skipn (nextTab + 1) v) TAB)
                     <= LineLength_max)
        by (unfold TabStop in *; nia).
      rewrite static_cast_int_small
        by (unfold TabStop, LineLength_max in *; nia).
      specialize (IH (skipn (nextTab + 1) v)
                    (ptr + Z.of_nat (nextTab + 1))
                    (acc + (TabStop - Z.rem column TabStop - 1))
                    ltac:(rewrite length_skipn; lia) ltac:(lia) ltac:(lia)
                    Hfit).
      unfold TabStop in *. nia.
    + rewrite expandTabsInLine_no_tab by exact Efind. unfold TabStop. lia.
Qed.

(** X4.  Tab expansion only adds columns, and at most [TabStop - 1] for each
    tab of the line: from a view that does not begin before the line and a
    count of additional spaces that is not negative, and as long as that
    count plus [TabStop - 1] for each TAB byte of the view stays within an
    [int], [expandTabsInLine] returns a count between the initial one and
    the initial one plus [TabStop - 1] times the number of TAB bytes of the
    view.  Beyond that limit the count wraps around: from 2147483647, the
    two bytes "a", TAB give -2147483642. *)
Theorem expandTabsInLine_bounds (p : EncodingParameters) (v : list byte)
    (ptr lineStart acc : Z) :
  wf_params p ->
  lineStart <= ptr ->
  0 <= acc ->
  acc + (TabStop - 1) * Z.of_nat (count_occ Byte.byte_eq_dec v TAB)
  <= LineLength_max ->
  acc <= expandTabsInLine (mk_view ptr v) lineStart p (chosenScanner p) acc
  <= acc + (TabStop - 1) * Z.of_nat (count_occ Byte.byte_eq_dec v TAB) /\
  expandTabsInLine (mk_view 0 ["a"%byte; x09]) 0 (mkEncodingParameters 1 0)
    (chosenScanner (mkEncodingParameters 1 0)) 2147483647
  = -2147483642.
Proof.
  intros Hwf Hptr Hacc Hmax. split; [|reflexivity].
  now apply (expandTabs_bounded_from p lineStart Hwf (length v)).
Qed.

Lemma expandTabsInLine_bounds_witness :
  0 <= expandTabsInLine (mk_view 0 ["a"%byte; x09; "b"%byte; x09]) 0
         (mkEncodingParameters 1 0)
         (chosenScanner (mkEncodingParameters 1 0)) 0
  <= 0 + (TabStop - 1)
         * Z.of_nat (count_occ Byte.byte_eq_dec ["a"%byte; x09; "b"%byte; x09] TAB).
Proof.
  apply (expandTabsInLine_bounds (mkEncodingParameters 1 0)
           ["a"%byte; x09; "b"%byte; x09] 0 0 0);
    [(unfold wf_params; simpl; lia) | lia | lia | (vm_compute; discriminate)].
Defined.

Lemma contiguous_blocks (c : list byte) :
  forall blocks p q,
    0 <= p ->
    contiguous c p blocks q ->
    p <= q /\
    concat (map snd blocks)
    = firstn (Z.to_nat (q - p)) (skipn (Z.to_nat p) c) /\
    Forall (fun b : BlockData =>
              0 <= fst b /\ snd b <> [] /\
              Z.of_nat (length (snd b)) <= IndexingBlockSize) blocks /\
    (forall pre b post,
        blocks = pre ++ b :: post ->
        fst b = p + Z.of_nat (length (concat (map snd pre)))).
Proof.
  induction blocks as [|[bb data] rest IH]; intros p q Hp Hcont.
  - cbn in Hcont. subst q. rewrite Z.sub_diag.
    split; [lia|]. split; [reflexivity|]. split; [constructor|].
    intros pre b post H. now destruct pre.
  - cbn [contiguous] in Hcont. destruct Hcont as (-> & Hne & Hdata & Hcont).
    assert (Hp' : 0 <= p + Z.of_nat (length data)) by lia.
    destruct (IH _ _ Hp' Hcont) as (Hle & Hcat & Hall & Hbeg).
    assert (Hlen : Z.of_nat (length data) <= IndexingBlockSize).
    { rewrite Hdata, length_firstn, <- blockSize_Z. lia. }
    split; [lia|]. split; [|split].
    + cbn [map concat snd]. rewrite Hcat.
      replace (Z.to_nat (p + Z.of_nat (length data)))
        with (length data + Z.to_nat p)%nat by lia.
      rewrite <- skipn_skipn.
      replace (Z.to_nat (q - p))
        with (length data + Z.to_nat (q - (p + Z.of_nat (length data))))%nat
        by lia.
      rewrite firstn_add_skipn. f_equal.
      rewrite Hdata at 1. rewrite Hdata at 1.
      now rewrite firstn_length_firstn.
    + constructor; [cbn [fst snd]; now repeat split | exact Hall].
    + intros pre b post H. destruct pre as [|b0 pre].
      * cbn in H. inversion H; subst. cbn. lia.
      * cbn [app] in H. inversion H; subst b0 rest.
        rewrite (Hbeg pre b post eq_refl). cbn [map concat snd].
        rewrite length_app. lia.
Qed.

Lemma readLoop_store_free (env : Environment) (file : QFile) (w : World) :
  forall blocks file' np,
    readLoop (length (contents file)) env file (polls w) = (blocks, file', np) ->
    readFileInBlocks env file w
    = Ok (blocks ++ [lastBlock], file')
        (mkWorld (store w) (oplog w) (events w) np (stages w)).
Proof.
  intros blocks file' np H. unfold readFileInBlocks. now rewrite H.
Qed.

Lemma readFileInBlocks_blocks (env : Environment) (file : QFile)
    (w : World) :
  0 <= fpos file ->
  exists blocks file' w',
    readFileInBlocks env file w = Ok (blocks ++ [lastBlock], file') w' /\
    Forall (fun b : BlockData =>
              0 <= fst b /\ snd b <> [] /\
              Z.of_nat (length (snd b)) <= IndexingBlockSize) blocks.
Proof.
  intros Hpos.
  destruct (readLoop (length (contents file)) env file (polls w))
    as [[blocks file'] np] eqn:Eread.
  destruct (readLoop_contiguous env _ _ _ _ _ _ Eread Hpos)
    as (_ & Hcont & _).
  destruct (contiguous_blocks _ _ _ _ Hpos Hcont) as (_ & _ & Hfor & _).
  exists blocks, file', (mkWorld (store w) (oplog w) (events w) np (stages w)).
  split; [now apply readLoop_store_free | exact Hfor].
Qed.

(** X5.  The reader cuts the file into blocks without losing, repeating or
    reordering a byte.  From a position that is not negative,
    [readFileInBlocks] returns, before its sentinel, blocks that are not
    empty and hold at most [IndexingBlockSize] bytes, each labelled with the
    position of its first byte; their concatenation is the part of the file
    between the initial position and the position of the file afterwards,
    and it is all the rest of the file when nobody interrupts.  The reader
    touches neither the store nor the events. *)
Theorem readFileInBlocks_covers_file (env : Environment) (file : QFile)
    (w : World) :
  0 <= fpos file ->
  exists blocks file' w',
    readFileInBlocks env file w = Ok (blocks ++ [lastBlock], file') w' /\
    store w' = store w /\ oplog w' = oplog w /\ events w' = events w /\
    contents file' = contents file /\
    fpos file <= fpos file' /\
    concat (map snd blocks)
    = firstn (Z.to_nat (fpos file' - fpos file))
        (skipn (Z.to_nat (fpos file)) (contents file)) /\
    Forall (fun b : BlockData =>
              0 <= fst b /\ snd b <> [] /\
              Z.of_nat (length (snd b)) <= IndexingBlockSize) blocks /\
    (forall pre b post,
        blocks = pre ++ b :: post ->
        fst b = fpos file + Z.of_nat (length (concat (map snd pre)))) /\
    (interruptSetAt env = None ->
     concat (map snd blocks) = skipn (Z.to_nat (fpos file)) (contents file)).
Proof.
  intros Hpos.
  destruct (readLoop (length (contents file)) env file (polls w))
    as [[blocks file'] np] eqn:Eread.
  destruct (readLoop_contiguous env _ _ _ _ _ _ Eread Hpos)
    as (Hc & Hcont & Hle & _ & Hall).
  destruct (contiguous_blocks _ _ _ _ Hpos Hcont) as (_ & Hcat & Hfor & Hbeg).
  exists blocks, file', (mkWorld (store w) (oplog w) (events w) np (stages w)).
  split; [now apply readLoop_store_free|].
  cbn [store oplog events].
  split; [reflexivity|]. split; [reflexivity|]. split; [reflexivity|].
  split; [exact Hc|]. split; [exact Hle|]. split; [exact Hcat|].
  split; [exact Hfor|]. split; [exact Hbeg|].
  intros Hnone. rewrite Hcat. apply firstn_all2. rewrite length_skipn.
  specialize (Hall Hnone ltac:(lia)). unfold file_size_of in Hall. lia.
Qed.

Lemma readFileInBlocks_covers_file_witness :
  exists blocks file' w',
    readFileInBlocks (exampleEnv hello false None None) (mkQFile hello 2)
      (startWorld emptyIndexingData)
    = Ok (blocks ++ [lastBlock], file') w' /\
    concat (map snd blocks) = skipn 2 hello.
Proof.
  destruct (readFileInBlocks_covers_file (exampleEnv hello false None None)
              (mkQFile hello 2) (startWorld emptyIndexingData))
    as (blocks & file' & w' & Hrun & _ & _ & _ & _ & _ & _ & _ & _ & Hall);
    [cbn; lia|].
  exists blocks, file', w'. split; [exact Hrun | exact (Hall eq_refl)].
Defined.

Lemma clear_first (env : Environment) (A : Type) (ev : Event) (rest : M A)
    (handler : String.string -> M A) (d1 d2 : IndexingData) :
  (forall what w1 w2,
      oplog w1 = oplog w2 -> events w1 = events w2 -> polls w1 = polls w2 ->
      stages w1 = stages w2 -> (0 < stages w1)%nat ->
      exceptionAt env = Some (0%nat, what) ->
      handler what w1 = handler what w2) ->
  try_catch (emit ev ;; mutate env OpClear ;; rest) handler (startWorld d1)
  = try_catch (emit ev ;; mutate env OpClear ;; rest) handler (startWorld d2).
Proof.
  intros Hhandler.
  unfold try_catch, bind, emit, mutate, bind, checkpoint.
  cbn [startWorld store oplog events polls stages app applyOp clear].
  destruct (exceptionAt env) as [[k what]|] eqn:Eexc; [|reflexivity].
  destruct (Nat.eqb_spec k 0) as [->|Hk]; [|reflexivity].
  apply Hhandler; cbn [store oplog events polls stages]; try reflexivity.
  - lia.
Qed.

(** X6.  A full index starts from scratch: whatever the store held before,
    the run returns the same result and leaves the same store, the same log
    of calls and the same events.  This holds for every environment, also
    when the run is interrupted or an exception is thrown at any stage (when
    a node of the graph throws, the run returns from neither store). *)
Theorem full_index_forgets_previous_store (env : Environment)
    (forced : option QTextCodec) (d1 d2 : IndexingData) :
  FullIndexOperation_run env forced (startWorld d1)
  = FullIndexOperation_run env forced (startWorld d2).
Proof.
  unfold FullIndexOperation_run, FullIndexOperation_try.
  apply clear_first.
  intros what w1 w2 Hlog Hev Hpolls Hstages Hpos Hexc.
  unfold bind, emit, mutate, bind, checkpoint, ret.
  cbn [store oplog events polls stages app applyOp clear].
  rewrite Hexc, Hlog, Hev, Hpolls, Hstages.
  destruct (stages w2); [lia|]. reflexivity.
Qed.

Lemma rehash_store (env : Environment) (file : QFile) (w : World) :
  exceptionAt env = None ->
  exists ops,
    rehash env file w
    = Ok tt (mkWorld (rehashed env file (store w)) (oplog w ++ ops)
               (events w) (polls w) (S (S (stages w)))).
Proof.
  intros Hexc. unfold rehash, rehashed. rewrite read_block.
  unfold seek at 1 2 3. change (0 <? 0) with false. cbv iota.
  cbn [contents fpos]. change (Z.to_nat 0) with 0%nat. cbn [skipn].
  destruct (Z.leb_spec (fpos file) IndexingBlockSize) as [Hle|Hgt].
  - eexists. unfold bind.
    rewrite mutate_ok by exact Hexc. cbv beta iota.
    rewrite mutate_ok by exact Hexc.
    cbn [store oplog events polls stages applyOp].
    rewrite <- app_assoc. reflexivity.
  - unfold seek. pose proof IndexingBlockSize_pos.
    destruct (Z.ltb_spec (fpos file - IndexingBlockSize) 0) as [Hneg|_]; [lia|].
    rewrite read_block. cbn [contents fpos].
    eexists. unfold bind.
    rewrite mutate_ok by exact Hexc. cbv beta iota.
    rewrite mutate_ok by exact Hexc.
    cbn [store oplog events polls stages applyOp].
    rewrite <- app_assoc. reflexivity.
Qed.

(** The end of [doIndex] when nobody interrupts. *)
Lemma doIndex_finish_quiet (env : Environment) (file : QFile)
    (state : IndexingState) (w : World) :
  exceptionAt env = None ->
  interruptSetAt env = None ->
  let d1 :=
    if file_size state >? pos state
    then addAll env [] 0 (fake_line_position state) (encodingGuess state) (store w)
    else store w in
  let d2 := rehashed env file d1 in
  let tooLong := getMaxLength d2 =? LineLength_max in
  let d3 := if tooLong then clear env d2 else d2 in
  exists w',
    doIndex_finish env file state w = Ok tt w' /\
    polls w' = S (S (polls w)) /\
    store w'
    = match getEncodingGuess d3 with
      | None => setEncodingGuess (Some (codecForLocale env)) d3
      | Some _ => d3
      end /\
    events w' = events w ++ (if tooLong then [linesTooLong] else []).
Proof.
  intros Hexc Hirq d1 d2 tooLong d3. subst d1 d2 tooLong d3. cbv zeta.
  unfold doIndex_finish, bind, getStore, ret, emit, fake_line_position.
  rewrite poll_quiet by exact Hirq. cbv beta iota. cbn [negb andb].
  cbn [store oplog events polls stages].
  destruct (file_size state >? pos state).
  - rewrite mutate_ok by exact Hexc. cbv beta iota.
    cbn [store oplog events polls stages applyOp].
    match goal with
    | |- context [rehash env file ?w0] =>
        destruct (rehash_store env file w0 Hexc) as (ops & ->)
    end.
    cbn [store oplog events polls stages].
    rewrite poll_quiet by exact Hirq. cbv beta iota.
    cbn [store oplog events polls stages].
    match goal with
    | |- context [getMaxLength ?d =? _] =>
        destruct (getMaxLength d =? LineLength_max)
    end.
    + rewrite mutate_ok by exact Hexc. cbv beta iota.
      cbn [store oplog events polls stages applyOp].
      change (getEncodingGuess (clear env _)) with (@None QTextCodec).
      cbv iota. rewrite mutate_ok by exact Hexc.
      eexists. split; [reflexivity|].
      cbn [store oplog events polls stages applyOp]. now repeat split.
    + cbv beta iota.
      match goal with
      | |- context [getEncodingGuess ?d] =>
          destruct (getEncodingGuess d) as [codec|] eqn:Eguess
      end.
      * eexists. split; [reflexivity|].
        cbn [store oplog events polls stages]. rewrite app_nil_r.
        split; [reflexivity|]. split; [|reflexivity].
        match goal with
        | |- _ = match ?t with Some _ => _ | None => _ end =>
            replace t with (Some codec) by (symmetry; exact Eguess)
        end.
        reflexivity.
      * rewrite mutate_ok by exact Hexc.
        eexists. split; [reflexivity|].
        cbn [store oplog events polls stages applyOp]. rewrite app_nil_r.
        split; [reflexivity|]. split; [|reflexivity].
        match goal with
        | |- _ = match ?t with Some _ => _ | None => _ end =>
            replace t with (@None QTextCodec) by (symmetry; exact Eguess)
        end.
        reflexivity.
  - match goal with
    | |- context [rehash env file ?w0] =>
        destruct (rehash_store env file w0 Hexc) as (ops & ->)
    end.
    cbn [store oplog events polls stages].
    rewrite poll_quiet by exact Hirq. cbv beta iota.
    cbn [store oplog events polls stages].
    match goal with
    | |- context [getMaxLength ?d =? _] =>
        destruct (getMaxLength d =? LineLength_max)
    end.
    + rewrite mutate_ok by exact Hexc. cbv beta iota.
      cbn [store oplog events polls stages applyOp].
      change (getEncodingGuess (clear env _)) with (@None QTextCodec).
      cbv iota. rewrite mutate_ok by exact Hexc.
      eexists. split; [reflexivity|].
      cbn [store oplog events polls stages applyOp]. now repeat split.
    + cbv beta iota.
      match goal with
      | |- context [getEncodingGuess ?d] =>
          destruct (getEncodingGuess d) as [codec|] eqn:Eguess
      end.
      * eexists. split; [reflexivity|].
        cbn [store oplog events polls stages]. rewrite app_nil_r.
        split; [reflexivity|]. split; [|reflexivity].
        match goal with
        | |- _ = match ?t with Some _ => _ | None => _ end =>
            replace t with (Some codec) by (symmetry; exact Eguess)
        end.
        reflexivity.
      * rewrite mutate_ok by exact Hexc.
        eexists. split; [reflexivity|].
        cbn [store oplog events polls stages applyOp]. rewrite app_nil_r.
        split; [reflexivity|]. split; [|reflexivity].
        match goal with
        | |- _ = match ?t with Some _ => _ | None => _ end =>
            replace t with (@None QTextCodec) by (symmetry; exact Eguess)
        end.
        reflexivity.
Qed.

Lemma readLoop_atEnd (env : Environment) (fuel : nat) (file : QFile)
    (npolls : nat) :
  atEnd file = true ->
  readLoop fuel env file npolls = ([], file, npolls).
Proof.
  intros Hend. destruct fuel; cbn [readLoop]; [reflexivity|]. now rewrite Hend.
Qed.

(** A partial index of a file that is not longer than what was indexed. *)
Lemma partial_index_no_growth (env : Environment) (d : IndexingData) :
  exceptionAt env = None ->
  interruptSetAt env = None ->
  disk_readable env = true ->
  Z.of_nat (length (disk_bytes env)) <= getIndexedSize d ->
  getMaxLength d <> LineLength_max ->
  exists w',
    PartialIndexOperation_run env (startWorld d) = Ok (ResultBool true) w' /\
    events w' = [indexingProgressed 0; indexingFinished true] /\
    store w'
    = let d' :=
        rehashed env (mkQFile (disk_bytes env) (getIndexedSize d)) d in
      match getEncodingGuess d with
      | None => setEncodingGuess (Some (codecForLocale env)) d'
      | Some _ => d'
      end.
Proof.
  intros Hexc Hirq Hread Hsize Hmax.
  set (c := disk_bytes env) in *.
  set (n := getIndexedSize d) in *.
  set (state :=
         mkIndexingState (mkEncodingParameters 1 0) n 0 0 0 (Z.of_nat (length c))
           (getEncodingGuess d)
           (orElse (getForcedEncoding d) (getEncodingGuess d))).
  set (w1 := mkWorld d [] [indexingProgressed 0] 0 1).
  destruct (doIndex_finish_quiet env (mkQFile c n) state w1 Hexc Hirq)
    as (w2 & Hfin & Hpolls & Hstore & Hev).
  cbn [file_size pos state store w1 events] in Hstore, Hev.
  destruct (Z.gtb_spec (Z.of_nat (length c)) n) as [Hgt|_]; [lia|].
  assert (Hlong : (getMaxLength (rehashed env (mkQFile c n) d)
                   =? LineLength_max) = false).
  { apply Z.eqb_neq. exact Hmax. }
  rewrite Hlong in Hstore, Hev.
  eexists. split.
  - unfold PartialIndexOperation_run, PartialIndexOperation_try, try_catch,
      bind, getStore, emit, ret.
    cbn [startWorld store oplog events polls stages app].
    unfold doIndex, wait_for_all, bind, getStore.
    rewrite checkpoint_ok by exact Hexc. cbv beta iota.
    rewrite Hread. cbn [negb].
    cbn [store oplog events polls stages pos].
    fold c n. unfold file_size_of. cbn [contents]. fold state.
    unfold seek. destruct (Z.ltb_spec n 0) as [Hneg|_]; [lia|].
    cbn [contents]. unfold readFileInBlocks. cbn [contents polls].
    rewrite readLoop_atEnd
      by (unfold atEnd, file_size_of; cbn [contents fpos]; apply Z.leb_le; lia).
    cbn [app parseBlocks store oplog events polls stages].
    unfold bind. rewrite indexNextBlock_lastBlock. unfold ret.
    fold w1. rewrite Hfin. rewrite poll_quiet by exact Hirq. reflexivity.
  - cbn [store oplog events polls stages]. rewrite Hev, Hstore.
    split; [reflexivity|]. reflexivity.
Qed.

(** X7.  A partial index of a file that is not longer than what was indexed,
    unchanged or cut (nobody interrupts, no exception), returns [true],
    announces progress 0 and the end, and adds nothing: the line positions,
    the longest line, the indexed size, the full digest and its builder and
    the forced encoding stay as they were, also when the file has become
    shorter.  Only the header and tail digests are computed again from the
    file, and a missing encoding guess becomes the codec of the locale. *)
Theorem partial_index_without_growth (env : Environment) (d : IndexingData) :
  exceptionAt env = None ->
  interruptSetAt env = None ->
  disk_readable env = true ->
  Z.of_nat (length (disk_bytes env)) <= getIndexedSize d ->
  getMaxLength d <> LineLength_max ->
  exists w',
    PartialIndexOperation_run env (startWorld d) = Ok (ResultBool true) w' /\
    events w' = [indexingProgressed 0; indexingFinished true] /\
    linePosition_ (store w') = linePosition_ d /\
    getMaxLength (store w') = getMaxLength d /\
    getIndexedSize (store w') = getIndexedSize d /\
    fullDigest (getHash (store w')) = fullDigest (getHash d) /\
    hashBuilder_ (store w') = hashBuilder_ d /\
    headerDigest (getHash (store w'))
    = xxhash env (firstn blockSize (disk_bytes env)) /\
    getForcedEncoding (store w') = getForcedEncoding d /\
    getEncodingGuess (store w')
    = match getEncodingGuess d with
      | None => Some (codecForLocale env)
      | Some codec => Some codec
      end.
Proof.
  intros Hexc Hirq Hread Hsize Hmax.
  destruct (partial_index_no_growth env d Hexc Hirq Hread Hsize Hmax)
    as (w' & Hrun & Hev & Hstore).
  exists w'. split; [exact Hrun|]. split; [exact Hev|].
  rewrite Hstore. cbv zeta. unfold getEncodingGuess.
  destruct (encodingGuess_ d) eqn:Eguess; repeat split; try reflexivity; exact Eguess.
Qed.

Lemma partial_index_without_growth_witness :
  exists w',
    PartialIndexOperation_run (exampleEnv hello false None None)
      (startWorld helloStore)
    = Ok (ResultBool true) w' /\
    events w' = [indexingProgressed 0; indexingFinished true].
Proof.
  destruct (partial_index_without_growth (exampleEnv hello false None None)
              helloStore)
    as (w' & Hrun & Hev & _);
    [reflexivity | reflexivity | reflexivity | reflexivity
    | (vm_compute; discriminate) |].
  exists w'. split; [exact Hrun | exact Hev].
Defined.

(** X11.  The codec of a run is decided once.  After [guessEncoding] has
    looked at one block, looking at any other block, with any other store,
    changes nothing in the state.  When the state has no codec yet, the
    forced encoding of the store is taken; without a forced encoding, the
    guess kept in the store; and with neither, nor a guess in the state, what
    the detector says about the block.  The encoding parameters are those of
    the codec taken. *)
Theorem guessEncoding_decides_once (env : Environment) (block1 block2 : list byte)
    (d1 d2 : IndexingData) (state : IndexingState) :
  let state1 := guessEncoding env block1 d1 state in
  guessEncoding env block2 d2 state1 = state1 /\
  (forall codec,
      fileTextCodec state = None ->
      getForcedEncoding d1 = Some codec ->
      fileTextCodec state1 = Some codec /\
      encodingParams state1 = encodingParametersOf env codec) /\
  (forall codec,
      fileTextCodec state = None ->
      getForcedEncoding d1 = None ->
      getEncodingGuess d1 = Some codec ->
      fileTextCodec state1 = Some codec /\
      encodingParams state1 = encodingParametersOf env codec) /\
  (fileTextCodec state = None ->
   getForcedEncoding d1 = None ->
   getEncodingGuess d1 = None ->
   encodingGuess state = None ->
   fileTextCodec state1 = Some (detectEncoding env block1) /\
   encodingGuess state1 = Some (detectEncoding env block1) /\
   encodingParams state1
   = encodingParametersOf env (detectEncoding env block1)).
Proof.
  cbv zeta. unfold guessEncoding.
  cbn [encodingGuess fileTextCodec pos max_length additional_spaces end_
       file_size].
  split; [|split; [|split]].
  - destruct (encodingGuess state), (fileTextCodec state); reflexivity.
  - intros codec -> ->. cbn [orElse]. now split.
  - intros codec -> -> ->. cbn [orElse]. now split.
  - intros -> -> -> ->. cbn [orElse]. now repeat split.
Qed.

Lemma parseLoop_same_setup (find : FindDelimeter) (blockBeginning : Z)
    (block : list byte) :
  forall fuel state lp lp' state',
    parseLoop fuel find blockBeginning block state lp = Some (lp', state') ->
    same_setup state state'.
Proof.
  induction fuel as [|fuel IH]; intros state lp lp' state' Hrun;
    [discriminate|].
  cbn [parseLoop] in Hrun.
  destruct (pos state >? blockBeginning + Z.of_nat (length block)).
  { inversion Hrun; subst. apply same_setup_refl. }
  set (k := static_cast_int
              (if pos state >=? blockBeginning
               then pos state - blockBeginning else 0)) in Hrun.
  destruct (negb (k =? Z.of_nat (length block))) eqn:Eend.
  - destruct (findNextLineFeed block k state find) as [[e p] a].
    destruct (negb e).
    + apply IH in Hrun. eapply same_setup_trans; [|exact Hrun].
      now repeat split.
    + inversion Hrun; subst. now repeat split.
  - apply negb_false_iff in Eend. rewrite Eend in Hrun. cbn [negb] in Hrun.
    inversion Hrun; subst. now repeat split.
Qed.

Lemma In_firstn_In (A : Type) (x : A) (n : nat) (l : list A) :
  In x (firstn n l) -> In x l.
Proof.
  intros H. rewrite <- (firstn_skipn n l). apply in_or_app. now left.
Qed.

Lemma In_skipn_In (A : Type) (x : A) (n : nat) (l : list A) :
  In x (skipn n l) -> In x l.
Proof.
  intros H. rewrite <- (firstn_skipn n l). apply in_or_app. now right.
Qed.

Lemma find_at_absent (data : list byte) (c : byte) :
  ~ In c data -> forall idx, find_at data c idx = None.
Proof.
  induction data as [|b rest IH]; intros Hnot idx; [reflexivity|].
  cbn [find_at]. destruct (Byte.eqb b c) eqn:E.
  - apply byte_eqb_true_iff in E. exfalso. apply Hnot. now left.
  - apply IH. intros Hin. apply Hnot. now right.
Qed.

Lemma sv_find_absent (data : list byte) (c : byte) :
  ~ In c data -> sv_find data c 0 = None.
Proof. intros H. unfold sv_find. cbn [skipn]. now apply find_at_absent. Qed.

Lemma longest_line_ge (l : list byte) : forall cur, cur <= longest_line l cur.
Proof.
  induction l as [|b rest IH]; intros cur; cbn [longest_line]; [lia|].
  destruct (Byte.eqb b LF); [lia|]. specialize (IH (cur + 1)). lia.
Qed.

Lemma longest_line_none (l : list byte) :
  forall cur,
    (forall m, (m < length l)%nat -> nth m l NUL <> LF) ->
    longest_line l cur = cur + Z.of_nat (length l).
Proof.
  induction l as [|b rest IH]; intros cur H; cbn [longest_line length]; [lia|].
  destruct (Byte.eqb b LF) eqn:E.
  - apply byte_eqb_true_iff in E. exfalso. apply (H 0%nat); [cbn; lia | exact E].
  - rewrite IH; [lia|]. intros m Hm. apply (H (S m)). cbn. lia.
Qed.

Lemma longest_line_first (l : list byte) :
  forall (i : nat) (cur : Z),
    (i < length l)%nat ->
    nth i l NUL = LF ->
    (forall m, (m < i)%nat -> nth m l NUL <> LF) ->
    longest_line l cur
    = Z.max (cur + Z.of_nat i) (longest_line (skipn (S i) l) 0).
Proof.
  induction l as [|b rest IH]; intros i cur Hi Hc Hbefore; [cbn in Hi; lia|].
  destruct i as [|i].
  - cbn in Hc. subst b. cbn [longest_line skipn].
    rewrite (proj2 (byte_eqb_true_iff LF LF) eq_refl). f_equal. lia.
  - cbn [longest_line]. destruct (Byte.eqb b LF) eqn:E.
    + apply byte_eqb_true_iff in E. exfalso.
      apply (Hbefore 0%nat); [lia | exact E].
    + rewrite (IH i (cur + 1)).
      * change (skipn (S (S i)) (b :: rest)) with (skipn (S i) rest).
        f_equal. lia.
      * cbn in Hi. lia.
      * exact Hc.
      * intros m Hm. apply (Hbefore (S m)). lia.
Qed.

Lemma longest_line_app (l1 l2 : list byte) :
  forall base cur,
    longest_line (l1 ++ l2) cur
    = Z.max (longest_line l1 cur)
        (longest_line l2
           (base + Z.of_nat (length l1)
            - last (lf_offsets l1 base) (base - cur))).
Proof.
  induction l1 as [|b rest IH]; intros base cur.
  - cbn. replace (base + 0 - (base - cur)) with cur by lia.
    pose proof (longest_line_ge l2 cur). lia.
  - cbn [app longest_line lf_offsets length]. destruct (Byte.eqb b LF).
    + rewrite last_cons_default.
      rewrite (IH (base + 1) 0).
      replace (base + 1 - 0) with (base + 1) by lia.
      replace (base + Z.of_nat (S (length rest)))
        with (base + 1 + Z.of_nat (length rest)) by lia.
      lia.
    + rewrite (IH (base + 1) (cur + 1)).
      replace (base + 1 - (cur + 1)) with (base - cur) by lia.
      replace (base + Z.of_nat (S (length rest)))
        with (base + 1 + Z.of_nat (length rest)) by lia.
      reflexivity.
Qed.

Section PlainRound.

Variable blockBeginning : Z.
Variable block : list byte.
Variable state : IndexingState.
Variable lp : LinePositionArray.

Hypothesis Hsize : Z.of_nat (length block) < 2147483648.
Hypothesis Hw1 : lineFeedWidth (encodingParams state) = 1.
Hypothesis Hidx : lineFeedIndex (encodingParams state) = 0.
Hypothesis Hadd : additional_spaces state = 0.
Hypothesis Hin : pos state <= blockBeginning + Z.of_nat (length block).
Hypothesis Hplain : ~ In TAB block.

Lemma expandTabs_plain (ptr lineStart : Z) (n m : nat) :
  expandTabsInLine (mk_view ptr (firstn n (skipn m block))) lineStart
    (encodingParams state) findNextSingleByteDelimeter 0 = 0.
Proof.
  apply expandTabsInLine_no_tab. unfold findNextSingleByteDelimeter.
  apply sv_find_absent. intros H. apply Hplain.
  eapply In_skipn_In, In_firstn_In, H.
Qed.

Lemma parseLoop_plain_end (fuel : nat) :
  sv_find (skipn (Z.to_nat (Z.max 0 (pos state - blockBeginning))) block) LF 0
  = None ->
  exists state',
    parseLoop (S fuel) findNextSingleByteDelimeter blockBeginning block state lp
    = Some (lp, state') /\
    max_length state'
    = Z.max (max_length state)
        (blockBeginning + Z.of_nat (length block) - pos state) /\
    additional_spaces state' = 0.
Proof.
  set (sz := Z.of_nat (length block)) in *.
  set (k := Z.max 0 (pos state - blockBeginning)).
  intros Hfind. cbn [parseLoop]. fold sz.
  destruct (Z.gtb_spec (pos state) (blockBeginning + sz)); [lia|].
  assert (Hraw : (if pos state >=? blockBeginning
                  then pos state - blockBeginning else 0) = k).
  { subst k. destruct (Z.geb_spec (pos state) blockBeginning); lia. }
  rewrite Hraw, static_cast_int_small by (subst k sz; lia).
  destruct (Z.eqb_spec k sz) as [Hend|Hnend]; cbn [negb].
  - eexists. split; [reflexivity|].
    cbn [set_max_length max_length additional_spaces].
    rewrite Hw1, Hadd, Z.quot_1_r. split; [f_equal; lia | reflexivity].
  - unfold findNextLineFeed, sz.
    rewrite view_of_rest by (subst k; lia). fold sz.
    change (findNextSingleByteDelimeter (encodingParams state)
              (skipn (Z.to_nat k) block) LF)
      with (sv_find (skipn (Z.to_nat k) block) LF 0).
    rewrite Hfind, Hadd, expandTabs_plain.
    unfold charOffsetWithinBlock, getBeforeCrOffset. rewrite Hidx.
    rewrite static_cast_int_small by (subst k sz; lia).
    cbn [negb]. eexists. split; [reflexivity|].
    cbn [set_max_length set_additional_spaces max_length additional_spaces
         encodingParams pos].
    rewrite Hw1, Z.quot_1_r. split; [f_equal; subst k sz; lia | reflexivity].
Qed.

Lemma parseLoop_plain_line (fuel : nat) (i : nat) :
  sv_find (skipn (Z.to_nat (Z.max 0 (pos state - blockBeginning))) block) LF 0
  = Some i ->
  (i < length (skipn (Z.to_nat (Z.max 0 (pos state - blockBeginning))) block))%nat ->
  exists state1,
    same_setup state state1 /\
    pos state1
    = blockBeginning + Z.max 0 (pos state - blockBeginning) + Z.of_nat i + 1 /\
    max_length state1
    = Z.max (max_length state)
        (blockBeginning + Z.max 0 (pos state - blockBeginning) + Z.of_nat i
         - pos state) /\
    additional_spaces state1 = 0 /\
    parseLoop (S fuel) findNextSingleByteDelimeter blockBeginning block state lp
    = parseLoop fuel findNextSingleByteDelimeter blockBeginning block state1
        (lpa_append lp (pos state1)).
Proof.
  set (sz := Z.of_nat (length block)) in *.
  set (k := Z.max 0 (pos state - blockBeginning)).
  intros Hfind Hi. rewrite length_skipn in Hi.
  cbn [parseLoop]. fold sz.
  destruct (Z.gtb_spec (pos state) (blockBeginning + sz)); [lia|].
  assert (Hraw : (if pos state >=? blockBeginning
                  then pos state - blockBeginning else 0) = k).
  { subst k. destruct (Z.geb_spec (pos state) blockBeginning); lia. }
  rewrite Hraw, static_cast_int_small by (subst k sz; lia).
  destruct (Z.eqb_spec k sz) as [Hend|Hnend]; [subst k sz; lia|]. cbn [negb].
  unfold findNextLineFeed, sz.
  rewrite view_of_rest by (subst k; lia). fold sz.
  change (findNextSingleByteDelimeter (encodingParams state)
            (skipn (Z.to_nat k) block) LF)
    with (sv_find (skipn (Z.to_nat k) block) LF 0).
  rewrite Hfind, Hadd, expandTabs_plain.
  unfold charOffsetWithinBlock, getBeforeCrOffset. rewrite Hidx.
  rewrite static_cast_int_small by (subst k sz; lia).
  cbn [negb]. eexists.
  split; [|split; [|split; [|split; [|reflexivity]]]].
  - now repeat split.
  - cbn. rewrite Hw1. lia.
  - cbn. rewrite Hw1, Z.quot_1_r. f_equal. lia.
  - reflexivity.
Qed.

End PlainRound.

Lemma parseLoop_plain (blockBeginning : Z) (block : list byte) :
  Z.of_nat (length block) < 2147483648 ->
  ~ In TAB block ->
  forall fuel state lp r,
    lineFeedWidth (encodingParams state) = 1 ->
    lineFeedIndex (encodingParams state) = 0 ->
    additional_spaces state = 0 ->
    pos state <= blockBeginning + Z.of_nat (length block) ->
    parseLoop fuel findNextSingleByteDelimeter blockBeginning block state lp
    = Some r ->
    max_length (snd r)
    = Z.max (max_length state)
        (longest_line
           (skipn (Z.to_nat (Z.max 0 (pos state - blockBeginning))) block)
           (blockBeginning + Z.max 0 (pos state - blockBeginning) - pos state))
    /\ additional_spaces (snd r) = 0.
Proof.
  intros Hsize Hplain.
  induction fuel as [|fuel IH]; intros state lp r Hw1 Hidx Hadd Hin Hrun;
    [discriminate|].
  set (k := Z.max 0 (pos state - blockBeginning)) in *.
  pose proof (sv_find_spec (skipn (Z.to_nat k) block) LF 0) as Hspec.
  destruct (sv_find (skipn (Z.to_nat k) block) LF 0) as [i|] eqn:Hfind.
  - destruct Hspec as (Hi & Hc & _ & Hbefore).
    destruct (parseLoop_plain_line blockBeginning block state lp Hsize Hw1 Hidx
                Hadd Hin Hplain fuel i Hfind (proj2 Hi))
      as (state1 & Hsame & Hpos1 & Hmax1 & Hadd1 & Hstep).
    fold k in Hpos1, Hmax1.
    rewrite Hstep in Hrun.
    destruct Hsame as (Hp1 & _).
    rewrite length_skipn in Hi.
    apply IH in Hrun; [|now rewrite Hp1|now rewrite Hp1|exact Hadd1|lia].
    destruct Hrun as [Hmax Hadd']. split; [|exact Hadd'].
    rewrite Hmax, Hmax1.
    rewrite (longest_line_first (skipn (Z.to_nat k) block) i);
      [|rewrite length_skipn; lia|exact Hc|].
    2:{ intros m Hm Hcm. apply (Hbefore m); [lia | exact Hcm | exact I]. }
    rewrite skipn_skipn.
    replace (Z.to_nat (Z.max 0 (pos state1 - blockBeginning)))
      with (S i + Z.to_nat k)%nat by lia.
    replace (blockBeginning + Z.max 0 (pos state1 - blockBeginning) - pos state1)
      with 0 by lia.
    lia.
  - destruct (parseLoop_plain_end blockBeginning block state lp Hsize Hw1 Hidx
                Hadd Hin Hplain fuel Hfind)
      as (state' & Hstep & Hmax & Hadd').
    rewrite Hstep in Hrun. inversion Hrun; subst r. cbn [snd].
    split; [|exact Hadd']. rewrite Hmax.
    rewrite longest_line_none.
    + rewrite length_skipn. f_equal. subst k. lia.
    + intros m Hm Hcm. apply (Hspec m); [lia | exact Hcm | exact I].
Qed.

Lemma clampLength_mono (a b : Z) : a <= b -> clampLength a <= clampLength b.
Proof.
  unfold clampLength, LineLength_max. intros H.
  destruct (Z.gtb_spec a 2147483647), (Z.gtb_spec b 2147483647); lia.
Qed.

Section LongestLine.

Variable env : Environment.
Variable forced : option QTextCodec.

Hypothesis Hexc : exceptionAt env = None.
Hypothesis Hwf : wf_params (encodingParametersOf env (chosenCodec env forced)).
Hypothesis Hw1 :
  lineFeedWidth (encodingParametersOf env (chosenCodec env forced)) = 1.
Hypothesis Hplain : ~ In TAB (disk_bytes env).

Lemma longest_upto_step (p : Z) (data : list byte) (state : IndexingState)
    (w : World) (state' : IndexingState) (w' : World) :
  0 <= p ->
  data = firstn blockSize (skipn (Z.to_nat p) (disk_bytes env)) ->
  data <> [] ->
  parsed_upto env forced p state w ->
  longest_upto env p state (store w) ->
  indexNextBlock env state (p, data) w = Ok state' w' ->
  longest_upto env (p + Z.of_nat (length data)) state' (store w').
Proof.
  intros Hp Hdata Hne Hinv (Hmax & Hadd & Hstore) Hrun.
  destruct Hinv as (Hpos & Hfs & Hsz & Hchain & Hlast & Hfake & Hev & Hops
                    & Hcodec & Hexact).
  destruct (Hexact Hw1) as [HO HP]. clear Hexact.
  set (c := disk_bytes env) in *.
  set (state1 := guessEncoding env data (store w) state).
  assert (Hparams1 : encodingParams state1
                     = encodingParametersOf env (chosenCodec env forced)).
  { subst state1. unfold guessEncoding. cbn [fileTextCodec encodingParams].
    destruct Hcodec as [(Hn0 & Hftc & Hguess & Hforced & Hsguess)
                       |(Hn & Hftc & _)].
    - rewrite Hftc, Hguess. unfold getForcedEncoding, getEncodingGuess.
      rewrite Hforced, Hsguess. unfold chosenCodec.
      rewrite Hn0 in Hdata.
      change (Z.to_nat 0) with 0%nat in Hdata. cbn [skipn] in Hdata.
      fold c. rewrite <- Hdata.
      destruct forced; cbn; reflexivity.
    - rewrite Hftc. reflexivity. }
  assert (Hidx : lineFeedIndex (encodingParams state1) = 0).
  { rewrite Hparams1. destruct Hwf as [_ Hi]. lia. }
  assert (Hlen : Z.of_nat (length data) < 2147483648).
  { pose proof blockSize_small. subst data. rewrite length_firstn. lia. }
  assert (Hpc : p <= Z.of_nat (length c)).
  { destruct (Z_le_gt_dec p (Z.of_nat (length c))) as [H|H]; [exact H|].
    exfalso. apply Hne. rewrite Hdata. rewrite skipn_all2 by lia.
    apply firstn_nil. }
  destruct (parseDataBlock p data state1) as [[lp st]|] eqn:Eparse.
  2:{ exfalso. unfold indexNextBlock in Hrun.
      destruct (Z.ltb_spec p 0) as [Hneg|_]; [lia|].
      unfold bind, getStore in Hrun.
      rewrite checkpoint_ok in Hrun by exact Hexc. cbv beta iota in Hrun.
      cbn [store] in Hrun. destruct data as [|b rest]; [congruence|].
      fold state1 in Hrun. rewrite Eparse in Hrun. discriminate. }
  destruct (indexNextBlock_block env state p data w lp st Hexc Hp Hne Eparse)
    as (w1 & Hrun1 & Hstore1 & _).
  rewrite Hrun1 in Hrun. inversion Hrun; subst st w1. clear Hrun.
  unfold parseDataBlock in Eparse. cbv zeta in Eparse.
  rewrite Hparams1, Hw1, Z.eqb_refl in Eparse.
  apply (parseLoop_plain p data Hlen) in Eparse.
  - cbn [snd] in Eparse. destruct Eparse as [Hmax' Hadd'].
    change (pos state1) with (pos state) in Hmax'.
    change (max_length state1) with (max_length state) in Hmax'.
    replace (Z.max 0 (pos state - p)) with 0 in Hmax' by lia.
    change (Z.to_nat 0) with 0%nat in Hmax'. cbn [skipn] in Hmax'.
    unfold longest_upto. fold c.
    assert (Hall : max_length state'
                   = longest_line
                       (firstn (Z.to_nat (p + Z.of_nat (length data))) c) 0).
    { pose proof (firstn_chunk c p Hp) as Hchunk. cbv zeta in Hchunk.
      rewrite <- Hdata in Hchunk. rewrite Hchunk.
      rewrite (longest_line_app _ _ 0 0). change (0 - 0) with 0.
      rewrite <- Hmax, Hmax', <- HO, <- HP.
      rewrite length_firstn. f_equal. f_equal. lia. }
    split; [exact Hall|]. split; [exact Hadd'|].
    rewrite Hstore1. cbn [setProgress maxLength_]. rewrite addAll_maxLength.
    rewrite Hstore.
    assert (max_length state <= max_length state') by (rewrite Hmax'; lia).
    pose proof (clampLength_mono _ _ H). lia.
  - intros Hin. apply Hplain. fold c. rewrite Hdata in Hin.
    eapply In_skipn_In, In_firstn_In, Hin.
  - rewrite Hparams1. exact Hw1.
  - exact Hidx.
  - exact Hadd.
  - change (pos state1) with (pos state). lia.
Qed.

Lemma parseBlocks_longest :
  forall blocks p q state w state' w',
    0 <= p ->
    contiguous (disk_bytes env) p blocks q ->
    parsed_upto env forced p state w ->
    longest_upto env p state (store w) ->
    parseBlocks env state (blocks ++ [lastBlock]) w = Ok state' w' ->
    longest_upto env q state' (store w').
Proof.
  induction blocks as [|[bb data] rest IH];
    intros p q state w state' w' Hp Hcont Hinv Hlong Hrun.
  - cbn in Hcont. subst q. cbn in Hrun. unfold bind, ret in Hrun.
    inversion Hrun; subst. exact Hlong.
  - cbn [contiguous] in Hcont. destruct Hcont as (-> & Hne & Hdata & Hcont).
    destruct (parsed_upto_step env forced Hexc Hwf p data state w Hp Hdata Hne
                Hinv) as (s1 & w1 & Hrun1 & _ & Hinv1).
    pose proof (longest_upto_step p data state w s1 w1 Hp Hdata Hne Hinv Hlong
                  Hrun1) as Hlong1.
    cbn [app parseBlocks] in Hrun. unfold bind at 1 in Hrun.
    rewrite Hrun1 in Hrun.
    assert (Hp' : 0 <= p + Z.of_nat (length data)) by lia.
    exact (IH _ _ _ _ _ _ Hp' Hcont Hinv1 Hlong1 Hrun).
Qed.

End LongestLine.

Lemma chosenScanner_genuine (p : EncodingParameters) (view : list byte)
    (c : byte) (i : nat) :
  wf_params p ->
  chosenScanner p p view c = Some i ->
  (i < length view)%nat /\ sv_at view i = c /\ neighboursZero p view i.
Proof.
  intros [Hw Hidx] Hfind. unfold chosenScanner in Hfind.
  destruct (Z.eqb_spec (lineFeedWidth p) 1) as [H1|H1].
  - unfold findNextSingleByteDelimeter in Hfind.
    pose proof (sv_find_spec view c 0) as Hs. rewrite Hfind in Hs.
    destruct Hs as (Hi & Hc & _). split; [lia|]. split; [exact Hc|].
    unfold neighboursZero. rewrite H1 in *.
    replace (lineFeedIndex p) with 0 by lia. cbn.
    split; [lia|]. intros j Hj. lia.
  - pose proof (findNextMultiByteDelimeter_spec p view c) as Hs.
    rewrite Hfind in Hs. destruct Hs as (Hi & Hc & Hz & _).
    split; [lia|]. now split.
Qed.

Lemma neighboursZero_skipn (p : EncodingParameters) (block : list byte)
    (k i : nat) :
  (k <= length block)%nat ->
  neighboursZero p (skipn k block) i ->
  neighboursZero p block (k + i).
Proof.
  intros Hk. unfold neighboursZero, sv_at. cbv zeta. rewrite length_skipn.
  destruct (lineFeedIndex p =? 0).
  - intros [Hlen Hz]. split; [lia|]. intros j Hj.
    specialize (Hz j Hj). rewrite nth_skipn_add in Hz.
    now replace (k + i + j)%nat with (k + (i + j))%nat by lia.
  - intros [Hlen Hz]. split; [lia|]. intros j Hj.
    specialize (Hz j Hj). rewrite nth_skipn_add in Hz.
    now replace (k + i - j)%nat with (k + (i - j))%nat by lia.
Qed.

Section ParseSound.

Variable blockBeginning : Z.
Variable block : list byte.

Hypothesis Hsize : Z.of_nat (length block) < 2147483648.

Lemma parseLoop_sound :
  forall fuel state lp lp' state',
    wf_params (encodingParams state) ->
    parseLoop fuel (chosenScanner (encodingParams state)) blockBeginning
      block state lp = Some (lp', state') ->
    exists new,
      offsets lp' = offsets lp ++ new /\
      Forall (follows_line_feed (encodingParams state) blockBeginning block)
        new.
Proof.
  set (sz := Z.of_nat (length block)) in *.
  induction fuel as [|fuel IH]; intros state lp lp' state' Hwf Hrun;
    [discriminate|].
  assert (Hbco : 0 <= getBeforeCrOffset (encodingParams state) <= 3).
  { destruct Hwf as [Hw Hi]. unfold getBeforeCrOffset. lia. }
  set (p := encodingParams state) in *.
  set (k := Z.max 0 (pos state - blockBeginning)).
  destruct (Z_gt_le_dec (pos state) (blockBeginning + sz)) as [Hout|Hin].
  { rewrite (parseLoop_out_of_block _ _ _ _ _ fuel Hout) in Hrun.
    inversion Hrun; subst. exists []. now rewrite app_nil_r. }
  destruct (Z.eq_dec k sz) as [Hend|Hnend].
  { destruct (parseLoop_at_end (chosenScanner p) blockBeginning block state lp
                Hsize fuel Hin Hend) as (state1 & Hrun1 & _).
    rewrite Hrun1 in Hrun. inversion Hrun; subst.
    exists []. now rewrite app_nil_r. }
  assert (Hk : k < sz) by (subst k sz; lia).
  destruct (chosenScanner p p (skipn (Z.to_nat k) block) LF) as [i|] eqn:Hfind.
  - destruct (chosenScanner_genuine p _ _ _ Hwf Hfind) as (Hi & Hc & Hz).
    destruct (parseLoop_line_feed (chosenScanner p) blockBeginning block state
                lp Hsize Hbco fuel i Hin Hk Hfind Hi)
      as (state1 & Hsame1 & Hpos1 & Hrun1).
    fold p in Hpos1. fold k in Hpos1.
    assert (Hp1 : encodingParams state1 = p) by apply Hsame1.
    rewrite Hrun1 in Hrun. rewrite <- Hp1 in Hrun.
    apply IH in Hrun; [|now rewrite Hp1].
    destruct Hrun as (new1 & Hoff & Hall). rewrite Hp1 in Hall.
    exists (pos state1 :: new1). split.
    + rewrite Hoff. cbn [lpa_append offsets]. now rewrite <- app_assoc.
    + constructor; [|exact Hall].
      exists (Z.to_nat k + i)%nat.
      rewrite length_skipn in Hi.
      split; [subst sz; lia|]. split.
      * unfold sv_at in *. now rewrite <- nth_skipn_add.
      * split; [apply neighboursZero_skipn; [subst k sz; lia | exact Hz]|].
        rewrite Hpos1. unfold getBeforeCrOffset. subst k. lia.
  - destruct (parseLoop_no_line_feed (chosenScanner p) blockBeginning block
                state lp Hsize fuel Hin Hk Hfind) as (state1 & Hrun1 & _).
    rewrite Hrun1 in Hrun. inversion Hrun; subst.
    exists []. now rewrite app_nil_r.
Qed.

End ParseSound.

(** X15.  [parseDataBlock] records a line only behind a genuine line feed:
    for every well-formed encoding, each offset it emits is the position
    just behind the code unit of a byte LF of the block whose neighbouring
    bytes (forward or backward, as the encoding has it) lie within the block
    and are zero. *)
Theorem parseDataBlock_offsets_follow_line_feeds (blockBeginning : Z)
    (block : list byte) (state : IndexingState) (lp : LinePositionArray)
    (state' : IndexingState) :
  Z.of_nat (length block) < 2147483648 ->
  wf_params (encodingParams state) ->
  parseDataBlock blockBeginning block state = Some (lp, state') ->
  forall o,
    In o (offsets lp) ->
    follows_line_feed (encodingParams state) blockBeginning block o.
Proof.
  intros Hsize Hwf Hrun o Ho.
  change (parseDataBlock blockBeginning block state)
    with (parseLoop (S (length block)) (chosenScanner (encodingParams state))
            blockBeginning block state emptyLinePositionArray) in Hrun.
  destruct (parseLoop_sound blockBeginning block Hsize _ _ _ _ _ Hwf Hrun)
    as (new & Hoff & Hall).
  rewrite Hoff in Ho. cbn [emptyLinePositionArray offsets app] in Ho.
  rewrite Forall_forall in Hall. now apply Hall.
Qed.

Lemma parseDataBlock_offsets_follow_line_feeds_witness :
  follows_line_feed (mkEncodingParameters 2 1) 0
    [x00; x41; x0a; x00; x00; x0a; x00; x42] 6.
Proof.
  apply (parseDataBlock_offsets_follow_line_feeds 0
           [x00; x41; x0a; x00; x00; x0a; x00; x42]
           (mkIndexingState (mkEncodingParameters 2 1) 0 0 0 0 8 None None)
           (mkLinePositionArray [6] false)
           (mkIndexingState (mkEncodingParameters 2 1) 6 2 0 4 8 None None));
    [(simpl; lia) | (unfold wf_params; simpl; lia)
    | (vm_compute; reflexivity) | (simpl; lia)].
Defined.

Lemma nth_firstn_below (l : list byte) (m i : nat) :
  (i < m)%nat -> nth i (firstn m l) NUL = nth i l NUL.
Proof.
  revert l i. induction m as [|m IH]; intros l i Hi; [lia|].
  destruct l as [|b rest]; [now destruct i|].
  destruct i as [|i]; [reflexivity|]. cbn [firstn nth]. apply IH. lia.
Qed.

Lemma neighboursZero_firstn (p : EncodingParameters) (l : list byte)
    (m n : nat) :
  (n < length (firstn m l))%nat ->
  neighboursZero p (firstn m l) n ->
  neighboursZero p l n.
Proof.
  intros Hn. unfold neighboursZero, sv_at. cbv zeta.
  rewrite length_firstn in *.
  destruct (lineFeedIndex p =? 0).
  - intros [Hlen Hz]. split; [lia|]. intros j Hj.
    specialize (Hz j Hj). rewrite nth_firstn_below in Hz by lia. exact Hz.
  - intros [Hlen Hz]. split; [lia|]. intros j Hj.
    specialize (Hz j Hj). rewrite nth_firstn_below in Hz by lia. exact Hz.
Qed.

Lemma follows_line_feed_in_file (p : EncodingParameters) (c : list byte)
    (blockBeginning : Z) (o : Z) :
  0 <= blockBeginning ->
  follows_line_feed p blockBeginning
    (firstn blockSize (skipn (Z.to_nat blockBeginning) c)) o ->
  follows_line_feed p 0 c o.
Proof.
  intros Hbb (n & Hn & Hc & Hz & Ho).
  set (view := skipn (Z.to_nat blockBeginning) c) in *.
  assert (Hnv : (n < length view)%nat) by (rewrite length_firstn in Hn; lia).
  assert (Hkc : (Z.to_nat blockBeginning <= length c)%nat).
  { subst view. rewrite length_skipn in Hnv. lia. }
  exists (Z.to_nat blockBeginning + n)%nat.
  split; [subst view; rewrite length_skipn in Hnv; lia|]. split.
  - unfold sv_at in *. rewrite nth_firstn_below in Hc.
    + subst view. now rewrite nth_skipn_add in Hc.
    + rewrite length_firstn in Hn. lia.
  - split; [|lia].
    apply neighboursZero_skipn; [exact Hkc|].
    eapply neighboursZero_firstn; eassumption.
Qed.

Section GenuineLineFeeds.

Variable env : Environment.
Variable forced : option QTextCodec.

Hypothesis Hexc : exceptionAt env = None.
Hypothesis Hwf : wf_params (encodingParametersOf env (chosenCodec env forced)).

Lemma genuine_step (p : Z) (data : list byte) (state : IndexingState)
    (w : World) (state' : IndexingState) (w' : World) :
  0 <= p ->
  data = firstn blockSize (skipn (Z.to_nat p) (disk_bytes env)) ->
  data <> [] ->
  parsed_upto env forced p state w ->
  indexNextBlock env state (p, data) w = Ok state' w' ->
  exists new,
    offsets (linePosition_ (store w'))
    = offsets (linePosition_ (store w)) ++ new /\
    Forall (follows_line_feed
              (encodingParametersOf env (chosenCodec env forced)) 0
              (disk_bytes env)) new.
Proof.
  intros Hp Hdata Hne Hinv Hrun.
  destruct Hinv as (Hpos & Hfs & Hsz & Hchain & Hlast & Hfake & Hev & Hops
                    & Hcodec & Hexact).
  set (c := disk_bytes env) in *.
  set (state1 := guessEncoding env data (store w) state).
  assert (Hparams1 : encodingParams state1
                     = encodingParametersOf env (chosenCodec env forced)).
  { subst state1. unfold guessEncoding. cbn [fileTextCodec encodingParams].
    destruct Hcodec as [(Hn0 & Hftc & Hguess & Hforced & Hsguess)
                       |(Hn & Hftc & _)].
    - rewrite Hftc, Hguess. unfold getForcedEncoding, getEncodingGuess.
      rewrite Hforced, Hsguess. unfold chosenCodec.
      rewrite Hn0 in Hdata.
      change (Z.to_nat 0) with 0%nat in Hdata. cbn [skipn] in Hdata.
      fold c. rewrite <- Hdata.
      destruct forced; cbn; reflexivity.
    - rewrite Hftc. reflexivity. }
  assert (Hlen : Z.of_nat (length data) < 2147483648).
  { pose proof blockSize_small. subst data. rewrite length_firstn. lia. }
  destruct (parseDataBlock p data state1) as [[lp st]|] eqn:Eparse.
  2:{ exfalso. unfold indexNextBlock in Hrun.
      destruct (Z.ltb_spec p 0) as [Hneg|_]; [lia|].
      unfold bind, getStore in Hrun.
      rewrite checkpoint_ok in Hrun by exact Hexc. cbv beta iota in Hrun.
      cbn [store] in Hrun. destruct data as [|b rest]; [congruence|].
      fold state1 in Hrun. rewrite Eparse in Hrun. discriminate. }
  destruct (indexNextBlock_block env state p data w lp st Hexc Hp Hne Eparse)
    as (w1 & Hrun1 & Hstore1 & _).
  rewrite Hrun1 in Hrun. inversion Hrun; subst st w1. clear Hrun.
  change (parseDataBlock p data state1)
    with (parseLoop (S (length data)) (chosenScanner (encodingParams state1))
            p data state1 emptyLinePositionArray) in Eparse.
  destruct (parseLoop_sound p data Hlen _ _ _ _ _
              ltac:(rewrite Hparams1; exact Hwf) Eparse)
    as (new & Hoff & Hall).
  cbn [emptyLinePositionArray offsets app] in Hoff.
  exists new. split.
  - rewrite Hstore1. cbn [setProgress linePosition_].
    now rewrite addAll_offsets, Hoff.
  - rewrite Hparams1 in Hall. eapply Forall_impl; [|exact Hall].
    intros o Ho. apply (follows_line_feed_in_file _ c p o Hp).
    now rewrite <- Hdata.
Qed.

Lemma parseBlocks_genuine :
  forall blocks p q state w state' w',
    0 <= p ->
    contiguous (disk_bytes env) p blocks q ->
    parsed_upto env forced p state w ->
    parseBlocks env state (blocks ++ [lastBlock]) w = Ok state' w' ->
    exists new,
      offsets (linePosition_ (store w'))
      = offsets (linePosition_ (store w)) ++ new /\
      Forall (follows_line_feed
                (encodingParametersOf env (chosenCodec env forced)) 0
                (disk_bytes env)) new.
Proof.
  induction blocks as [|[bb data] rest IH];
    intros p q state w state' w' Hp Hcont Hinv Hrun.
  - cbn in Hrun. unfold bind, ret in Hrun. inversion Hrun; subst.
    exists []. now rewrite app_nil_r.
  - cbn [contiguous] in Hcont. destruct Hcont as (-> & Hne & Hdata & Hcont).
    destruct (parsed_upto_step env forced Hexc Hwf p data state w Hp Hdata Hne
                Hinv) as (s1 & w1 & Hrun1 & _ & Hinv1).
    destruct (genuine_step p data state w s1 w1 Hp Hdata Hne Hinv Hrun1)
      as (new1 & Hoff1 & Hall1).
    cbn [app parseBlocks] in Hrun. unfold bind at 1 in Hrun.
    rewrite Hrun1 in Hrun.
    assert (Hp' : 0 <= p + Z.of_nat (length data)) by lia.
    destruct (IH _ _ _ _ _ _ Hp' Hcont Hinv1 Hrun) as (new2 & Hoff2 & Hall2).
    exists (new1 ++ new2). split.
    + now rewrite Hoff2, Hoff1, app_assoc.
    + apply Forall_app. now split.
Qed.

End GenuineLineFeeds.

Lemma clampLength_le (m : Z) : clampLength m <= LineLength_max.
Proof.
  unfold clampLength. destruct (Z.gtb_spec m LineLength_max); lia.
Qed.

Lemma indexNextBlock_store (env : Environment) (state : IndexingState)
    (blockBeginning : Z) (block : list byte) (w : World)
    (state' : IndexingState) (w' : World) :
  exceptionAt env = None ->
  0 <= blockBeginning ->
  block <> [] ->
  indexNextBlock env state (blockBeginning, block) w = Ok state' w' ->
  exists len lp enc,
    len <= LineLength_max /\
    store w'
    = setProgress (progress_ (store w'))
        (addAll env block len lp enc (store w)).
Proof.
  intros Hexc Hbb Hne Hrun.
  destruct (parseDataBlock blockBeginning block
              (guessEncoding env block (store w) state))
    as [[lp st]|] eqn:Eparse.
  - destruct (indexNextBlock_block env state blockBeginning block w lp st
                Hexc Hbb Hne Eparse) as (w1 & Hrun1 & Hstore & _).
    rewrite Hrun1 in Hrun. inversion Hrun; subst st w1.
    exists (clampLength (max_length state')), lp, (encodingGuess state').
    split; [apply clampLength_le | exact Hstore].
  - exfalso. unfold indexNextBlock in Hrun.
    destruct (Z.ltb_spec blockBeginning 0) as [Hneg|_]; [lia|].
    unfold bind, getStore in Hrun.
    rewrite checkpoint_ok in Hrun by exact Hexc. cbv beta iota in Hrun.
    cbn [store] in Hrun. destruct block as [|b rest]; [congruence|].
    rewrite Eparse in Hrun. discriminate.
Qed.

Lemma addAll_hashes env block l lp e d :
  block <> [] ->
  useFastModificationDetection_ (addAll env block l lp e d)
  = useFastModificationDetection_ d /\
  hashBuilder_ (addAll env block l lp e d)
  = (if useFastModificationDetection_ d
     then hashBuilder_ d else hashBuilder_ d ++ block) /\
  fullDigest (hash_ (addAll env block l lp e d))
  = (if useFastModificationDetection_ d
     then fullDigest (hash_ d) else xxhash env (hashBuilder_ d ++ block)).
Proof.
  intros Hne. unfold addAll. destruct block as [|b rest]; [congruence|].
  destruct (useFastModificationDetection_ d) eqn:Efast; cbn;
    rewrite ?Efast; now repeat split.
Qed.

Lemma hashed_upto_step (env : Environment) (p : Z) (data : list byte)
    (len : Z) (lp : LinePositionArray) (enc : option QTextCodec) (pr : Z)
    (d : IndexingData) :
  0 <= p ->
  data = firstn blockSize (skipn (Z.to_nat p) (disk_bytes env)) ->
  data <> [] ->
  len <= LineLength_max ->
  hashed_upto env p d ->
  hashed_upto env (p + Z.of_nat (length data))
    (setProgress pr (addAll env data len lp enc d)).
Proof.
  intros Hp Hdata Hne Hlen (Hfast & Hsize & Hbuilder & Hdigest & Hmax).
  assert (Hpos : (0 < length data)%nat).
  { destruct data; [congruence | cbn; lia]. }
  assert (Hchunk : firstn (Z.to_nat (p + Z.of_nat (length data))) (disk_bytes env)
                   = firstn (Z.to_nat p) (disk_bytes env) ++ data).
  { rewrite Hdata. apply firstn_chunk. exact Hp. }
  destruct (addAll_hashes env data len lp enc d Hne) as (Hf & Hb & Hd).
  unfold hashed_upto. cbv zeta.
  cbn [setProgress useFastModificationDetection_ hash_ hashBuilder_ maxLength_].
  rewrite Hf, Hb, Hd, addAll_size, addAll_maxLength, Hfast, Hsize.
  split; [reflexivity|]. split; [reflexivity|].
  destruct (fastModificationDetection env) eqn:Efast; cbn [orb].
  - split; [exact Hbuilder|]. split; [|lia].
    rewrite Hdigest. reflexivity.
  - rewrite Hbuilder, Hchunk. split; [reflexivity|]. split; [|lia].
    destruct (Z.eqb_spec (p + Z.of_nat (length data)) 0) as [H0|_];
      [lia | reflexivity].
Qed.

Lemma parseBlocks_hashed (env : Environment) :
  exceptionAt env = None ->
  forall blocks p q state w state' w',
    0 <= p ->
    contiguous (disk_bytes env) p blocks q ->
    parseBlocks env state (blocks ++ [lastBlock]) w = Ok state' w' ->
    hashed_upto env p (store w) ->
    hashed_upto env q (store w').
Proof.
  intros Hexc.
  induction blocks as [|[bb data] rest IH];
    intros p q state w state' w' Hp Hcont Hrun Hinv.
  - cbn in Hcont. subst q. cbn in Hrun. unfold bind, ret in Hrun.
    inversion Hrun; subst. exact Hinv.
  - cbn [contiguous] in Hcont. destruct Hcont as (-> & Hne & Hdata & Hcont).
    cbn [app parseBlocks] in Hrun. unfold bind at 1 in Hrun.
    destruct (indexNextBlock env state (p, data) w) as [s1 w1| |] eqn:Estep;
      try discriminate.
    destruct (indexNextBlock_store env state p data w s1 w1 Hexc Hp Hne Estep)
      as (len & lp & enc & Hlen & Hstore).
    assert (Hp' : 0 <= p + Z.of_nat (length data)) by lia.
    apply (IH _ _ _ _ _ _ Hp' Hcont Hrun).
    rewrite Hstore. now apply hashed_upto_step.
Qed.

Lemma indexNextBlock_encoded (env : Environment) (state : IndexingState)
    (blockBeginning : Z) (block : list byte) (w : World)
    (state' : IndexingState) (w' : World) :
  exceptionAt env = None ->
  0 <= blockBeginning ->
  block <> [] ->
  indexNextBlock env state (blockBeginning, block) w = Ok state' w' ->
  encodingForced_ (store w') = encodingForced_ (store w) /\
  encodingGuess state'
  = Some (match encodingGuess state with
          | Some codec => codec
          | None => detectEncoding env block
          end) /\
  encodingGuess_ (store w') = encodingGuess state'.
Proof.
  intros Hexc Hbb Hne Hrun.
  destruct (parseDataBlock blockBeginning block
              (guessEncoding env block (store w) state))
    as [[lp st]|] eqn:Eparse.
  - destruct (indexNextBlock_block env state blockBeginning block w lp st
                Hexc Hbb Hne Eparse) as (w1 & Hrun1 & Hstore & _).
    rewrite Hrun1 in Hrun. inversion Hrun; subst st w1.
    apply parseLoop_same_setup in Eparse.
    destruct Eparse as (_ & _ & Hguess & _).
    rewrite Hstore. cbn [setProgress encodingForced_ encodingGuess_].
    rewrite addAll_forced, addAll_guess, Hguess.
    split; [reflexivity|]. split; [|reflexivity].
    unfold guessEncoding. cbn [encodingGuess].
    now destruct (encodingGuess state).
  - exfalso. unfold indexNextBlock in Hrun.
    destruct (Z.ltb_spec blockBeginning 0) as [Hneg|_]; [lia|].
    unfold bind, getStore in Hrun.
    rewrite checkpoint_ok in Hrun by exact Hexc. cbv beta iota in Hrun.
    cbn [store] in Hrun. destruct block as [|b rest]; [congruence|].
    rewrite Eparse in Hrun. discriminate.
Qed.

Lemma parseBlocks_encoded (env : Environment) (forced : option QTextCodec) :
  exceptionAt env = None ->
  forall blocks p q state w state' w',
    0 <= p ->
    contiguous (disk_bytes env) p blocks q ->
    parseBlocks env state (blocks ++ [lastBlock]) w = Ok state' w' ->
    encoded_upto env forced p state (store w) ->
    encoded_upto env forced q state' (store w').
Proof.
  intros Hexc.
  induction blocks as [|[bb data] rest IH];
    intros p q state w state' w' Hp Hcont Hrun Hinv.
  - cbn in Hcont. subst q. cbn in Hrun. unfold bind, ret in Hrun.
    inversion Hrun; subst. exact Hinv.
  - cbn [contiguous] in Hcont. destruct Hcont as (-> & Hne & Hdata & Hcont).
    cbn [app parseBlocks] in Hrun. unfold bind at 1 in Hrun.
    destruct (indexNextBlock env state (p, data) w) as [s1 w1| |] eqn:Estep;
      try discriminate.
    destruct (indexNextBlock_encoded env state p data w s1 w1 Hexc Hp Hne Estep)
      as (Hforced & Hguess & Hstore).
    assert (Hpos : (0 < length data)%nat).
    { destruct data; [congruence | cbn; lia]. }
    assert (Hp' : 0 <= p + Z.of_nat (length data)) by lia.
    apply (IH _ _ _ _ _ _ Hp' Hcont Hrun).
    destruct Hinv as (Hf & Hg & Hs). unfold encoded_upto. cbv zeta.
    destruct (Z.eqb_spec (p + Z.of_nat (length data)) 0) as [H0|_]; [lia|].
    rewrite Hforced, Hstore, Hguess, Hg. split; [exact Hf|].
    destruct (Z.eqb_spec p 0) as [->|Hnz].
    + change (Z.to_nat 0) with 0%nat in Hdata. cbn [skipn] in Hdata.
      rewrite Hdata. now split.
    + now split.
Qed.

Lemma rehashed_fields (env : Environment) (file : QFile) (d : IndexingData) :
  maxLength_ (rehashed env file d) = maxLength_ d /\
  hashBuilder_ (rehashed env file d) = hashBuilder_ d /\
  linePosition_ (rehashed env file d) = linePosition_ d /\
  encodingGuess_ (rehashed env file d) = encodingGuess_ d /\
  encodingForced_ (rehashed env file d) = encodingForced_ d /\
  size (hash_ (rehashed env file d)) = size (hash_ d) /\
  fullDigest (hash_ (rehashed env file d)) = fullDigest (hash_ d).
Proof. now repeat split. Qed.

Lemma rehashed_fingerprint (env : Environment) (c : list byte)
    (d : IndexingData) :
  hash_ d
  = mkIndexedHash (Z.of_nat (length c))
      (if fastModificationDetection env || (Z.of_nat (length c) =? 0)
       then 0 else xxhash env c)
      (headerDigest (hash_ d)) (headerSize (hash_ d)) (tailDigest (hash_ d))
      (tailOffset (hash_ d)) (tailSize (hash_ d)) ->
  hash_ (rehashed env (mkQFile c (Z.of_nat (length c))) d)
  = fingerprintOf env c.
Proof.
  intros Hd. unfold rehashed, fingerprintOf. cbv zeta.
  cbn [contents fpos setTailHash setHeaderHash hash_ size fullDigest].
  rewrite Hd. cbn [size fullDigest]. reflexivity.
Qed.

(** A full index that nobody interrupts: the world when the blocks have been
    parsed, and the store at the end. *)
Lemma full_index_quiet (env : Environment) (forced : option QTextCodec)
    (d : IndexingData) :
  exceptionAt env = None ->
  interruptSetAt env = None ->
  disk_readable env = true ->
  wf_params (encodingParametersOf env (chosenCodec env forced)) ->
  let c := disk_bytes env in
  exists state1 w1 w',
    parsed_upto env forced (Z.of_nat (length c)) state1 w1 /\
    hashed_upto env (Z.of_nat (length c)) (store w1) /\
    encoded_upto env forced (Z.of_nat (length c)) state1 (store w1) /\
    (lineFeedWidth (encodingParametersOf env (chosenCodec env forced)) = 1 ->
     ~ In TAB c ->
     longest_upto env (Z.of_nat (length c)) state1 (store w1)) /\
    Forall (follows_line_feed
              (encodingParametersOf env (chosenCodec env forced)) 0 c)
      (offsets (linePosition_ (store w1))) /\
    FullIndexOperation_run env forced (startWorld d) = Ok (ResultBool true) w' /\
    let d1 :=
      if file_size state1 >? pos state1
      then addAll env [] 0 (fake_line_position state1) (encodingGuess state1)
             (store w1)
      else store w1 in
    let d2 := rehashed env (mkQFile c (Z.of_nat (length c))) d1 in
    let tooLong := getMaxLength d2 =? LineLength_max in
    let d3 := if tooLong then clear env d2 else d2 in
    store w'
    = match getEncodingGuess d3 with
      | None => setEncodingGuess (Some (codecForLocale env)) d3
      | Some _ => d3
      end /\
    events w'
    = events w1 ++ (if tooLong then [linesTooLong] else [])
      ++ [indexingFinished true].
Proof.
  intros Hexc Hirq Hread Hwf c.
  destruct (readLoop (length c) env (mkQFile c 0) 0%nat)
    as [[blocks file'] np] eqn:Eread.
  destruct (readLoop_contiguous env _ _ _ _ _ _ Eread ltac:(cbn; lia))
    as (Hc & Hcont & Hle & Hin & Hall).
  cbn [contents fpos] in Hc, Hcont, Hle, Hin, Hall.
  unfold file_size_of in Hin, Hall. cbn [contents] in Hin, Hall.
  specialize (Hin ltac:(lia)). specialize (Hall Hirq ltac:(lia)).
  assert (Hfile : file' = mkQFile c (Z.of_nat (length c))).
  { destruct file' as [c' p']. cbn in Hc, Hin, Hall |- *. f_equal; [exact Hc|lia]. }
  subst file'. cbn [fpos] in Hcont.
  set (state0 :=
         mkIndexingState (mkEncodingParameters 1 0) 0 0 0 0
           (Z.of_nat (length c)) None (orElse forced None)).
  set (w0 := mkWorld (forceEncoding forced (clear env d))
               [OpClear; OpForceEncoding forced] [indexingProgressed 0] np 3).
  assert (Hinv0 : parsed_upto env forced 0 state0 w0).
  { unfold parsed_upto. cbn. rewrite orElse_None_r.
    repeat split; try lia; try reflexivity.
    - intros [H|[]]. discriminate.
    - repeat constructor.
    - left. now repeat split. }
  assert (Hhash0 : hashed_upto env 0 (store w0)).
  { unfold hashed_upto. cbn. unfold LineLength_max.
    rewrite orb_true_r. destruct (fastModificationDetection env);
      repeat split; try reflexivity; lia. }
  destruct (parseBlocks_contiguous env forced Hexc Hwf blocks 0
              (Z.of_nat (length c)) state0 w0 ltac:(lia) Hcont Hinv0)
    as (state1 & w1 & Hparse & Hpolls & Hinv1).
  pose proof (parseBlocks_hashed env Hexc blocks 0 _ state0 w0 state1 w1
                ltac:(lia) Hcont Hparse Hhash0) as Hhash1.
  assert (Henc0 : encoded_upto env forced 0 state0 (store w0)).
  { unfold encoded_upto. cbn. now repeat split. }
  pose proof (parseBlocks_encoded env forced Hexc blocks 0 _ state0 w0 state1 w1
                ltac:(lia) Hcont Hparse Henc0) as Henc1.
  destruct (doIndex_finish_quiet env (mkQFile c (Z.of_nat (length c))) state1 w1
              Hexc Hirq) as (w2 & Hfin & Hpolls2 & Hstore2 & Hev2).
  exists state1, w1.
  eexists. split; [exact Hinv1|]. split; [exact Hhash1|].
  split; [exact Henc1|]. split.
  { intros Hw1 Hplain.
    apply (parseBlocks_longest env forced Hexc Hwf Hw1 Hplain blocks 0 _
             state0 w0 state1 w1 ltac:(lia) Hcont Hinv0); [|exact Hparse].
    unfold longest_upto. cbn. now repeat split. }
  split.
  { destruct (parseBlocks_genuine env forced Hexc Hwf blocks 0 _ state0 w0
                state1 w1 ltac:(lia) Hcont Hinv0 Hparse)
      as (new & -> & Hgenuine).
    exact Hgenuine. }
  split.
  - unfold FullIndexOperation_run, FullIndexOperation_try, try_catch, bind,
      emit, ret.
    cbn [startWorld store oplog events polls stages].
    rewrite mutate_ok by exact Hexc. cbv beta iota.
    cbn [store oplog events polls stages applyOp app].
    rewrite mutate_ok by exact Hexc. cbv beta iota.
    cbn [store oplog events polls stages applyOp app].
    unfold doIndex, wait_for_all, bind, getStore.
    rewrite checkpoint_ok by exact Hexc. cbv beta iota.
    rewrite Hread. cbn [negb].
    cbn [store oplog events polls stages pos].
    unfold readFileInBlocks.
    cbn [store oplog events polls stages pos contents fpos].
    unfold seek. change (0 <? 0) with false. cbv iota. cbn [contents].
    fold c. rewrite Eread.
    unfold getEncodingGuess, getForcedEncoding, file_size_of.
    cbn [forceEncoding clear encodingGuess_ encodingForced_ contents].
    fold c. fold state0.
    change (mkWorld (forceEncoding forced (clear env d))
              [OpClear; OpForceEncoding forced] [indexingProgressed 0] np 3)
      with w0.
    rewrite Hparse. rewrite Hfin. rewrite poll_quiet by exact Hirq.
    reflexivity.
  - cbv zeta. cbn [store events]. split; [exact Hstore2|].
    rewrite Hev2, <- app_assoc. reflexivity.
Qed.

Lemma setEncodingGuess_if_none_fields env d :
  let d' := match getEncodingGuess d with
            | None => setEncodingGuess (Some (codecForLocale env)) d
            | Some _ => d
            end in
  hash_ d' = hash_ d /\ hashBuilder_ d' = hashBuilder_ d /\
  maxLength_ d' = maxLength_ d /\ linePosition_ d' = linePosition_ d /\
  useFastModificationDetection_ d' = useFastModificationDetection_ d /\
  getForcedEncoding d' = encodingForced_ d /\
  getEncodingGuess d'
  = Some (match encodingGuess_ d with
          | Some codec => codec
          | None => codecForLocale env
          end).
Proof.
  cbv zeta. unfold getEncodingGuess, getForcedEncoding.
  destruct (encodingGuess_ d) eqn:E; cbn; rewrite ?E; now repeat split.
Qed.

(** The store of a full index that was not interrupted and did not end on
    the "lines too long" error. *)
Lemma full_index_hashes (env : Environment) (forced : option QTextCodec)
    (d : IndexingData) :
  exceptionAt env = None ->
  interruptSetAt env = None ->
  disk_readable env = true ->
  wf_params (encodingParametersOf env (chosenCodec env forced)) ->
  exists w',
    FullIndexOperation_run env forced (startWorld d) = Ok (ResultBool true) w' /\
    (~ In linesTooLong (events w') ->
     getHash (store w') = fingerprintOf env (disk_bytes env) /\
     hashBuilder_ (store w')
     = (if fastModificationDetection env then [] else disk_bytes env) /\
     0 <= getMaxLength (store w') < LineLength_max /\
     getForcedEncoding (store w') = forced /\
     getEncodingGuess (store w')
     = Some (match disk_bytes env with
             | [] => codecForLocale env
             | _ :: _ => detectEncoding env (firstn blockSize (disk_bytes env))
             end) /\
     useFastModificationDetection_ (store w')
     = fastModificationDetection env) /\
    (In linesTooLong (events w') ->
     store w' = setEncodingGuess (Some (codecForLocale env)) (clear env d)).
Proof.
  intros Hexc Hirq Hread Hwf.
  destruct (full_index_quiet env forced d Hexc Hirq Hread Hwf)
    as (state1 & w1 & w' & Hinv & Hhash & Henc & _ & _ & Hrun & Hstore & Hev).
  cbv zeta in Hstore, Hev.
  set (c := disk_bytes env) in *.
  set (d1 := if file_size state1 >? pos state1
             then addAll env [] 0 (fake_line_position state1)
                    (encodingGuess state1) (store w1)
             else store w1) in *.
  set (d2 := rehashed env (mkQFile c (Z.of_nat (length c))) d1) in *.
  destruct Hhash as (Hfast & Hsize & Hbuilder & Hdigest & Hmax).
  destruct Henc as (Hforced & Hguess & Hguess').
  assert (Hguess_c :
            encodingGuess state1
            = match c with
              | [] => None
              | _ :: _ => Some (detectEncoding env (firstn blockSize c))
              end).
  { rewrite Hguess. fold c. destruct c as [|b rest] eqn:Ec; [reflexivity|].
    destruct (Z.eqb_spec (Z.of_nat (length (b :: rest))) 0) as [H0|_];
      [cbn in H0; lia | reflexivity]. }
  assert (Hd1 : hash_ d1 = hash_ (store w1) /\
                hashBuilder_ d1 = hashBuilder_ (store w1) /\
                maxLength_ d1 = maxLength_ (store w1) /\
                encodingForced_ d1 = forced /\
                encodingGuess_ d1 = encodingGuess state1 /\
                useFastModificationDetection_ d1
                = useFastModificationDetection_ (store w1)).
  { subst d1. destruct (file_size state1 >? pos state1).
    - split; [reflexivity|]. split; [reflexivity|].
      rewrite addAll_maxLength, addAll_forced, addAll_guess.
      split; [lia|]. now repeat split.
    - rewrite Hguess'. now repeat split. }
  destruct Hd1 as (Hh1 & Hb1 & Hm1 & Hf1 & Hg1 & Hu1).
  assert (Hquiet : ~ In linesTooLong (events w1)) by apply Hinv.
  exists w'. split; [exact Hrun|].
  destruct (getMaxLength d2 =? LineLength_max) eqn:Elong.
  - split.
    + intros Hno. exfalso. apply Hno. rewrite Hev.
      apply in_or_app. right. now left.
    + intros _. rewrite Hstore. reflexivity.
  - split.
    + intros _. rewrite Hstore.
      destruct (setEncodingGuess_if_none_fields env d2)
        as (Hh & Hb & Hm & _ & Hu & Hf & Hg).
      rewrite Hf, Hg, Hu. unfold getHash, getMaxLength.
      rewrite Hh, Hb, Hm.
      split; [|split; [|split; [|split; [|split]]]].
      * subst d2. apply rehashed_fingerprint.
        rewrite Hh1. destruct (hash_ (store w1)) as [sz fd hd hs td tO ts] eqn:Eh.
        cbn [size fullDigest headerDigest headerSize tailDigest tailOffset
               tailSize] in *.
        rewrite Hsize, Hdigest, Nat2Z.id, firstn_all. reflexivity.
      * subst d2. destruct (rehashed_fields env (mkQFile c (Z.of_nat (length c))) d1)
          as (_ & -> & _).
        rewrite Hb1, Hbuilder, Nat2Z.id, firstn_all. reflexivity.
      * apply Z.eqb_neq in Elong. unfold getMaxLength in Elong.
        subst d2. destruct (rehashed_fields env (mkQFile c (Z.of_nat (length c))) d1)
          as (Hm2 & _).
        rewrite Hm2 in *. lia.
      * subst d2. exact Hf1.
      * subst d2.
        destruct (rehashed_fields env (mkQFile c (Z.of_nat (length c))) d1)
          as (_ & _ & _ & -> & _).
        rewrite Hg1, Hguess_c. now destruct c.
      * subst d2. cbn [rehashed setTailHash setHeaderHash
                       useFastModificationDetection_].
        now rewrite Hu1.
    + intros Hin. exfalso. rewrite Hev in Hin.
      apply in_app_or in Hin. destruct Hin as [Hin|[Hin|[]]];
        [now apply Hquiet | discriminate].
Qed.

(** X8.  The fingerprint of a full index.  A full index of a readable file
    that nobody interrupts returns [true]; unless it ends on the "lines too
    long" error, the fingerprint in the store is the one of the bytes of the
    file (its size; the digest of all the bytes, left at 0 in fast mode and
    for an empty file; the digests of the first and of the last
    [IndexingBlockSize] bytes), and the longest line is below the limit of
    the line length.  When it does end on that error, the store is the
    cleared store with the codec of the locale as its guess. *)
Theorem full_index_fingerprint (env : Environment)
    (forced : option QTextCodec) (d : IndexingData) :
  exceptionAt env = None ->
  interruptSetAt env = None ->
  disk_readable env = true ->
  wf_params (encodingParametersOf env (chosenCodec env forced)) ->
  exists w',
    FullIndexOperation_run env forced (startWorld d) = Ok (ResultBool true) w' /\
    (~ In linesTooLong (events w') ->
     getHash (store w') = fingerprintOf env (disk_bytes env) /\
     0 <= getMaxLength (store w') < LineLength_max) /\
    (In linesTooLong (events w') ->
     store w' = setEncodingGuess (Some (codecForLocale env)) (clear env d)).
Proof.
  intros Hexc Hirq Hread Hwf.
  destruct (full_index_hashes env forced d Hexc Hirq Hread Hwf)
    as (w' & Hrun & Hok & Hlong).
  exists w'. split; [exact Hrun|]. split; [|exact Hlong].
  intros Hquiet. destruct (Hok Hquiet) as (Hh & _ & Hm & _). now split.
Qed.

Lemma full_index_fingerprint_witness :
  exists w',
    FullIndexOperation_run (exampleEnv hello true None None) None
      (startWorld helloStore)
    = Ok (ResultBool true) w' /\
    (~ In linesTooLong (events w') ->
     getHash (store w') = fingerprintOf (exampleEnv hello true None None) hello).
Proof.
  destruct (full_index_fingerprint (exampleEnv hello true None None) None
              helloStore)
    as (w' & Hrun & Hok & _);
    [reflexivity | reflexivity | reflexivity
    | (unfold wf_params; simpl; lia) |].
  exists w'. split; [exact Hrun|]. intros Hquiet. apply (Hok Hquiet).
Defined.

Lemma firstn_length_firstn_app (A : Type) (n : nat) (l r : list A) :
  firstn (length (firstn n l)) (l ++ r) = firstn n l.
Proof.
  rewrite firstn_app.
  replace (length (firstn n l) - length l)%nat with 0%nat
    by (rewrite length_firstn; lia).
  cbn [firstn]. rewrite app_nil_r. apply firstn_length_firstn.
Qed.

(** The change check of a file that begins with the bytes [c], against the
    fingerprint of [c]. *)
Lemma check_against_fingerprint (env env' : Environment) (c extra : list byte)
    (d : IndexingData) :
  exceptionAt env' = None ->
  disk_readable env' = true ->
  fastModificationDetection env' = fastModificationDetection env ->
  xxhash env' = xxhash env ->
  disk_bytes env' = c ++ extra ->
  c <> [] ->
  getHash d = fingerprintOf env c ->
  let status := match extra with [] => Unchanged | _ :: _ => DataAdded end in
  exists w',
    CheckFileChangesOperation_run env' (startWorld d)
    = Ok (ResultStatus status) w' /\
    store w' = d /\
    events w' = [fileCheckFinished status].
Proof.
  intros Hexc Hread Hfast Hxx Hbytes Hne Hhash status.
  assert (Hlen : (0 < length c)%nat).
  { destruct c; [congruence | cbn; lia]. }
  unfold CheckFileChangesOperation_run, CheckFileChangesOperation_try,
    try_catch, doCheckFileChanges, bind, getStore, ret, emit, diverge.
  rewrite checkpoint_ok by exact Hexc. cbv beta iota.
  cbn [startWorld store oplog events polls stages].
  rewrite Hhash, Hbytes, Hread, Hfast. cbn [negb].
  unfold fingerprintOf. cbv zeta.
  cbn [size fullDigest headerDigest headerSize tailDigest tailOffset tailSize].
  rewrite length_app.
  destruct (Z.eqb_spec (Z.of_nat (length c + length extra)) 0) as [H0|_]; [lia|].
  destruct (Z.ltb_spec (Z.of_nat (length c + length extra))
              (Z.of_nat (length c))) as [Hlt|_]; [lia|].
  cbn [orb].
  assert (Hstatus :
            (Z.of_nat (length c + length extra) >? Z.of_nat (length c))
            = match extra with [] => false | _ :: _ => true end).
  { destruct extra as [|b rest].
    - destruct (Z.gtb_spec (Z.of_nat (length c + length (@nil byte)))
                  (Z.of_nat (length c))) as [H|_]; [cbn in H; lia | reflexivity].
    - destruct (Z.gtb_spec (Z.of_nat (length c + length (b :: rest)))
                  (Z.of_nat (length c))) as [_|H]; [reflexivity | cbn in H; lia]. }
  rewrite Hstatus.
  set (tailHashOffset :=
         if Z.of_nat (length c) <=? IndexingBlockSize then 0
         else Z.of_nat (length c) - IndexingBlockSize).
  assert (Hoff : 0 <= tailHashOffset <= Z.of_nat (length c)).
  { subst tailHashOffset. pose proof IndexingBlockSize_pos.
    destruct (Z.leb_spec (Z.of_nat (length c)) IndexingBlockSize); lia. }
  destruct (fastModificationDetection env).
  - destruct (getDigest_spec env' (mkQFile (c ++ extra) 0)
                (Z.of_nat (length (firstn blockSize c))) ltac:(cbn; lia))
      as (file1 & -> & Hc1).
    rewrite Hxx. cbn [contents fpos]. change (Z.to_nat 0) with 0%nat. cbn [skipn].
    rewrite Nat2Z.id, firstn_length_firstn_app, Z.eqb_refl. cbn [negb].
    unfold seek. destruct (Z.ltb_spec tailHashOffset 0) as [Hneg|_]; [lia|].
    destruct (getDigest_spec env' (mkQFile (contents file1) tailHashOffset)
                (Z.of_nat (length (firstn blockSize
                                     (skipn (Z.to_nat tailHashOffset) c))))
                ltac:(cbn; lia))
      as (file2 & -> & _).
    rewrite Hxx. cbn [contents fpos]. rewrite Hc1. cbn [contents].
    rewrite Nat2Z.id, skipn_app.
    replace (Z.to_nat tailHashOffset - length c)%nat with 0%nat by lia.
    cbn [skipn]. rewrite firstn_length_firstn_app, Z.eqb_refl. cbn [negb].
    subst status. destruct extra; eexists; now repeat split.
  - cbn [orb].
    destruct (Z.eqb_spec (Z.of_nat (length c)) 0) as [H0|_]; [lia|].
    destruct (getDigest_spec env' (mkQFile (c ++ extra) 0)
                (Z.of_nat (length c)) ltac:(cbn; lia))
      as (file1 & -> & _).
    rewrite Hxx. cbn [contents fpos]. change (Z.to_nat 0) with 0%nat. cbn [skipn].
    rewrite Nat2Z.id, firstn_app, Nat.sub_diag, firstn_all. cbn [firstn].
    rewrite app_nil_r, Z.eqb_refl. cbn [negb].
    subst status. destruct extra; eexists; now repeat split.
Qed.

(** X12.  The encodings after a full index (nobody interrupts, no
    exception).  Unless the run ends on the "lines too long" error, the
    store keeps the forced encoding that was asked for, and its encoding
    guess is what the detector says about the first block of the file, also
    when an encoding is forced; for an empty file it is the codec of the
    locale.  After the "lines too long" error the forced encoding is gone
    and the guess is the codec of the locale. *)
Theorem full_index_encodings (env : Environment)
    (forced : option QTextCodec) (d : IndexingData) :
  exceptionAt env = None ->
  interruptSetAt env = None ->
  disk_readable env = true ->
  wf_params (encodingParametersOf env (chosenCodec env forced)) ->
  exists w',
    FullIndexOperation_run env forced (startWorld d) = Ok (ResultBool true) w' /\
    (~ In linesTooLong (events w') ->
     getForcedEncoding (store w') = forced /\
     getEncodingGuess (store w')
     = Some (match disk_bytes env with
             | [] => codecForLocale env
             | _ :: _ => detectEncoding env (firstn blockSize (disk_bytes env))
             end)) /\
    (In linesTooLong (events w') ->
     getForcedEncoding (store w') = None /\
     getEncodingGuess (store w') = Some (codecForLocale env)).
Proof.
  intros Hexc Hirq Hread Hwf.
  destruct (full_index_hashes env forced d Hexc Hirq Hread Hwf)
    as (w' & Hrun & Hok & Hlong).
  exists w'. split; [exact Hrun|]. split.
  - intros Hquiet. destruct (Hok Hquiet) as (_ & _ & _ & Hf & Hg & _). now split.
  - intros Hin. rewrite (Hlong Hin). now split.
Qed.

Lemma full_index_encodings_witness :
  exists w',
    FullIndexOperation_run (exampleEnv hello false None None)
      (Some "UTF-16LE"%string) (startWorld helloStore)
    = Ok (ResultBool true) w'.
Proof.
  destruct (full_index_encodings (exampleEnv hello false None None)
              (Some "UTF-16LE"%string) helloStore)
    as (w' & Hrun & _);
    [reflexivity | reflexivity | reflexivity
    | (unfold wf_params; simpl; lia) |].
  exists w'. exact Hrun.
Defined.

Lemma check_shorter_file (env' : Environment) (d : IndexingData) :
  exceptionAt env' = None ->
  Z.of_nat (length (disk_bytes env')) < size (getHash d) ->
  exists w',
    CheckFileChangesOperation_run env' (startWorld d)
    = Ok (ResultStatus Truncated) w' /\
    store w' = d /\
    events w' = [fileCheckFinished Truncated].
Proof.
  intros Hexc Hlt.
  unfold CheckFileChangesOperation_run, CheckFileChangesOperation_try,
    try_catch, doCheckFileChanges, bind, getStore, ret, emit.
  rewrite checkpoint_ok by exact Hexc. cbv beta iota.
  cbn [startWorld store oplog events polls stages].
  destruct (Z.ltb_spec (Z.of_nat (length (disk_bytes env'))) (size (getHash d)))
    as [_|Hge]; [|lia].
  rewrite orb_true_r. eexists. now repeat split.
Qed.

(** X9.  Index, then check.  After a full index of a file that is not empty
    (nobody interrupts, no exception, no "lines too long" error), a change
    check made with the same settings and the same digest function reports
    [Unchanged] while the file holds the same bytes, [DataAdded] once bytes
    have been appended to it, and [Truncated] for any file that is shorter;
    the check leaves the store as the index left it. *)
Theorem index_then_check (env : Environment) (forced : option QTextCodec)
    (d : IndexingData) :
  exceptionAt env = None ->
  interruptSetAt env = None ->
  disk_readable env = true ->
  wf_params (encodingParametersOf env (chosenCodec env forced)) ->
  disk_bytes env <> [] ->
  exists w',
    FullIndexOperation_run env forced (startWorld d) = Ok (ResultBool true) w' /\
    (~ In linesTooLong (events w') ->
     (forall env' extra,
         exceptionAt env' = None ->
         disk_readable env' = true ->
         fastModificationDetection env' = fastModificationDetection env ->
         xxhash env' = xxhash env ->
         disk_bytes env' = disk_bytes env ++ extra ->
         let status :=
           match extra with [] => Unchanged | _ :: _ => DataAdded end in
         exists w'',
           CheckFileChangesOperation_run env' (startWorld (store w'))
           = Ok (ResultStatus status) w'' /\
           store w'' = store w' /\
           events w'' = [fileCheckFinished status]) /\
     (forall env',
         exceptionAt env' = None ->
         (length (disk_bytes env') < length (disk_bytes env))%nat ->
         exists w'',
           CheckFileChangesOperation_run env' (startWorld (store w'))
           = Ok (ResultStatus Truncated) w'' /\
           store w'' = store w' /\
           events w'' = [fileCheckFinished Truncated])).
Proof.
  intros Hexc Hirq Hread Hwf Hne.
  destruct (full_index_hashes env forced d Hexc Hirq Hread Hwf)
    as (w' & Hrun & Hok & _).
  exists w'. split; [exact Hrun|]. intros Hquiet.
  destruct (Hok Hquiet) as (Hhash & _). split.
  - intros env' extra Hexc' Hread' Hfast Hxx Hbytes.
    now apply (check_against_fingerprint env env' (disk_bytes env) extra).
  - intros env' Hexc' Hshort. apply check_shorter_file; [exact Hexc'|].
    rewrite Hhash. unfold fingerprintOf. cbn [size]. lia.
Qed.

Lemma index_then_check_witness :
  exists w' w'',
    FullIndexOperation_run (exampleEnv hello true None None) None
      (startWorld emptyIndexingData)
    = Ok (ResultBool true) w' /\
    CheckFileChangesOperation_run
      (exampleEnv (hello ++ [x0a]) true None None) (startWorld (store w'))
    = Ok (ResultStatus DataAdded) w''.
Proof.
  destruct (index_then_check (exampleEnv hello true None None) None
              emptyIndexingData)
    as (w' & Hrun & Hcheck);
    [reflexivity | reflexivity | reflexivity
    | (unfold wf_params; simpl; lia) | (vm_compute; discriminate) |].
  assert (Hquiet : ~ In linesTooLong (events w')).
  { assert (E : exists w0,
               FullIndexOperation_run (exampleEnv hello true None None) None
                 (startWorld emptyIndexingData) = Ok (ResultBool true) w0 /\
               ~ In linesTooLong (events w0)).
    { eexists. split; [vm_compute; reflexivity|].
      vm_compute. intros H.
      repeat (destruct H as [H|H]; [discriminate|]). exact H. }
    destruct E as (w0 & E0 & Hq). rewrite E0 in Hrun.
    inversion Hrun; subst w0. exact Hq. }
  destruct (Hcheck Hquiet) as (Hgrown & _).
  destruct (Hgrown (exampleEnv (hello ++ [x0a]) true None None) [x0a])
    as (w'' & Hrun' & _); try reflexivity.
  exists w', w''. split; [exact Hrun | exact Hrun'].
Defined.

Lemma rehashed_fixpoint (env : Environment) (c : list byte)
    (d : IndexingData) :
  hash_ d = fingerprintOf env c ->
  rehashed env (mkQFile c (Z.of_nat (length c))) d = d.
Proof.
  intros Hd. destruct d as [m h hb lp g f pr fast]. cbn [hash_] in Hd. subst h.
  reflexivity.
Qed.

(** X10.  After a full index (nobody interrupts, no exception, no "lines too
    long" error), a partial index of the same file is idle: it returns
    [true] and leaves the store exactly as the full index left it. *)
Theorem partial_index_after_full_index_is_idle (env : Environment)
    (forced : option QTextCodec) (d : IndexingData) :
  exceptionAt env = None ->
  interruptSetAt env = None ->
  disk_readable env = true ->
  wf_params (encodingParametersOf env (chosenCodec env forced)) ->
  exists w',
    FullIndexOperation_run env forced (startWorld d) = Ok (ResultBool true) w' /\
    (~ In linesTooLong (events w') ->
     exists w'',
       PartialIndexOperation_run env (startWorld (store w'))
       = Ok (ResultBool true) w'' /\
       store w'' = store w' /\
       events w'' = [indexingProgressed 0; indexingFinished true]).
Proof.
  intros Hexc Hirq Hread Hwf.
  destruct (full_index_hashes env forced d Hexc Hirq Hread Hwf)
    as (w' & Hrun & Hok & _).
  exists w'. split; [exact Hrun|]. intros Hquiet.
  destruct (Hok Hquiet) as (Hhash & _ & Hmax & _ & Hguess & _).
  assert (Hsize : getIndexedSize (store w')
                  = Z.of_nat (length (disk_bytes env))).
  { unfold getIndexedSize. unfold getHash in Hhash. now rewrite Hhash. }
  destruct (partial_index_no_growth env (store w') Hexc Hirq Hread
              ltac:(lia) ltac:(lia)) as (w'' & Hrun' & Hev & Hstore).
  exists w''. split; [exact Hrun'|]. split; [|exact Hev].
  rewrite Hstore. cbv zeta. rewrite Hsize.
  rewrite rehashed_fixpoint by exact Hhash.
  rewrite Hguess. reflexivity.
Qed.

Lemma partial_index_after_full_index_is_idle_witness :
  exists w' : World,
    FullIndexOperation_run (exampleEnv threeLines false None None) None
      (startWorld emptyIndexingData)
    = Ok (ResultBool true) w'.
Proof.
  destruct (partial_index_after_full_index_is_idle
              (exampleEnv threeLines false None None) None emptyIndexingData)
    as (w' & Hrun & _);
    [reflexivity | reflexivity | reflexivity
    | (unfold wf_params; simpl; lia) |].
  exists w'. exact Hrun.
Defined.

Lemma returns_ret (A : Type) (P : A -> Prop) (a : A) :
  P a -> returns P (ret a).
Proof. intros H w. exact H. Qed.

Lemma returns_bind (A B : Type) (P : A -> Prop) (Q : B -> Prop) (m : M A)
    (f : A -> M B) :
  returns P m -> (forall a, P a -> returns Q (f a)) ->
  returns Q (bind m f).
Proof.
  intros Hm Hf w. unfold bind. specialize (Hm w).
  destruct (m w) as [a w1|what w1|]; [|exact I|exact Hm].
  apply (Hf a Hm w1).
Qed.

Lemma returns_emit (ev : Event) : returns anything (emit ev).
Proof. intros w. exact I. Qed.

Lemma returns_getStore : returns anything getStore.
Proof. intros w. exact I. Qed.

Lemma returns_poll (env : Environment) : returns anything (poll env).
Proof. intros w. exact I. Qed.

Lemma returns_checkpoint (env : Environment) : returns anything (checkpoint env).
Proof.
  intros w. unfold checkpoint.
  destruct (exceptionAt env) as [[k what]|]; [|exact I].
  destruct (Nat.eqb k (stages w)); exact I.
Qed.

Lemma returns_mutate (env : Environment) (op : StoreOp) :
  returns anything (mutate env op).
Proof.
  unfold mutate. eapply returns_bind; [apply returns_checkpoint|].
  intros _ _ w. exact I.
Qed.

Ltac returns_step :=
  first
    [ apply returns_emit
    | apply returns_mutate
    | apply returns_poll
    | apply returns_getStore
    | apply returns_checkpoint
    | apply returns_ret; exact I
    | eapply returns_bind; [|intros ? ?] ].

Lemma parseDataBlock_total (blockBeginning : Z) (block : list byte)
    (state : IndexingState) :
  Z.of_nat (length block) < 2147483648 ->
  wf_params (encodingParams state) ->
  parseDataBlock blockBeginning block state <> None.
Proof.
  intros Hsize Hwf.
  destruct (Z_gt_le_dec (pos state) (blockBeginning + Z.of_nat (length block)))
    as [Hout|Hin].
  - unfold parseDataBlock. cbv zeta.
    rewrite parseLoop_out_of_block by exact Hout. discriminate.
  - destruct (parseDataBlock_result blockBeginning block state Hsize Hwf Hin)
      as (new & state' & -> & _). discriminate.
Qed.

Lemma returns_indexNextBlock (env : Environment) (state : IndexingState)
    (blockData : BlockData) :
  wf_env env -> small_block blockData ->
  returns anything (indexNextBlock env state blockData).
Proof.
  intros Hwf Hsmall. destruct blockData as [bb block]. unfold indexNextBlock.
  destruct (bb <? 0); [apply returns_ret; exact I|].
  eapply returns_bind; [apply returns_checkpoint|]. intros _ _.
  eapply returns_bind; [apply returns_getStore|]. intros d _.
  destruct block as [|b rest].
  - repeat returns_step.
  - destruct (parseDataBlock bb (b :: rest)
                (guessEncoding env (b :: rest) d state))
      as [[lp st]|] eqn:Eparse.
    + eapply returns_bind; [apply returns_mutate|]. intros _ _.
      eapply returns_bind; [apply returns_getStore|]. intros d' _.
      eapply returns_bind; [|intros; apply returns_ret; exact I].
      destruct (negb _); repeat returns_step. 
    + exfalso. revert Eparse. apply parseDataBlock_total; [exact Hsmall|].
      unfold guessEncoding. cbn [encodingParams]. apply Hwf.
Qed.

Lemma returns_parseBlocks (env : Environment) (blocks : list BlockData) :
  wf_env env -> Forall small_block blocks ->
  forall state, returns anything (parseBlocks env state blocks).
Proof.
  intros Hwf. induction 1 as [|b rest Hb Hrest IH]; intros state;
    cbn [parseBlocks].
  - apply returns_ret. exact I.
  - eapply returns_bind; [now apply returns_indexNextBlock|].
    intros state' _. apply IH.
Qed.

Lemma returns_readFileInBlocks (env : Environment) (file : QFile) :
  0 <= fpos file ->
  returns (fun r => Forall small_block (fst r)) (readFileInBlocks env file).
Proof.
  intros Hpos w.
  destruct (readFileInBlocks_blocks env file w Hpos)
    as (blocks & file' & w' & -> & Hall).
  cbn [fst]. apply Forall_app. split.
  - eapply Forall_impl; [|exact Hall]. intros b (_ & _ & Hlen).
    unfold small_block. unfold IndexingBlockSize in Hlen. lia.
  - constructor; [|constructor]. unfold small_block, lastBlock. cbn. lia.
Qed.

Lemma returns_rehash (env : Environment) (file : QFile) :
  returns anything (rehash env file).
Proof.
  unfold rehash.
  destruct (read (seek file 0) IndexingBlockSize) as [[n1 b1] f1].
  eapply returns_bind; [apply returns_mutate|]. intros _ _.
  destruct (fpos file <=? IndexingBlockSize); [apply returns_mutate|].
  destruct (read _ IndexingBlockSize) as [[n2 b2] f2]. apply returns_mutate.
Qed.

Lemma returns_doIndex_finish (env : Environment) (file : QFile)
    (state : IndexingState) :
  returns anything (doIndex_finish env file state).
Proof.
  unfold doIndex_finish.
  eapply returns_bind; [apply returns_poll|]. intros b1 _.
  eapply returns_bind;
    [destruct (negb b1 && _); [apply returns_mutate | apply returns_ret; exact I]|].
  intros _ _.
  eapply returns_bind; [apply returns_rehash|]. intros _ _.
  eapply returns_bind; [apply returns_poll|]. intros b2 _.
  eapply returns_bind;
    [destruct b2; [apply returns_mutate | apply returns_ret; exact I]|].
  intros _ _.
  eapply returns_bind; [apply returns_getStore|]. intros d1 _.
  eapply returns_bind;
    [destruct (getMaxLength d1 =? LineLength_max); repeat returns_step|].
  intros _ _.
  eapply returns_bind; [apply returns_getStore|]. intros d2 _.
  destruct (getEncodingGuess d2); repeat returns_step.
Qed.

Lemma returns_doIndex_unreadable (env : Environment) :
  returns anything
    (mutate env OpClear ;;
     mutate env (OpSetEncodingGuess (Some (codecForLocale env))) ;;
     mutate env (OpSetProgress 100) ;;
     emit (indexingProgressed 100)).
Proof. repeat returns_step. Qed.

Lemma climbs_ret (env : Environment) (A : Type) (a : A) : climbs env (ret a).
Proof. intros w. apply Nat.le_refl. Qed.

Lemma climbs_bind (env : Environment) (A B : Type) (m : M A) (f : A -> M B) :
  climbs env m -> (forall a, climbs env (f a)) -> climbs env (bind m f).
Proof.
  intros Hm Hf w. unfold bind. specialize (Hm w).
  destruct (m w) as [a w1|what w1|]; [|exact Hm|exact I].
  specialize (Hf a w1). destruct (f a w1) as [b w2|what w2|]; [lia| |exact I].
  destruct Hf as (k & Hk & Hle). exists k. split; [exact Hk | lia].
Qed.

Lemma climbs_checkpoint (env : Environment) : climbs env (checkpoint env).
Proof.
  intros w. unfold checkpoint.
  destruct (exceptionAt env) as [[k what]|]; [|cbn; lia].
  destruct (Nat.eqb_spec k (stages w)) as [->|_]; [|cbn; lia].
  exists (stages w). split; [reflexivity | lia].
Qed.

Lemma climbs_mutate (env : Environment) (op : StoreOp) :
  climbs env (mutate env op).
Proof.
  unfold mutate. apply climbs_bind; [apply climbs_checkpoint|].
  intros _ w. cbn. lia.
Qed.

Lemma climbs_getStore (env : Environment) : climbs env getStore.
Proof. intros w. apply Nat.le_refl. Qed.

Lemma climbs_emit (env : Environment) (ev : Event) : climbs env (emit ev).
Proof. intros w. apply Nat.le_refl. Qed.

Lemma climbs_diverge (env : Environment) (A : Type) : climbs env (@diverge A).
Proof. intros w. exact I. Qed.

Ltac climbs_step :=
  match goal with
  | |- climbs _ (bind _ _) => apply climbs_bind; [|intros]
  | |- climbs _ (ret _) => apply climbs_ret
  | |- climbs _ (checkpoint _) => apply climbs_checkpoint
  | |- climbs _ (mutate _ _) => apply climbs_mutate
  | |- climbs _ (emit _) => apply climbs_emit
  | |- climbs _ getStore => apply climbs_getStore
  | |- climbs _ diverge => apply climbs_diverge
  | |- climbs _ (if ?b then _ else _) => destruct b
  | |- climbs _ (match ?x with _ => _ end) => destruct x
  end.

Lemma climbs_indexNextBlock (env : Environment) (state : IndexingState)
    (blockData : BlockData) :
  climbs env (indexNextBlock env state blockData).
Proof.
  unfold indexNextBlock. destruct blockData as [blockBeginning block].
  repeat (cbv zeta; climbs_step).
Qed.

Lemma climbs_parseBlocks (env : Environment) (blocks : list BlockData) :
  forall state, climbs env (parseBlocks env state blocks).
Proof.
  induction blocks as [|b rest IH]; intros state; cbn [parseBlocks].
  - apply climbs_ret.
  - apply climbs_bind; [apply climbs_indexNextBlock | intros; apply IH].
Qed.

Lemma checkpoint_before (env : Environment) (w : World) (k : nat)
    (what : String.string) :
  exceptionAt env = Some (k, what) -> (stages w < k)%nat ->
  checkpoint env w
  = Ok tt (mkWorld (store w) (oplog w) (events w) (polls w) (S (stages w))).
Proof.
  intros Hk Hlt. unfold checkpoint. rewrite Hk.
  destruct (Nat.eqb_spec k (stages w)); [lia | reflexivity].
Qed.

Lemma mutate_before (env : Environment) (op : StoreOp) (w : World) (k : nat)
    (what : String.string) :
  exceptionAt env = Some (k, what) -> (stages w < k)%nat ->
  mutate env op w
  = Ok tt (mkWorld (applyOp env op (store w)) (oplog w ++ [op]) (events w)
             (polls w) (S (stages w))).
Proof.
  intros Hk Hlt. unfold mutate, bind.
  now rewrite (checkpoint_before env w k what Hk Hlt).
Qed.

Lemma checkpoint_cases (env : Environment) (w : World) :
  let w' := mkWorld (store w) (oplog w) (events w) (polls w) (S (stages w)) in
  checkpoint env w = Ok tt w' \/ exists what, checkpoint env w = Thrown what w'.
Proof.
  unfold checkpoint. destruct (exceptionAt env) as [[k what]|]; [|now left].
  destruct (Nat.eqb k (stages w)); [right; now exists what | now left].
Qed.

Lemma mutate_cases (env : Environment) (op : StoreOp) (w : World) :
  mutate env op w
  = Ok tt (mkWorld (applyOp env op (store w)) (oplog w ++ [op]) (events w)
             (polls w) (S (stages w)))
  \/ exists what w', mutate env op w = Thrown what w'.
Proof.
  unfold mutate, bind.
  destruct (checkpoint_cases env w) as [-> | (what & ->)];
    [now left | right; now do 2 eexists].
Qed.

(** The run of the graph comes to an end. *)
Lemma graphRun_ends (env : Environment) (initialPosition : Z) (w : World) :
  wf_env env -> graphRun env initialPosition w <> Diverges.
Proof.
  intros Hwf. unfold graphRun. cbn [pos].
  set (file := seek (mkQFile (disk_bytes env) 0) initialPosition).
  assert (Hpos : 0 <= fpos file).
  { subst file. unfold seek.
    destruct (Z.ltb_spec initialPosition 0); cbn [fpos]; lia. }
  pose proof (returns_readFileInBlocks env file Hpos w) as Hread.
  unfold readFileInBlocks in Hread.
  destruct (readLoop (length (contents file)) env file (polls w))
    as [[blocks file'] np].
  cbn [fst] in Hread.
  match goal with
  | |- parseBlocks env ?state ?bs ?w0 <> Diverges =>
      pose proof (returns_parseBlocks env bs Hwf Hread state w0) as Hret;
      destruct (parseBlocks env state bs w0)
  end; [discriminate | discriminate | destruct Hret].
Qed.

(** An exception of the graph is due after the entry of [doIndex]. *)
Lemma graphRun_thrown (env : Environment) (initialPosition : Z) (w : World)
    (what : String.string) (w' : World) :
  graphRun env initialPosition w = Thrown what w' ->
  exists k, exceptionAt env = Some (k, what) /\ (stages w < k)%nat.
Proof.
  unfold graphRun.
  destruct (readLoop _ env _ (polls w)) as [[blocks file'] np].
  intros Hrun.
  match type of Hrun with
  | parseBlocks env ?state ?bs ?w0 = _ =>
      pose proof (climbs_parseBlocks env bs state w0) as Hclimb
  end.
  rewrite Hrun in Hclimb. destruct Hclimb as (k & Hk & Hle).
  cbn [stages] in Hle. exists k. split; [exact Hk | lia].
Qed.

(** [doIndex] on a file that opens, after an entry that does not throw:
    the nodes of the graph, and then the end of [doIndex]. *)
Lemma doIndex_graphRun (env : Environment) (initialPosition : Z) (w : World) :
  disk_readable env = true ->
  checkpoint env w
  = Ok tt (mkWorld (store w) (oplog w) (events w) (polls w) (S (stages w))) ->
  match graphRun env initialPosition w with
  | Ok state w1 =>
      exists file, doIndex env initialPosition w = doIndex_finish env file state w1
  | _ => doIndex env initialPosition w = Diverges
  end.
Proof.
  intros Hread Hcheck. unfold doIndex, graphRun, wait_for_all, bind, getStore.
  rewrite Hcheck. cbv beta iota. rewrite Hread. cbn [negb].
  cbn [store oplog events polls stages pos]. unfold readFileInBlocks.
  cbn [store oplog events polls stages].
  destruct (readLoop _ env _ (polls w)) as [[blocks file'] np].
  destruct (parseBlocks env _ (blocks ++ [lastBlock]) _) as [state w1|what w1|].
  - now exists file'.
  - reflexivity.
  - reflexivity.
Qed.

(** [doIndex] comes to an end unless a node of the graph throws. *)
Lemma doIndex_ends (env : Environment) (initialPosition : Z) (w : World) :
  wf_env env ->
  (disk_readable env = true ->
   forall what w', graphRun env initialPosition w <> Thrown what w') ->
  doIndex env initialPosition w <> Diverges.
Proof.
  intros Hwf Hgraph.
  destruct (checkpoint_cases env w) as [Hcheck | (what & Hcheck)]; cbv zeta in *.
  - destruct (disk_readable env) eqn:Hread.
    + pose proof (doIndex_graphRun env initialPosition w Hread Hcheck) as Hrun.
      pose proof (graphRun_ends env initialPosition w Hwf) as Hends.
      specialize (Hgraph eq_refl).
      destruct (graphRun env initialPosition w) as [state w1|what w1|].
      * destruct Hrun as (file & ->).
        pose proof (returns_doIndex_finish env file state w1) as Hret.
        destruct (doIndex_finish env file state w1);
          [discriminate | discriminate | destruct Hret].
      * exfalso. now apply (Hgraph what w1).
      * now destruct Hends.
    + unfold doIndex. unfold bind at 1. rewrite Hcheck, Hread. cbn [negb].
      match goal with
      | |- ?m ?w0 <> Diverges =>
          pose proof (returns_doIndex_unreadable env w0) as Hret;
          destruct (m w0)
      end; [discriminate | discriminate | destruct Hret].
  - unfold doIndex. unfold bind at 1. rewrite Hcheck. discriminate.
Qed.

Lemma bind_ends (A B : Type) (m : M A) (f : A -> M B) (w : World) :
  m w <> Diverges ->
  (forall a w', m w = Ok a w' -> f a w' <> Diverges) ->
  bind m f w <> Diverges.
Proof.
  intros Hm Hf. unfold bind. destruct (m w) as [a w1|what w1|].
  - now apply Hf.
  - discriminate.
  - now destruct Hm.
Qed.

Lemma returns_ends (A : Type) (P : A -> Prop) (m : M A) (w : World) :
  returns P m -> m w <> Diverges.
Proof.
  intros Hret. specialize (Hret w). destruct (m w); [discriminate..|destruct Hret].
Qed.

Lemma read_fpos (file : QFile) (maxSize : Z) :
  0 <= fpos file ->
  0 <= fpos (snd (read file maxSize)).
Proof.
  intros Hpos. unfold read. destruct (maxSize <? 0); cbn [snd fpos]; lia.
Qed.

Lemma getDigestLoop_fpos :
  forall fuel file fd total n fd' file',
    getDigestLoop fuel file fd total n = Some (fd', file') ->
    0 <= fpos file ->
    0 <= fpos file'.
Proof.
  induction fuel as [|fuel IH]; intros file fd total n fd' file' Hrun Hpos;
    [discriminate|].
  cbn [getDigestLoop] in Hrun.
  pose proof (read_fpos file (Z.min IndexingBlockSize (n - total)) Hpos) as Hr.
  destruct (read file (Z.min IndexingBlockSize (n - total)))
    as [[readSize buffer] file1].
  cbn [snd] in Hr.
  destruct (readSize >? 0).
  - cbn [andb] in Hrun. destruct (total + readSize <? n).
    + eapply IH; eassumption.
    + inversion Hrun; subst. exact Hr.
  - cbn [andb] in Hrun. inversion Hrun; subst. exact Hr.
Qed.

Lemma getDigest_total (env : Environment) (file : QFile) (n : Z) :
  0 <= fpos file ->
  exists digest file',
    getDigest env file n = Some (digest, file') /\ 0 <= fpos file'.
Proof.
  intros Hpos. unfold getDigest.
  destruct (getDigestLoop_spec (S (length (contents file))) file [] 0 n Hpos)
    as (file' & Hrun & _).
  { unfold file_size_of. lia. }
  rewrite Hrun. do 2 eexists. split; [reflexivity|].
  eapply getDigestLoop_fpos; eassumption.
Qed.

Lemma returns_doCheckFileChanges (env : Environment) :
  returns anything (doCheckFileChanges env).
Proof.
  unfold doCheckFileChanges.
  eapply returns_bind; [apply returns_checkpoint|]. intros _ _.
  eapply returns_bind; [apply returns_getStore|]. intros d _.
  destruct (_ || _); [apply returns_ret; exact I|].
  destruct (negb (disk_readable env)); [apply returns_ret; exact I|].
  eapply returns_bind with (P := anything).
  - destruct (fastModificationDetection env).
    + destruct (getDigest_total env (mkQFile (disk_bytes env) 0)
                  (headerSize (getHash d)) ltac:(cbn; lia))
        as (dg1 & file1 & -> & Hpos1).
      destruct (negb _); [apply returns_ret; exact I|].
      destruct (getDigest_total env (seek file1 (tailOffset (getHash d)))
                  (tailSize (getHash d))) as (dg2 & file2 & -> & _).
      { unfold seek. destruct (Z.ltb_spec (tailOffset (getHash d)) 0);
          cbn [fpos]; lia. }
      apply returns_ret. exact I.
    + destruct (getDigest_total env (mkQFile (disk_bytes env) 0)
                  (size (getHash d)) ltac:(cbn; lia))
        as (dg1 & file1 & -> & _).
      apply returns_ret. exact I.
  - intros modified _. destruct modified; [apply returns_ret; exact I|].
    destruct (_ >? _); apply returns_ret; exact I.
Qed.

Lemma returns_try_catch (A : Type) (P : A -> Prop) (body : M A)
    (handler : String.string -> M A) :
  returns P body -> (forall what, returns P (handler what)) ->
  returns P (try_catch body handler).
Proof.
  intros Hb Hh w. unfold try_catch. specialize (Hb w).
  destruct (body w) as [a w1|what w1|]; [exact Hb | apply Hh | exact Hb].
Qed.

Lemma Operation_run_try (env : Environment) (op : Operation) (w : World) :
  Operation_run env op w
  = match Operation_try env op w with
    | Thrown what w1 =>
        match op with
        | FullIndex _ =>
            (emit (issueReported
                     (String.append "FullIndexOperation failed: "%string what)) ;;
             mutate env OpClear ;; ret (ResultBool false)) w1
        | PartialIndex =>
            (emit (issueReported
                     (String.append "PartialIndexOperation failed: "%string
                        what)) ;;
             mutate env OpClear ;; ret (ResultBool false)) w1
        | CheckFileChanges =>
            (emit (issueReported
                     (String.append "CheckFileChangesOperation failed: "%string
                        what)) ;;
             ret (ResultStatus Truncated)) w1
        end
    | r => r
    end.
Proof. destruct op; reflexivity. Qed.

Lemma index_tail_returns (env : Environment) :
  returns anything
    (interrupted <- poll env ;;
     let result := if interrupted then false else true in
     emit (indexingFinished result) ;;
     ret (ResultBool result)).
Proof. repeat returns_step. Qed.

Lemma bind_Diverges (A B : Type) (m : M A) (f : A -> M B) (w : World) :
  m w = Diverges -> bind m f w = Diverges.
Proof. intros H. unfold bind. now rewrite H. Qed.

(** The [try] block of a full index up to [doIndex]. *)
Lemma FullIndexOperation_try_entry (env : Environment)
    (forced : option QTextCodec) (d : IndexingData) :
  let body :=
    doIndex env 0 ;;
    interrupted <- poll env ;;
    let result := if interrupted then false else true in
    emit (indexingFinished result) ;;
    ret (ResultBool result) in
  (mutate env OpClear (mkWorld d [] [indexingProgressed 0] 0 0)
   = Ok tt (mkWorld (clear env d) [OpClear] [indexingProgressed 0] 0 1) ->
   mutate env (OpForceEncoding forced)
     (mkWorld (clear env d) [OpClear] [indexingProgressed 0] 0 1)
   = Ok tt (fst (doIndexEntry env (FullIndex forced) d)) ->
   FullIndexOperation_try env forced (startWorld d)
   = body (fst (doIndexEntry env (FullIndex forced) d))) /\
  ((exists what w',
       FullIndexOperation_try env forced (startWorld d) = Thrown what w')
   \/ FullIndexOperation_try env forced (startWorld d)
      = body (fst (doIndexEntry env (FullIndex forced) d))).
Proof.
  intros body.
  assert (Hstep :
            mutate env OpClear (mkWorld d [] [indexingProgressed 0] 0 0)
            = Ok tt (mkWorld (clear env d) [OpClear] [indexingProgressed 0] 0 1) ->
            mutate env (OpForceEncoding forced)
              (mkWorld (clear env d) [OpClear] [indexingProgressed 0] 0 1)
            = Ok tt (fst (doIndexEntry env (FullIndex forced) d)) ->
            FullIndexOperation_try env forced (startWorld d)
            = body (fst (doIndexEntry env (FullIndex forced) d))).
  { intros H1 H2. unfold FullIndexOperation_try.
    unfold bind at 1. unfold emit at 1.
    cbn [startWorld store oplog events polls stages app].
    unfold bind at 1. rewrite H1. cbv beta iota.
    unfold bind at 1. rewrite H2. reflexivity. }
  split; [exact Hstep|].
  destruct (mutate_cases env OpClear (mkWorld d [] [indexingProgressed 0] 0 0))
    as [H1 | (what & w' & H1)].
  - cbn [applyOp store oplog events polls stages app] in H1.
    destruct (mutate_cases env (OpForceEncoding forced)
                (mkWorld (clear env d) [OpClear] [indexingProgressed 0] 0 1))
      as [H2 | (what & w' & H2)].
    + right. apply Hstep; [exact H1 | exact H2].
    + left. exists what, w'. unfold FullIndexOperation_try.
      unfold bind at 1. unfold emit at 1.
      cbn [startWorld store oplog events polls stages app].
      unfold bind at 1. rewrite H1. cbv beta iota.
      unfold bind at 1. now rewrite H2.
  - left. exists what, w'. unfold FullIndexOperation_try.
    unfold bind at 1. unfold emit at 1.
    cbn [startWorld store oplog events polls stages app].
    unfold bind at 1. now rewrite H1.
Qed.

(** The [try] block of a partial index up to [doIndex]. *)
Lemma PartialIndexOperation_try_entry (env : Environment) (d : IndexingData) :
  PartialIndexOperation_try env (startWorld d)
  = (doIndex env (getIndexedSize d) ;;
     interrupted <- poll env ;;
     let result := if interrupted then false else true in
     emit (indexingFinished result) ;;
     ret (ResultBool result)) (fst (doIndexEntry env PartialIndex d)).
Proof. reflexivity. Qed.

(** [doIndex], followed by the end of the [try] block of an indexing
    operation, comes to an end unless a node of the graph throws, and then it
    never does. *)
Lemma index_body_ends (env : Environment) (initialPosition : Z) (w : World) :
  wf_env env ->
  let body :=
    doIndex env initialPosition ;;
    interrupted <- poll env ;;
    let result := if interrupted then false else true in
    emit (indexingFinished result) ;;
    ret (ResultBool result) in
  if disk_readable env &&
     match graphRun env initialPosition w with
     | Thrown _ _ => true
     | _ => false
     end
  then body w = Diverges
  else body w <> Diverges.
Proof.
  intros Hwf body.
  destruct (disk_readable env) eqn:Hread; cbn [andb].
  - destruct (graphRun env initialPosition w) as [state w1|what w1|] eqn:Egraph.
    + apply bind_ends.
      * apply doIndex_ends; [exact Hwf|]. intros _ what w'.
        rewrite Egraph. discriminate.
      * intros _ w' _. apply (returns_ends _ anything), index_tail_returns.
    + apply bind_Diverges.
      destruct (graphRun_thrown env initialPosition w what w1 Egraph)
        as (k & Hk & Hlt).
      pose proof (doIndex_graphRun env initialPosition w Hread
                    (checkpoint_before env w k what Hk Hlt)) as Hrun.
      now rewrite Egraph in Hrun.
    + now destruct (graphRun_ends env initialPosition w Hwf).
  - apply bind_ends.
    + apply doIndex_ends; [exact Hwf|]. intros Habs. congruence.
    + intros _ w' _. apply (returns_ends _ anything), index_tail_returns.
Qed.

(** The [try] block of an operation comes to an end unless a node of the
    graph throws, and then it never does. *)
Lemma Operation_try_ends (env : Environment) (op : Operation)
    (d : IndexingData) :
  wf_env env ->
  if graph_throws env op d
  then Operation_try env op (startWorld d) = Diverges
  else Operation_try env op (startWorld d) <> Diverges.
Proof.
  intros Hwf. destruct op as [forced| |]; cbn [Operation_try graph_throws].
  - destruct (FullIndexOperation_try_entry env forced d) as [Hstep Hcases].
    cbv zeta in Hstep, Hcases.
    pose proof (index_body_ends env 0
                  (fst (doIndexEntry env (FullIndex forced) d)) Hwf) as Hbody.
    cbv zeta in Hbody. change (snd (doIndexEntry env (FullIndex forced) d)) with 0.
    destruct (disk_readable env &&
              match graphRun env 0 (fst (doIndexEntry env (FullIndex forced) d))
              with Thrown _ _ => true | _ => false end) eqn:Ethrows.
    + rewrite Hstep; [exact Hbody | |].
      * apply andb_prop in Ethrows. destruct Ethrows as [_ Ethrows].
        destruct (graphRun env 0 _) as [?|what w1|] eqn:Egraph; try discriminate.
        destruct (graphRun_thrown env 0 _ what w1 Egraph) as (k & Hk & Hlt).
        cbn [doIndexEntry fst stages] in Hlt.
        rewrite (mutate_before env OpClear _ k what Hk) by (cbn [stages]; lia).
        reflexivity.
      * apply andb_prop in Ethrows. destruct Ethrows as [_ Ethrows].
        destruct (graphRun env 0 _) as [?|what w1|] eqn:Egraph; try discriminate.
        destruct (graphRun_thrown env 0 _ what w1 Egraph) as (k & Hk & Hlt).
        cbn [doIndexEntry fst stages] in Hlt.
        rewrite (mutate_before env (OpForceEncoding forced) _ k what Hk)
          by (cbn [stages]; lia).
        reflexivity.
    + destruct Hcases as [(what & w' & ->) | ->]; [discriminate | exact Hbody].
  - rewrite PartialIndexOperation_try_entry.
    change (snd (doIndexEntry env PartialIndex d)) with (getIndexedSize d).
    apply (index_body_ends env (getIndexedSize d)
             (fst (doIndexEntry env PartialIndex d)) Hwf).
  - unfold CheckFileChangesOperation_try.
    apply (returns_ends _ anything).
    eapply returns_bind; [apply returns_doCheckFileChanges|]. intros s _.
    repeat returns_step.
Qed.

(** X13.  Every operation returns, unless a node of the graph throws.  When
    every codec of the environment has well-formed parameters, a full index,
    a partial index and a change check return a result from any store,
    whenever the interrupt is set and also when an exception is thrown at a
    stage outside the graph of [doIndex]: the loops of the parser and of the
    digests come to an end, and the exception is caught.  When the parser
    node of the graph throws (in [indexNextBlock], with its calls of
    [addAll] and [setProgress]), the operation never returns: the exception
    leaves [wait_for_all] before the reader thread is joined, and
    [std::terminate] ends the process. *)
Theorem operation_returns_unless_graph_throws (env : Environment)
    (op : Operation) (d : IndexingData) :
  wf_env env ->
  if graph_throws env op d
  then Operation_run env op (startWorld d) = Diverges
  else exists result w', Operation_run env op (startWorld d) = Ok result w'.
Proof.
  intros Hwf. pose proof (Operation_try_ends env op d Hwf) as Htry.
  rewrite Operation_run_try.
  destruct (graph_throws env op d).
  - now rewrite Htry.
  - destruct (Operation_try env op (startWorld d)) as [r w1|what w1|] eqn:Etry.
    + now exists r, w1.
    + destruct (exception_handled env op d what w1 Etry) as (w2 & Hok & _).
      rewrite Operation_run_try, Etry in Hok. now exists (failure_result op), w2.
    + now destruct Htry.
Qed.

Lemma operation_returns_unless_graph_throws_witness :
  Operation_run
    (exampleEnv threeLines false None (Some (3%nat, "bad_alloc"%string)))
    (FullIndex None) (startWorld helloStore)
  = Diverges /\
  exists result w',
    Operation_run
      (exampleEnv threeLines false (Some 1%nat)
         (Some (6%nat, "bad_alloc"%string)))
      (FullIndex None) (startWorld helloStore)
    = Ok result w'.
Proof.
  split.
  - apply (operation_returns_unless_graph_throws
             (exampleEnv threeLines false None
                (Some (3%nat, "bad_alloc"%string)))
             (FullIndex None) helloStore).
    intros codec. unfold wf_params. cbn [exampleEnv encodingParametersOf].
    destruct (String.eqb codec "UTF-16LE"%string); simpl; lia.
  - apply (operation_returns_unless_graph_throws
             (exampleEnv threeLines false (Some 1%nat)
                (Some (6%nat, "bad_alloc"%string)))
             (FullIndex None) helloStore).
    intros codec. unfold wf_params. cbn [exampleEnv encodingParametersOf].
    destruct (String.eqb codec "UTF-16LE"%string); simpl; lia.
Defined.

(** C9, amended.  No operation lets an exception out to its caller.  When
    the [try] block of an operation throws, it throws the exception of the
    environment and the operation returns all the same: a full or partial
    index returns [false] and has cleared the store; a change check returns
    [Truncated] and leaves the store as it was.  The error is reported in
    both cases.  When every codec has well-formed parameters and the
    exception is not thrown by a node of the graph of [doIndex], the
    operation does return: what its [try] block returns, or the value of a
    failure when the [try] block throws. *)
Theorem exception_caught_at_operation_boundary (env : Environment)
    (op : Operation) (d : IndexingData) :
  (forall what w, Operation_run env op (startWorld d) <> Thrown what w) /\
  (forall what w1,
      Operation_try env op (startWorld d) = Thrown what w1 ->
      thrown_by_stage env what w1 /\
      exists w',
        Operation_run env op (startWorld d) = Ok (failure_result op) w' /\
        store w'
        = match op with
          | CheckFileChanges => d
          | _ => clear env d
          end /\
        (exists errorString, In (issueReported errorString) (events w'))) /\
  (wf_env env ->
   graph_throws env op d = false ->
   exists result w',
     Operation_run env op (startWorld d) = Ok result w' /\
     match Operation_try env op (startWorld d) with
     | Ok r w1 => result = r /\ w' = w1
     | Thrown _ _ => result = failure_result op
     | Diverges => False
     end).
Proof.
  split; [|split].
  - intros what w Hrun. rewrite Operation_run_try in Hrun.
    destruct (Operation_try env op (startWorld d)) as [r w1|what1 w1|] eqn:Etry;
      try discriminate.
    destruct (exception_handled env op d what1 w1 Etry) as (w' & Hok & _).
    rewrite Operation_run_try, Etry in Hok. rewrite Hok in Hrun. discriminate.
  - intros what w1 Hthrow.
    split; [|exact (exception_handled env op d what w1 Hthrow)].
    pose proof (safe_Operation_try env (fun _ => True) op (stable_True env)
                  (startWorld d) Logic.I) as Hsafe.
    rewrite Hthrow in Hsafe. apply Hsafe.
  - intros Hwf Hgraph. pose proof (Operation_try_ends env op d Hwf) as Htry.
    rewrite Hgraph in Htry.
    destruct (Operation_try env op (startWorld d)) as [r w1|what w1|] eqn:Etry.
    + exists r, w1. split; [|now split].
      rewrite Operation_run_try, Etry. reflexivity.
    + destruct (exception_handled env op d what w1 Etry) as (w' & Hok & _).
      exists (failure_result op), w'. now split.
    + now destruct Htry.
Qed.

Lemma exception_caught_at_operation_boundary_witness :
  graph_throws
    (exampleEnv threeLines false None (Some (6%nat, "std::bad_alloc"%string)))
    (FullIndex None) helloStore
  = false /\
  exists w',
    Operation_run
      (exampleEnv threeLines false None (Some (6%nat, "std::bad_alloc"%string)))
      (FullIndex None) (startWorld helloStore)
    = Ok (ResultBool false) w' /\
    getNbLines (store w') = 0%nat.
Proof.
  assert (Hgraph : graph_throws
                     (exampleEnv threeLines false None
                        (Some (6%nat, "std::bad_alloc"%string)))
                     (FullIndex None) helloStore
                   = false) by (vm_compute; reflexivity).
  split; [exact Hgraph|].
  destruct (exception_caught_at_operation_boundary
              (exampleEnv threeLines false None
                 (Some (6%nat, "std::bad_alloc"%string)))
              (FullIndex None) helloStore)
    as (_ & Hcaught & Hreturns).
  assert (Hwf : wf_env (exampleEnv threeLines false None
                          (Some (6%nat, "std::bad_alloc"%string)))).
  { intros codec. unfold wf_params. cbn [exampleEnv encodingParametersOf].
    destruct (String.eqb codec "UTF-16LE"%string); simpl; lia. }
  destruct (Hreturns Hwf Hgraph) as (result & w' & Hrun & _).
  edestruct Hcaught as (_ & w2 & Hrun2 & Hstore & _);
    [vm_compute; reflexivity|].
  exists w2. split; [exact Hrun2|]. now rewrite Hstore.
Defined.




Section PartialIndexOrdered.

Variable env : Environment.

Hypothesis Hexc : exceptionAt env = None.
Hypothesis Hwf : wf_env env.




End PartialIndexOrdered.








Lemma bind_Ok (A B : Type) (m : M A) (f : A -> M B) (w : World) (b : B)
    (w' : World) :
  bind m f w = Ok b w' ->
  exists a w1, m w = Ok a w1 /\ f a w1 = Ok b w'.
Proof.
  unfold bind. destruct (m w) as [a w1|what w1|]; try discriminate.
  intros H. now exists a, w1.
Qed.

Lemma mutate_events (env : Environment) (op : StoreOp) (w : World) (u : unit)
    (w' : World) :
  mutate env op w = Ok u w' -> events w' = events w.
Proof.
  unfold mutate, bind, checkpoint.
  destruct (exceptionAt env) as [[k what]|].
  - destruct (Nat.eqb k (stages w)); [discriminate|].
    intros H. inversion H; subst. reflexivity.
  - intros H. inversion H; subst. reflexivity.
Qed.

Lemma index_tail_event (env : Environment) (w : World)
    (result : OperationResult) (w' : World) :
  (interrupted <- poll env ;;
   emit (indexingFinished (if interrupted then false else true)) ;;
   ret (ResultBool (if interrupted then false else true))) w
  = Ok result w' ->
  events w' = events w ++ [finished_event result].
Proof.
  unfold bind, poll, emit, ret. intros H. inversion H; subst. reflexivity.
Qed.

Lemma Operation_try_event (env : Environment) (op : Operation) (w : World)
    (result : OperationResult) (w' : World) :
  Operation_try env op w = Ok result w' ->
  exists evs, events w' = evs ++ [finished_event result].
Proof.
  destruct op as [forced| |]; cbn [Operation_try]; intros H.
  - unfold FullIndexOperation_try in H.
    apply bind_Ok in H. destruct H as (_ & w1 & _ & H).
    apply bind_Ok in H. destruct H as (_ & w2 & _ & H).
    apply bind_Ok in H. destruct H as (_ & w3 & _ & H).
    apply bind_Ok in H. destruct H as (_ & w4 & _ & H).
    apply index_tail_event in H. now exists (events w4).
  - unfold PartialIndexOperation_try in H.
    apply bind_Ok in H. destruct H as (d & w1 & _ & H).
    apply bind_Ok in H. destruct H as (_ & w2 & _ & H).
    apply bind_Ok in H. destruct H as (_ & w3 & _ & H).
    apply index_tail_event in H. now exists (events w3).
  - unfold CheckFileChangesOperation_try in H.
    apply bind_Ok in H. destruct H as (s & w1 & _ & H).
    unfold bind, emit, ret in H. inversion H; subst.
    now exists (events w1).
Qed.

(** X14.  The result of an operation is what its last signal says: when an
    operation returns, either the last event it sent is the signal of its
    end carrying the value returned ([indexingFinished] with the [bool],
    [fileCheckFinished] with the status), or an exception was caught, the
    last event is the report of that error and the value returned is the one
    of a failure. *)
Theorem operation_result_is_last_event (env : Environment) (op : Operation)
    (d : IndexingData) (result : OperationResult) (w' : World) :
  Operation_run env op (startWorld d) = Ok result w' ->
  (exists evs, events w' = evs ++ [finished_event result]) \/
  (result = failure_result op /\
   exists evs errorString, events w' = evs ++ [issueReported errorString]).
Proof.
  intros Hrun. rewrite Operation_run_try in Hrun.
  destruct (Operation_try env op (startWorld d)) as [r w1|what w1|] eqn:Etry;
    try discriminate.
  - inversion Hrun; subst r w1. left. eapply Operation_try_event. exact Etry.
  - right. destruct op as [forced| |]; cbn [failure_result].
    + apply bind_Ok in Hrun. destruct Hrun as (u0 & w2 & Hemit & Hrun).
      apply bind_Ok in Hrun. destruct Hrun as (u & w3 & Hclear & Hrun).
      apply mutate_events in Hclear.
      unfold ret in Hrun. injection Hrun as <- <-.
      unfold emit in Hemit. injection Hemit as _ <-.
      split; [reflexivity|]. rewrite Hclear. cbn [events].
      now do 2 eexists.
    + apply bind_Ok in Hrun. destruct Hrun as (u0 & w2 & Hemit & Hrun).
      apply bind_Ok in Hrun. destruct Hrun as (u & w3 & Hclear & Hrun).
      apply mutate_events in Hclear.
      unfold ret in Hrun. injection Hrun as <- <-.
      unfold emit in Hemit. injection Hemit as _ <-.
      split; [reflexivity|]. rewrite Hclear. cbn [events].
      now do 2 eexists.
    + unfold bind, emit, ret in Hrun. inversion Hrun; subst.
      split; [reflexivity|]. cbn [events]. now do 2 eexists.
Qed.

Lemma operation_result_is_last_event_witness :
  exists result w',
    Operation_run (exampleEnv hello false (Some 0%nat) None) (FullIndex None)
      (startWorld helloStore)
    = Ok result w' /\
    ((exists evs, events w' = evs ++ [finished_event result]) \/
     (result = failure_result (FullIndex None) /\
      exists evs errorString, events w' = evs ++ [issueReported errorString])).
Proof.
  eexists. eexists. split; [vm_compute; reflexivity|].
  apply (operation_result_is_last_event
           (exampleEnv hello false (Some 0%nat) None) (FullIndex None)
           helloStore).
  vm_compute. reflexivity.
Defined.

Lemma appended_chunk (env : Environment) (n0 p : Z) :
  0 <= n0 <= p ->
  p <= Z.of_nat (length (disk_bytes env)) ->
  let data := firstn blockSize (skipn (Z.to_nat p) (disk_bytes env)) in
  appended env n0 (p + Z.of_nat (length data)) = appended env n0 p ++ data /\
  length (appended env n0 p) = Z.to_nat (p - n0).
Proof.
  intros Hn0 Hp data. unfold appended.
  set (c := disk_bytes env) in *.
  replace (Z.to_nat (p + Z.of_nat (length data) - n0))
    with (Z.to_nat (p - n0) + length data)%nat by lia.
  rewrite firstn_add_skipn, skipn_skipn.
  replace (Z.to_nat (p - n0) + Z.to_nat n0)%nat with (Z.to_nat p) by lia.
  split.
  - f_equal. apply firstn_length_firstn.
  - rewrite length_firstn, length_skipn. lia.
Qed.

Lemma appended_all (env : Environment) (n0 : Z) :
  0 <= n0 ->
  appended env n0 (Z.of_nat (length (disk_bytes env)))
  = skipn (Z.to_nat n0) (disk_bytes env).
Proof.
  intros Hn0. unfold appended. apply firstn_all2. rewrite length_skipn. lia.
Qed.

Lemma appended_nil (env : Environment) (n0 : Z) : appended env n0 n0 = [].
Proof. unfold appended. now rewrite Z.sub_diag. Qed.

Section PartialIndexBlocks.

Variable env : Environment.
Variable d : IndexingData.

Hypothesis Hexc : exceptionAt env = None.
Hypothesis Hwf : wf_params (encodingParametersOf env (continuedCodec env d)).
Hypothesis Hw1 : lineFeedWidth (encodingParametersOf env (continuedCodec env d)) = 1.
Hypothesis Hn0 : 0 <= getIndexedSize d.

Lemma continued_upto_step (p : Z) (data : list byte) (state : IndexingState)
    (w : World) :
  getIndexedSize d <= p ->
  data = firstn blockSize (skipn (Z.to_nat p) (disk_bytes env)) ->
  data <> [] ->
  continued_upto env d p state w ->
  exists state' w',
    indexNextBlock env state (p, data) w = Ok state' w' /\
    polls w' = polls w /\
    continued_upto env d (p + Z.of_nat (length data)) state' w'.
Proof.
  intros Hp Hdata Hne Hinv.
  destruct Hinv as (Hfs & Hpos & Hsz & Hoff & Hfake & Hev & Hfast & Hbuilder
                    & Hdigest & Hmax & Hforced & Hcodec).
  set (c := disk_bytes env) in *.
  set (n0 := getIndexedSize d) in *.
  assert (Hpc : p <= Z.of_nat (length c)).
  { destruct (Z_le_gt_dec p (Z.of_nat (length c))) as [H|H]; [exact H|].
    exfalso. apply Hne. rewrite Hdata. rewrite skipn_all2 by lia.
    apply firstn_nil. }
  assert (Hlen0 : (0 < length data)%nat).
  { destruct data; [congruence | simpl; lia]. }
  destruct (appended_chunk env n0 p ltac:(lia) Hpc) as [Hchunk HlenA].
  cbv zeta in Hchunk. fold c in Hchunk. rewrite <- Hdata in Hchunk.
  set (state1 := guessEncoding env data (store w) state).
  pose proof (guessEncoding_fields env data (store w) state) as Hg.
  fold state1 in Hg. cbv zeta in Hg.
  destruct Hg as (Hg_pos & Hg_fs & Hg_guess & _ & _ & _).
  assert (Hcodec1 : fileTextCodec state1 = Some (continuedCodec env d)
                    /\ encodingParams state1
                       = encodingParametersOf env (continuedCodec env d)).
  { subst state1. unfold guessEncoding. cbn [fileTextCodec encodingParams].
    destruct Hcodec as [(Hpn0 & Hftc & Hguess & Hsguess)|(Hn & Hftc)].
    - rewrite Hftc, Hguess, Hforced, Hsguess. unfold continuedCodec.
      fold n0 c. rewrite <- Hpn0, <- Hdata.
      destruct (orElse (getForcedEncoding d) (getEncodingGuess d)) eqn:Eor;
        [split; reflexivity|].
      assert (Hnone : getEncodingGuess d = None).
      { destruct (getForcedEncoding d); [discriminate | exact Eor]. }
      rewrite Hnone. split; reflexivity.
    - rewrite Hftc. split; reflexivity. }
  destruct Hcodec1 as [Hftc1 Hparams1].
  assert (Hlen : Z.of_nat (length data) < 2147483648).
  { pose proof blockSize_small. subst data. rewrite length_firstn. lia. }
  pose proof (lf_offsets_last_le (appended env n0 p) n0 n0) as Hlastle.
  rewrite HlenA in Hlastle.
  destruct (parseDataBlock_result p data state1 Hlen) as
    (new & state' & Hparse & Hsame & Hchain' & Hlast' & Hle & Hexact').
  { rewrite Hparams1. exact Hwf. }
  { rewrite Hg_pos, Hpos. lia. }
  destruct (indexNextBlock_block env state p data w _ _ Hexc ltac:(lia) Hne Hparse)
    as (w' & Hrun & Hstore & Hpolls & Hlog & Hevents).
  destruct Hsame as (S1 & S2 & S3 & S4).
  rewrite Hg_pos in *.
  assert (Hnew0 : Z.max 0 (pos state - p) = 0) by lia.
  rewrite Hparams1 in Hexact'. specialize (Hexact' Hw1).
  rewrite Hnew0 in Hexact'. change (Z.to_nat 0) with 0%nat in Hexact'.
  cbn [skipn] in Hexact'. rewrite Z.add_0_r in Hexact'.
  assert (Hall : lf_offsets (appended env n0 (p + Z.of_nat (length data))) n0
                 = lf_offsets (appended env n0 p) n0 ++ new).
  { rewrite Hchunk, lf_offsets_app, HlenA, Hexact'. f_equal. f_equal. lia. }
  destruct (addAll_hashes env data (clampLength (max_length state')) 
              (mkLinePositionArray new false) (encodingGuess state') (store w) Hne)
    as (Hf & Hb & Hd).
  exists state', w'. split; [exact Hrun|]. split; [exact Hpolls|].
  unfold continued_upto. cbv zeta. fold c n0. rewrite Hall.
  split; [congruence|]. split.
  { rewrite Hlast', last_app_default, Hpos. reflexivity. }
  split.
  { unfold getIndexedSize in *. rewrite Hstore. cbn [setProgress hash_].
    rewrite addAll_size. lia. }
  split.
  { rewrite Hstore. cbn [setProgress linePosition_].
    rewrite addAll_offsets, Hoff. cbn [offsets]. now rewrite app_assoc. }
  split.
  { rewrite Hstore. cbn [setProgress linePosition_]. rewrite addAll_fake.
    cbn [offsets fakeFinalLF]. rewrite Hfake.
    destruct new as [|o new']; [now rewrite app_nil_r|].
    now destruct (lf_offsets (appended env n0 p) n0). }
  split.
  { intros Hin. destruct (Hevents _ Hin) as [Hold|[pr Hpr]];
      [contradiction | discriminate]. }
  rewrite Hstore.
  cbn [setProgress useFastModificationDetection_ hashBuilder_ hash_ maxLength_].
  unfold getForcedEncoding.
  cbn [setProgress encodingForced_].
  rewrite Hf, Hb, Hd, addAll_maxLength, addAll_forced, Hfast.
  split; [reflexivity|]. split.
  { destruct (useFastModificationDetection_ d); [exact Hbuilder|].
    now rewrite Hbuilder, Hchunk, app_assoc. }
  split.
  { destruct (useFastModificationDetection_ d); cbn [orb];
      [cbn [orb] in Hdigest; exact Hdigest|].
    destruct (Z.eqb_spec (p + Z.of_nat (length data)) n0) as [H0|_]; [lia|].
    now rewrite Hbuilder, Hchunk, app_assoc. }
  split.
  { pose proof (clampLength_le (max_length state')). lia. }
  split; [exact Hforced|].
  right. split; [lia|]. congruence.
Qed.

Lemma continued_contiguous :
  forall blocks p q state w,
    getIndexedSize d <= p ->
    contiguous (disk_bytes env) p blocks q ->
    continued_upto env d p state w ->
    exists state' w',
      parseBlocks env state (blocks ++ [lastBlock]) w = Ok state' w' /\
      polls w' = polls w /\
      continued_upto env d q state' w'.
Proof.
  induction blocks as [|[bb data] rest IH]; intros p q state w Hp Hcont Hinv.
  - cbn in Hcont. subst q. exists state, w. split; [reflexivity|]. now split.
  - cbn [contiguous] in Hcont. destruct Hcont as (-> & Hne & Hdata & Hcont).
    destruct (continued_upto_step p data state w Hp Hdata Hne Hinv)
      as (s1 & w1 & Hrun1 & Hpolls1 & Hinv1).
    assert (Hp' : getIndexedSize d <= p + Z.of_nat (length data)) by lia.
    destruct (IH (p + Z.of_nat (length data)) q s1 w1 Hp' Hcont Hinv1)
      as (s2 & w2 & Hrun2 & Hpolls2 & Hinv2).
    exists s2, w2. cbn [app parseBlocks]. unfold bind at 1. rewrite Hrun1.
    split; [exact Hrun2|]. split; [congruence | exact Hinv2].
Qed.

End PartialIndexBlocks.

Lemma ends_without_lf_from (l : list byte) (base : Z) :
  (base + Z.of_nat (length l) >? last (lf_offsets l base) base)
  = ends_without_lf l.
Proof.
  induction l as [|b l' _] using rev_ind.
  - cbn. destruct (Z.gtb_spec (base + 0) base); [lia | reflexivity].
  - assert (Hends : ends_without_lf (l' ++ [b]) = negb (Byte.eqb b LF)).
    { unfold ends_without_lf. rewrite last_last. now destruct l'. }
    rewrite Hends, lf_offsets_app, length_app. cbn [lf_offsets length].
    destruct (Byte.eqb b LF); cbn [negb].
    + rewrite last_app_default. cbn [last].
      destruct (Z.gtb_spec (base + Z.of_nat (length l' + 1))
                  (base + Z.of_nat (length l') + 1)); [lia | reflexivity].
    + rewrite app_nil_r. pose proof (lf_offsets_last_le l' base base).
      destruct (Z.gtb_spec (base + Z.of_nat (length l' + 1))
                  (last (lf_offsets l' base) base));
        [reflexivity | lia].
Qed.

(** A partial index that nobody interrupts, under an encoding whose line
    feed is one byte wide: the world when the blocks have been parsed, and
    the store at the end. *)
Lemma partial_index_quiet (env : Environment) (d : IndexingData) :
  exceptionAt env = None ->
  interruptSetAt env = None ->
  disk_readable env = true ->
  wf_params (encodingParametersOf env (continuedCodec env d)) ->
  lineFeedWidth (encodingParametersOf env (continuedCodec env d)) = 1 ->
  0 <= getIndexedSize d <= Z.of_nat (length (disk_bytes env)) ->
  let c := disk_bytes env in
  exists state1 w1 w',
    continued_upto env d (Z.of_nat (length c)) state1 w1 /\
    PartialIndexOperation_run env (startWorld d) = Ok (ResultBool true) w' /\
    let d1 :=
      if file_size state1 >? pos state1
      then addAll env [] 0 (fake_line_position state1) (encodingGuess state1)
             (store w1)
      else store w1 in
    let d2 := rehashed env (mkQFile c (Z.of_nat (length c))) d1 in
    let tooLong := getMaxLength d2 =? LineLength_max in
    let d3 := if tooLong then clear env d2 else d2 in
    store w'
    = match getEncodingGuess d3 with
      | None => setEncodingGuess (Some (codecForLocale env)) d3
      | Some _ => d3
      end /\
    events w'
    = events w1 ++ (if tooLong then [linesTooLong] else [])
      ++ [indexingFinished true].
Proof.
  intros Hexc Hirq Hread Hwf Hw1 Hn0 c. fold c in Hn0.
  set (n0 := getIndexedSize d) in *.
  destruct (readLoop (length c) env (mkQFile c n0) 0%nat)
    as [[blocks file'] np] eqn:Eread.
  destruct (readLoop_contiguous env _ _ _ _ _ _ Eread ltac:(cbn; lia))
    as (Hc & Hcont & Hle & Hin & Hall).
  cbn [contents fpos] in Hc, Hcont, Hle, Hin, Hall.
  unfold file_size_of in Hin, Hall. cbn [contents] in Hin, Hall.
  specialize (Hin ltac:(lia)). specialize (Hall Hirq ltac:(lia)).
  assert (Hfile : file' = mkQFile c (Z.of_nat (length c))).
  { destruct file' as [c' p']. cbn in Hc, Hin, Hall |- *. f_equal; [exact Hc|lia]. }
  subst file'. cbn [fpos] in Hcont.
  set (state0 :=
         mkIndexingState (mkEncodingParameters 1 0) n0 0 0 0
           (Z.of_nat (length c)) (getEncodingGuess d)
           (orElse (getForcedEncoding d) (getEncodingGuess d))).
  set (w0 := mkWorld d [] [indexingProgressed 0] np 1).
  assert (Hinv0 : continued_upto env d n0 state0 w0).
  { unfold continued_upto. cbv zeta. fold n0. rewrite appended_nil.
    cbn [lf_offsets last state0 w0 file_size pos store events fileTextCodec
         encodingGuess].
    rewrite !app_nil_r, Z.eqb_refl, orb_true_r.
    split; [reflexivity|]. split; [reflexivity|]. split; [reflexivity|].
    split; [reflexivity|]. split; [reflexivity|]. split.
    { intros [H|[]]. discriminate. }
    split; [reflexivity|]. split; [now destruct (useFastModificationDetection_ d)|].
    split; [reflexivity|]. split; [lia|]. split; [reflexivity|].
    left. now repeat split. }
  destruct (continued_contiguous env d Hexc Hwf Hw1 ltac:(lia) blocks n0
              (Z.of_nat (length c)) state0 w0 ltac:(lia) Hcont Hinv0)
    as (state1 & w1 & Hparse & Hpolls & Hinv1).
  destruct (doIndex_finish_quiet env (mkQFile c (Z.of_nat (length c))) state1 w1
              Hexc Hirq) as (w2 & Hfin & Hpolls2 & Hstore2 & Hev2).
  exists state1, w1.
  eexists. split; [exact Hinv1|]. split.
  - unfold PartialIndexOperation_run, PartialIndexOperation_try, try_catch,
      bind, getStore, emit, ret.
    cbn [startWorld store oplog events polls stages app].
    unfold doIndex, wait_for_all, bind, getStore.
    rewrite checkpoint_ok by exact Hexc. cbv beta iota.
    rewrite Hread. cbn [negb].
    cbn [store oplog events polls stages pos].
    fold c n0. unfold file_size_of. cbn [contents]. fold state0.
    unfold seek. destruct (Z.ltb_spec n0 0) as [Hneg|_]; [lia|].
    cbn [contents]. unfold readFileInBlocks. cbn [contents polls].
    rewrite Eread. cbn [store oplog events polls stages].
    fold w0. rewrite Hparse. rewrite Hfin.
    rewrite poll_quiet by exact Hirq. reflexivity.
  - cbv zeta. cbn [store events]. split; [exact Hstore2|].
    rewrite Hev2, <- app_assoc. reflexivity.
Qed.

Lemma rehashed_hash (env : Environment) (c : list byte) (d : IndexingData) :
  hash_ (rehashed env (mkQFile c (Z.of_nat (length c))) d)
  = let fp := fingerprintOf env c in
    mkIndexedHash (size (hash_ d)) (fullDigest (hash_ d))
      (headerDigest fp) (headerSize fp) (tailDigest fp) (tailOffset fp)
      (tailSize fp).
Proof. reflexivity. Qed.

(** The store of a partial index that was not interrupted and did not end on
    the "lines too long" error, under an encoding whose line feed is one byte
    wide. *)
Lemma partial_index_store (env : Environment) (d : IndexingData) :
  exceptionAt env = None ->
  interruptSetAt env = None ->
  disk_readable env = true ->
  wf_params (encodingParametersOf env (continuedCodec env d)) ->
  lineFeedWidth (encodingParametersOf env (continuedCodec env d)) = 1 ->
  0 <= getIndexedSize d <= Z.of_nat (length (disk_bytes env)) ->
  let c := disk_bytes env in
  let n0 := getIndexedSize d in
  let rest := skipn (Z.to_nat n0) c in
  let new := lf_offsets rest n0 in
  exists w',
    PartialIndexOperation_run env (startWorld d) = Ok (ResultBool true) w' /\
    (~ In linesTooLong (events w') ->
     offsets (linePosition_ (store w'))
     = offsets (linePosition_ d) ++ new
       ++ (if ends_without_lf rest then [Z.of_nat (length c) + 1] else []) /\
     fakeFinalLF (linePosition_ (store w'))
     = (if ends_without_lf rest then true
        else match new with
             | [] => fakeFinalLF (linePosition_ d)
             | _ :: _ => false
             end) /\
     getHash (store w')
     = (let fp := fingerprintOf env c in
        mkIndexedHash (Z.of_nat (length c))
          (if useFastModificationDetection_ d || (Z.of_nat (length c) =? n0)
           then fullDigest (hash_ d)
           else xxhash env (hashBuilder_ d ++ rest))
          (headerDigest fp) (headerSize fp) (tailDigest fp) (tailOffset fp)
          (tailSize fp)) /\
     hashBuilder_ (store w')
     = (if useFastModificationDetection_ d then hashBuilder_ d
        else hashBuilder_ d ++ rest) /\
     getForcedEncoding (store w') = getForcedEncoding d /\
     getMaxLength d <= getMaxLength (store w') /\
     getMaxLength (store w') <> LineLength_max).
Proof.
  intros Hexc Hirq Hread Hwf Hw1 Hn0 c n0 rest new.
  destruct (partial_index_quiet env d Hexc Hirq Hread Hwf Hw1 Hn0)
    as (state1 & w1 & w' & Hinv & Hrun & Hstore & Hev).
  cbv zeta in Hstore, Hev. fold c in Hstore, Hev, Hinv, Hn0. fold n0 in Hn0.
  destruct Hinv as (Hfs & Hpos & Hsz & Hoff & Hfake & Hquiet1 & Hfast & Hbuilder
                    & Hdigest & Hmax & Hforced & _).
  cbv zeta in Hpos, Hoff, Hfake, Hbuilder, Hdigest.
  fold n0 c in Hpos, Hoff, Hfake, Hbuilder, Hdigest, Hfs.
  rewrite appended_all in Hpos, Hoff, Hfake, Hbuilder, Hdigest by (fold n0; lia).
  fold c n0 rest new in Hpos, Hoff, Hfake, Hbuilder, Hdigest.
  assert (Hrest : Z.of_nat (length c) = n0 + Z.of_nat (length rest)).
  { subst rest. rewrite length_skipn. lia. }
  assert (Hinsert : (file_size state1 >? pos state1) = ends_without_lf rest).
  { rewrite Hfs, Hpos, Hrest. subst new. apply ends_without_lf_from. }
  rewrite Hinsert in Hstore, Hev.
  set (d1 := if ends_without_lf rest
             then addAll env [] 0 (fake_line_position state1)
                    (encodingGuess state1) (store w1)
             else store w1) in *.
  set (d2 := rehashed env (mkQFile c (Z.of_nat (length c))) d1) in *.
  assert (Hd1 : hash_ d1 = hash_ (store w1) /\
                hashBuilder_ d1 = hashBuilder_ (store w1) /\
                maxLength_ (store w1) <= maxLength_ d1
                <= Z.max (maxLength_ (store w1)) 0 /\
                encodingForced_ d1 = encodingForced_ (store w1) /\
                offsets (linePosition_ d1)
                = offsets (linePosition_ (store w1))
                  ++ (if ends_without_lf rest
                      then [Z.of_nat (length c) + 1] else []) /\
                fakeFinalLF (linePosition_ d1)
                = (if ends_without_lf rest then true
                   else fakeFinalLF (linePosition_ (store w1)))).
  { subst d1. destruct (ends_without_lf rest).
    - split; [reflexivity|]. split; [reflexivity|].
      rewrite addAll_maxLength, addAll_forced, addAll_offsets, addAll_fake.
      unfold fake_line_position.
      cbn [setFakeFinalLF lpa_append offsets fakeFinalLF emptyLinePositionArray
           app].
      rewrite Hfs. split; [lia|]. now repeat split.
    - rewrite app_nil_r. split; [reflexivity|]. split; [reflexivity|].
      split; [lia|]. now repeat split. }
  destruct Hd1 as (Hh1 & Hb1 & Hm1 & Hf1 & Ho1 & Hk1).
  exists w'. split; [exact Hrun|]. intros Hquiet.
  destruct (getMaxLength d2 =? LineLength_max) eqn:Elong.
  { exfalso. apply Hquiet. rewrite Hev. apply in_or_app. right. now left. }
  rewrite Hstore.
  destruct (setEncodingGuess_if_none_fields env d2)
    as (Hh & Hb & Hm & Hl & _ & Hf & _).
  rewrite Hf. unfold getHash, getMaxLength. rewrite Hh, Hb, Hm, Hl.
  subst d2. rewrite rehashed_hash.
  destruct (rehashed_fields env (mkQFile c (Z.of_nat (length c))) d1)
    as (Hm2 & Hb2 & Hl2 & _ & Hf2 & _).
  rewrite Hm2, Hb2, Hl2, Hf2, Ho1, Hk1, Hoff, Hfake, Hh1, Hb1, Hf1.
  unfold getIndexedSize in Hsz. rewrite Hsz, Hdigest, Hbuilder.
  apply Z.eqb_neq in Elong. unfold getMaxLength in Elong. rewrite Hm2 in Elong.
  split; [now rewrite app_assoc|]. split; [reflexivity|].
  split; [reflexivity|]. split; [reflexivity|].
  split; [exact Hforced|]. split; [lia | exact Elong].
Qed.

(** X16.  A partial index appends the lines of the bytes that were added to
    the file.  Under an encoding whose line feed is one byte wide (nobody
    interrupts, no exception), a partial index that finds in the store an
    index of the first [n0] bytes, its last line complete (no fake final
    line feed), returns [true]; unless it ends on the "lines too long"
    error, the line positions are the ones the store held, followed by the
    positions behind the LF bytes from [n0] on, followed by the file size
    plus one when the bytes from [n0] on do not end with a line feed, which
    is also when the fake-final-LF flag is set; the indexed size is the size
    of the file, the hash builder has been fed the new bytes (unless the
    store is in fast mode) and the forced encoding is kept. *)
Theorem partial_index_appends_new_lines (env : Environment)
    (d : IndexingData) :
  exceptionAt env = None ->
  interruptSetAt env = None ->
  disk_readable env = true ->
  wf_params (encodingParametersOf env (continuedCodec env d)) ->
  lineFeedWidth (encodingParametersOf env (continuedCodec env d)) = 1 ->
  0 <= getIndexedSize d <= Z.of_nat (length (disk_bytes env)) ->
  fakeFinalLF (linePosition_ d) = false ->
  let c := disk_bytes env in
  let n0 := getIndexedSize d in
  let rest := skipn (Z.to_nat n0) c in
  exists w',
    PartialIndexOperation_run env (startWorld d) = Ok (ResultBool true) w' /\
    (~ In linesTooLong (events w') ->
     offsets (linePosition_ (store w'))
     = offsets (linePosition_ d) ++ lf_offsets rest n0
       ++ (if ends_without_lf rest then [Z.of_nat (length c) + 1] else []) /\
     fakeFinalLF (linePosition_ (store w')) = ends_without_lf rest /\
     getIndexedSize (store w') = Z.of_nat (length c) /\
     hashBuilder_ (store w')
     = (if useFastModificationDetection_ d then hashBuilder_ d
        else hashBuilder_ d ++ rest) /\
     getForcedEncoding (store w') = getForcedEncoding d).
Proof.
  intros Hexc Hirq Hread Hwf Hw1 Hn0 Hreal c n0 rest.
  destruct (partial_index_store env d Hexc Hirq Hread Hwf Hw1 Hn0)
    as (w' & Hrun & Hok).
  exists w'. split; [exact Hrun|]. intros Hquiet.
  destruct (Hok Hquiet) as (Hoff & Hfake & Hhash & Hbuilder & Hforced & _).
  split; [exact Hoff|]. split.
  { rewrite Hfake, Hreal. fold c n0 rest.
    destruct (ends_without_lf rest); [reflexivity|].
    now destruct (lf_offsets rest n0). }
  split; [|now split].
  unfold getIndexedSize. unfold getHash in Hhash. now rewrite Hhash.
Qed.

Lemma partial_index_appends_new_lines_witness :
  exists w',
    PartialIndexOperation_run
      (exampleEnv (threeLines ++ hello) false None None)
      (startWorld
         (mkIndexingData 3 (mkIndexedHash 9 9 9 9 9 0 9) threeLines
            (mkLinePositionArray [2; 5; 9] false) (Some "UTF-8"%string) None
            100 false))
    = Ok (ResultBool true) w' /\
    (~ In linesTooLong (events w') ->
     offsets (linePosition_ (store w')) = [2; 5; 9; 15]).
Proof.
  destruct (partial_index_appends_new_lines
              (exampleEnv (threeLines ++ hello) false None None)
              (mkIndexingData 3 (mkIndexedHash 9 9 9 9 9 0 9) threeLines
                 (mkLinePositionArray [2; 5; 9] false) (Some "UTF-8"%string)
                 None 100 false))
    as (w' & Hrun & Hok);
    [reflexivity | reflexivity | reflexivity
    | (unfold wf_params; simpl; lia) | reflexivity
    | (vm_compute; split; discriminate) | reflexivity |].
  exists w'. split; [exact Hrun|]. intros Hquiet.
  destruct (Hok Hquiet) as (Hoff & _). exact Hoff.
Defined.

Lemma ends_without_lf_app (l r : list byte) :
  ends_without_lf l = false ->
  ends_without_lf (l ++ r) = ends_without_lf r.
Proof.
  intros Hl. destruct r as [|b r'] using rev_ind.
  - now rewrite app_nil_r.
  - rewrite app_assoc. unfold ends_without_lf. rewrite !last_last.
    destruct (l ++ r'); now destruct r'.
Qed.

Lemma run_Ok_unique (A : Type) (r : Result A) (a1 a2 : A) (w1 w2 : World) :
  r = Ok a1 w1 -> r = Ok a2 w2 -> w1 = w2.
Proof. intros -> H. now inversion H. Qed.

(** X17.  Indexing a file in two steps gives the index of the whole file.
    In an environment whose codecs all have a one-byte line feed (nobody
    interrupts, no exception), take a file that is empty or ends with a line
    feed, index it fully, let it grow, and index the new bytes with a
    partial index.  Unless one of the runs ends on the "lines too long"
    error, the store then holds the same line positions (offsets and flag),
    the same fingerprint, the same hash builder and the same forced
    encoding as after a full index of the grown file. *)
Theorem incremental_index_matches_full_index (env : Environment)
    (forced : option QTextCodec) (d : IndexingData) (extra : list byte) :
  exceptionAt env = None ->
  interruptSetAt env = None ->
  disk_readable env = true ->
  single_byte_env env ->
  ends_without_lf (disk_bytes env) = false ->
  let grown := withBytes env (disk_bytes env ++ extra) in
  exists w1,
    FullIndexOperation_run env forced (startWorld d) = Ok (ResultBool true) w1 /\
    (~ In linesTooLong (events w1) ->
     exists w2 w3,
       PartialIndexOperation_run grown (startWorld (store w1))
       = Ok (ResultBool true) w2 /\
       FullIndexOperation_run grown forced (startWorld d)
       = Ok (ResultBool true) w3 /\
       (~ In linesTooLong (events w2) ->
        ~ In linesTooLong (events w3) ->
        linePosition_ (store w2) = linePosition_ (store w3) /\
        getHash (store w2) = getHash (store w3) /\
        hashBuilder_ (store w2) = hashBuilder_ (store w3) /\
        getForcedEncoding (store w2) = getForcedEncoding (store w3))).
Proof.
  intros Hexc Hirq Hread Hsingle Hends grown.
  set (c0 := disk_bytes env) in *.
  destruct (full_index_single_byte env forced d Hexc Hirq Hread
              (proj1 (Hsingle _)) (proj2 (Hsingle _)))
    as (w1 & Hrun1 & Hlines1).
  destruct (full_index_hashes env forced d Hexc Hirq Hread (proj1 (Hsingle _)))
    as (w1' & Hrun1' & Hhash1 & _).
  pose proof (run_Ok_unique _ _ _ _ _ _ Hrun1 Hrun1') as <-. clear Hrun1'.
  exists w1. split; [exact Hrun1|]. intros Hquiet1.
  destruct (Hlines1 Hquiet1) as (Hoff1 & Hfake1 & Hsize1).
  destruct (Hhash1 Hquiet1) as (Hfp1 & Hbuilder1 & _ & Hforced1 & _ & Hfast1).
  fold c0 in Hoff1, Hfake1, Hsize1, Hfp1, Hbuilder1.
  rewrite Hends, app_nil_r in Hoff1. rewrite Hends in Hfake1.
  assert (Hgrown : disk_bytes grown = c0 ++ extra) by reflexivity.
  assert (Hrest : skipn (Z.to_nat (getIndexedSize (store w1))) (c0 ++ extra)
                  = extra).
  { rewrite Hsize1, Nat2Z.id, skipn_app, skipn_all, Nat.sub_diag. reflexivity. }
  destruct (partial_index_store grown (store w1) Hexc Hirq Hread
              (proj1 (Hsingle _)) (proj2 (Hsingle _)))
    as (w2 & Hrun2 & Hstore2).
  { rewrite Hsize1, Hgrown, length_app. lia. }
  destruct (full_index_single_byte grown forced d Hexc Hirq Hread
              (proj1 (Hsingle _)) (proj2 (Hsingle _)))
    as (w3 & Hrun3 & Hlines3).
  destruct (full_index_hashes grown forced d Hexc Hirq Hread (proj1 (Hsingle _)))
    as (w3' & Hrun3' & Hhash3 & _).
  pose proof (run_Ok_unique _ _ _ _ _ _ Hrun3 Hrun3') as <-. clear Hrun3'.
  exists w2, w3. split; [exact Hrun2|]. split; [exact Hrun3|].
  intros Hquiet2 Hquiet3.
  destruct (Hstore2 Hquiet2) as (Hoff2 & Hfake2 & Hfp2 & Hbuilder2 & Hforced2 & _).
  destruct (Hlines3 Hquiet3) as (Hoff3 & Hfake3 & _).
  destruct (Hhash3 Hquiet3) as (Hfp3 & Hbuilder3 & _ & Hforced3 & _).
  cbv zeta in Hoff2, Hfake2, Hfp2, Hbuilder2.
  change (disk_bytes grown) with (c0 ++ extra)
    in Hoff2, Hfake2, Hfp2, Hbuilder2, Hoff3, Hfake3, Hfp3, Hbuilder3.
  change (fastModificationDetection grown)
    with (fastModificationDetection env) in Hfp3, Hbuilder3.
  rewrite Hrest in Hoff2, Hfake2, Hfp2, Hbuilder2.
  rewrite Hsize1 in Hoff2, Hfake2, Hfp2.
  rewrite ends_without_lf_app in Hoff3, Hfake3 by exact Hends.
  unfold getHash in Hfp1.
  split; [|split; [|split]].
  - destruct (linePosition_ (store w2)) as [o2 f2], (linePosition_ (store w3))
      as [o3 f3].
    cbn [offsets fakeFinalLF] in Hoff2, Hfake2, Hoff3, Hfake3. f_equal.
    + rewrite Hoff2, Hoff3, Hoff1, lf_offsets_app, <- app_assoc.
      reflexivity.
    + rewrite Hfake2, Hfake3, Hfake1.
      destruct (ends_without_lf extra); [reflexivity|].
      now destruct (lf_offsets extra (Z.of_nat (length c0))).
  - rewrite Hfp2, Hfp3, Hfast1, Hbuilder1, Hfp1. unfold fingerprintOf.
    cbv zeta.
    cbn [fullDigest headerDigest headerSize tailDigest tailOffset tailSize].
    change (fastModificationDetection grown)
      with (fastModificationDetection env).
    change (xxhash grown) with (xxhash env).
    f_equal.
    destruct (fastModificationDetection env); cbn [orb]; [reflexivity|].
    destruct extra as [|b rest].
    + rewrite app_nil_r, Z.eqb_refl. reflexivity.
    + destruct (Z.eqb_spec (Z.of_nat (length (c0 ++ b :: rest)))
                  (Z.of_nat (length c0))) as [H|_];
        [rewrite length_app in H; cbn [length] in H; lia|].
      destruct (Z.eqb_spec (Z.of_nat (length (c0 ++ b :: rest))) 0) as [H|_];
        [rewrite length_app in H; cbn [length] in H; lia|].
      reflexivity.
  - rewrite Hbuilder2, Hbuilder3, Hfast1, Hbuilder1.
    now destruct (fastModificationDetection env).
  - congruence.
Qed.

Lemma incremental_index_matches_full_index_witness :
  exists w1,
    FullIndexOperation_run (singleByteEnv threeLines) None
      (startWorld emptyIndexingData)
    = Ok (ResultBool true) w1 /\
    (~ In linesTooLong (events w1) ->
     exists w2 w3,
       PartialIndexOperation_run (singleByteEnv (threeLines ++ hello))
         (startWorld (store w1))
       = Ok (ResultBool true) w2 /\
       FullIndexOperation_run (singleByteEnv (threeLines ++ hello)) None
         (startWorld emptyIndexingData)
       = Ok (ResultBool true) w3).
Proof.
  destruct (incremental_index_matches_full_index
              (singleByteEnv threeLines) None emptyIndexingData hello)
    as (w1 & Hrun & Hnext);
    [reflexivity | reflexivity | reflexivity
    | (intros codec; unfold wf_params; simpl; lia) | reflexivity |].
  exists w1. split; [exact Hrun|]. intros Hquiet.
  destruct (Hnext Hquiet) as (w2 & w3 & Hrun2 & Hrun3 & _).
  exists w2, w3. split; [exact Hrun2 | exact Hrun3].
Defined.

Lemma quiet_ret (A : Type) (a : A) : quiet_polls (ret a).
Proof. intros w. reflexivity. Qed.

Lemma quiet_bind (A B : Type) (m : M A) (f : A -> M B) :
  quiet_polls m -> (forall a, quiet_polls (f a)) -> quiet_polls (bind m f).
Proof.
  intros Hm Hf w. unfold bind. specialize (Hm w).
  destruct (m w) as [a w1|what w1|]; [|exact Hm|exact I].
  specialize (Hf a w1). destruct (f a w1); congruence.
Qed.

Lemma quiet_emit (ev : Event) : quiet_polls (emit ev).
Proof. intros w. reflexivity. Qed.

Lemma quiet_getStore : quiet_polls getStore.
Proof. intros w. reflexivity. Qed.

Lemma quiet_checkpoint (env : Environment) : quiet_polls (checkpoint env).
Proof.
  intros w. unfold checkpoint.
  destruct (exceptionAt env) as [[k what]|]; [|reflexivity].
  destruct (Nat.eqb k (stages w)); reflexivity.
Qed.

Lemma quiet_mutate (env : Environment) (op : StoreOp) :
  quiet_polls (mutate env op).
Proof.
  unfold mutate. apply quiet_bind; [apply quiet_checkpoint|].
  intros _ w. reflexivity.
Qed.

Lemma quiet_diverge (A : Type) : quiet_polls (@diverge A).
Proof. intros w. exact I. Qed.

Lemma quiet_indexNextBlock (env : Environment) (state : IndexingState)
    (blockData : BlockData) :
  quiet_polls (indexNextBlock env state blockData).
Proof.
  destruct blockData as [bb block]. unfold indexNextBlock.
  destruct (bb <? 0); [apply quiet_ret|].
  apply quiet_bind; [apply quiet_checkpoint|]. intros _.
  apply quiet_bind; [apply quiet_getStore|]. intros d.
  destruct block as [|b rest].
  - apply quiet_bind; [apply quiet_mutate | intros; apply quiet_ret].
  - destruct (parseDataBlock _ _ _) as [[lp st]|]; [|apply quiet_diverge].
    apply quiet_bind; [apply quiet_mutate|]. intros _.
    apply quiet_bind; [apply quiet_getStore|]. intros d'.
    apply quiet_bind; [|intros; apply quiet_ret].
    destruct (negb _); [|apply quiet_ret].
    apply quiet_bind; [apply quiet_mutate | intros; apply quiet_emit].
Qed.

Lemma quiet_parseBlocks (env : Environment) (blocks : list BlockData) :
  forall state, quiet_polls (parseBlocks env state blocks).
Proof.
  induction blocks as [|b rest IH]; intros state; cbn [parseBlocks].
  - apply quiet_ret.
  - apply quiet_bind; [apply quiet_indexNextBlock | intros; apply IH].
Qed.

Lemma parseBlocks_Ok (env : Environment) (state : IndexingState)
    (blocks : list BlockData) (w : World) :
  exceptionAt env = None ->
  wf_env env ->
  Forall small_block blocks ->
  exists state' w',
    parseBlocks env state blocks w = Ok state' w' /\ polls w' = polls w.
Proof.
  intros Hexc Hwf Hsmall.
  pose proof (returns_parseBlocks env blocks Hwf Hsmall state w) as Hret.
  pose proof (quiet_parseBlocks env blocks state w) as Hquiet.
  pose proof (safe_parseBlocks env (fun _ => True)
                (fun _ _ _ _ _ => Logic.I) (fun _ _ _ => Logic.I) blocks state
                w Logic.I) as Hsafe.
  destruct (parseBlocks env state blocks w) as [s' w'|what w'|].
  - now exists s', w'.
  - exfalso. destruct Hsafe as (_ & k & Hk & _). congruence.
  - destruct Hret.
Qed.

(** X18.  An interrupted partial index loses the whole index, not only the
    new lines.  When every codec has well-formed parameters, no exception is
    thrown and the interrupt flag is set by the second check of the
    finalization (one poll after the reader has finished), a partial index
    returns [false] and leaves the cleared store, with no line, an indexed
    size of 0 and the codec of the locale as its guess, whatever the store
    held before; the last event is [indexingFinished false]. *)
Theorem interrupted_partial_index_loses_index (env : Environment)
    (d : IndexingData) :
  exceptionAt env = None ->
  disk_readable env = true ->
  wf_env env ->
  interruptRequest_ env (S (readerPollsFrom env (getIndexedSize d))) = true ->
  exists w',
    PartialIndexOperation_run env (startWorld d) = Ok (ResultBool false) w' /\
    store w' = setEncodingGuess (Some (codecForLocale env)) (clear env d) /\
    getNbLines (store w') = 0%nat /\
    getIndexedSize (store w') = 0 /\
    last (events w') (indexingProgressed 0) = indexingFinished false.
Proof.
  intros Hexc Hread Hwf Hseen.
  set (c := disk_bytes env) in *.
  set (n0 := getIndexedSize d) in *.
  unfold readerPollsFrom in Hseen. fold c in Hseen.
  set (file0 := seek (mkQFile c 0) n0) in *.
  assert (Hpos0 : 0 <= fpos file0).
  { subst file0. unfold seek. destruct (Z.ltb_spec n0 0); cbn [fpos]; lia. }
  assert (Hc0 : contents file0 = c).
  { subst file0. unfold seek. now destruct (n0 <? 0). }
  destruct (readLoop (length c) env file0 0%nat)
    as [[blocks file'] np] eqn:Eread.
  destruct (readLoop_contiguous env _ _ _ _ _ _ Eread Hpos0)
    as (_ & Hcont & _).
  destruct (contiguous_blocks _ _ _ _ Hpos0 Hcont) as (_ & _ & Hfor & _).
  assert (Hsmall : Forall small_block (blocks ++ [lastBlock])).
  { apply Forall_app. split.
    - eapply Forall_impl; [|exact Hfor]. intros b (_ & _ & Hlen).
      unfold small_block. unfold IndexingBlockSize in Hlen. lia.
    - constructor; [|constructor]. unfold small_block, lastBlock. cbn. lia. }
  set (state0 :=
         mkIndexingState (mkEncodingParameters 1 0) n0 0 0 0
           (Z.of_nat (length c)) (getEncodingGuess d)
           (orElse (getForcedEncoding d) (getEncodingGuess d))).
  set (w0 := mkWorld d [] [indexingProgressed 0] np 1).
  destruct (parseBlocks_Ok env state0 (blocks ++ [lastBlock]) w0 Hexc Hwf Hsmall)
    as (state1 & w1 & Hparse & Hpolls).
  cbn [w0 polls] in Hpolls.
  destruct (doIndex_finish_ok env file' state1 w1 Hexc)
    as (dg & s & dg' & o & s' & w2 & Hfin & Hpolls2 & Hstore & Hevents & _).
  rewrite Hpolls in *.
  rewrite Hseen in Hstore, Hevents.
  assert (Hb3 : interruptRequest_ env (polls w2) = true)
    by (apply (interruptRequest_mono env (S np)); [exact Hseen | lia]).
  match type of Hevents with
  | context [getMaxLength ?x =? _] =>
      change (getMaxLength x =? LineLength_max) with false in Hstore, Hevents
  end.
  cbv iota in Hstore, Hevents.
  match type of Hstore with
  | context [getEncodingGuess ?x] =>
      change (getEncodingGuess x) with (@None QTextCodec) in Hstore
  end.
  cbv iota in Hstore. rewrite app_nil_r in Hevents.
  eexists. split.
  - unfold PartialIndexOperation_run, PartialIndexOperation_try, try_catch,
      bind, getStore, emit, ret.
    cbn [startWorld store oplog events polls stages app].
    unfold doIndex, wait_for_all, bind, getStore.
    rewrite checkpoint_ok by exact Hexc. cbv beta iota.
    rewrite Hread. cbn [negb].
    cbn [store oplog events polls stages pos].
    fold c n0. unfold file_size_of. cbn [contents]. fold state0. fold file0.
    unfold readFileInBlocks. rewrite Hc0. cbn [polls].
    rewrite Eread. cbn [store oplog events polls stages].
    fold w0. rewrite Hparse. rewrite Hfin.
    rewrite poll_eq, Hb3. reflexivity.
  - cbn [store events]. rewrite Hstore, Hevents.
    split; [reflexivity|]. split; [reflexivity|]. split; [reflexivity|].
    apply last_last.
Qed.

Lemma interrupted_partial_index_loses_index_witness :
  exists w',
    PartialIndexOperation_run
      (exampleEnv (threeLines ++ hello) false (Some 1%nat) None)
      (startWorld
         (mkIndexingData 3 (mkIndexedHash 9 9 9 9 9 0 9) threeLines
            (mkLinePositionArray [2; 5; 9] false) (Some "UTF-8"%string) None
            100 false))
    = Ok (ResultBool false) w' /\
    getNbLines (store w') = 0%nat.
Proof.
  destruct (interrupted_partial_index_loses_index
              (exampleEnv (threeLines ++ hello) false (Some 1%nat) None)
              (mkIndexingData 3 (mkIndexedHash 9 9 9 9 9 0 9) threeLines
                 (mkLinePositionArray [2; 5; 9] false) (Some "UTF-8"%string)
                 None 100 false))
    as (w' & Hrun & _ & Hlines & _);
    [reflexivity | reflexivity
    | (intros codec; unfold wf_params; cbn [exampleEnv encodingParametersOf];
       destruct (String.eqb codec "UTF-16LE"%string); simpl; lia)
    | (vm_compute; reflexivity) |].
  exists w'. split; [exact Hrun | exact Hlines].
Defined.

Lemma longest_line_nonneg (l : list byte) : 0 <= longest_line l 0.
Proof. apply longest_line_ge. Qed.

(** X19.  The longest line.  A full index of a file without TAB bytes under
    an encoding whose line feed is one byte wide (nobody interrupts, no
    exception) ends on the "lines too long" error exactly when a line of the
    file, the bytes behind the last line feed included, has as many bytes as
    the limit of the line length or more; otherwise the longest line of the
    store is the number of bytes of the longest line of the file, across
    all the blocks the reader cuts. *)
Theorem full_index_longest_line (env : Environment)
    (forced : option QTextCodec) (d : IndexingData) :
  exceptionAt env = None ->
  interruptSetAt env = None ->
  disk_readable env = true ->
  wf_params (encodingParametersOf env (chosenCodec env forced)) ->
  lineFeedWidth (encodingParametersOf env (chosenCodec env forced)) = 1 ->
  ~ In TAB (disk_bytes env) ->
  exists w',
    FullIndexOperation_run env forced (startWorld d) = Ok (ResultBool true) w' /\
    (In linesTooLong (events w')
     <-> LineLength_max <= longest_line (disk_bytes env) 0) /\
    (~ In linesTooLong (events w') ->
     getMaxLength (store w') = longest_line (disk_bytes env) 0).
Proof.
  intros Hexc Hirq Hread Hwf Hw1 Hplain.
  destruct (full_index_quiet env forced d Hexc Hirq Hread Hwf)
    as (state1 & w1 & w' & Hinv & _ & _ & Hlong & _ & Hrun & Hstore & Hev).
  cbv zeta in Hstore, Hev.
  destruct (Hlong Hw1 Hplain) as (Hmax & _ & Hstore1). clear Hlong.
  rewrite Nat2Z.id, firstn_all in Hmax.
  set (c := disk_bytes env) in *.
  pose proof (longest_line_nonneg c) as Hnonneg.
  set (d1 := if file_size state1 >? pos state1
             then addAll env [] 0 (fake_line_position state1)
                    (encodingGuess state1) (store w1)
             else store w1) in *.
  set (d2 := rehashed env (mkQFile c (Z.of_nat (length c))) d1) in *.
  assert (H0 : 0 <= maxLength_ (store w1)).
  { rewrite Hstore1, Hmax. unfold clampLength.
    destruct (Z.gtb_spec (longest_line c 0) LineLength_max);
      unfold LineLength_max in *; lia. }
  assert (Hd1 : maxLength_ d1 = maxLength_ (store w1)).
  { subst d1. destruct (file_size state1 >? pos state1); [|reflexivity].
    rewrite addAll_maxLength. lia. }
  assert (Hd2 : getMaxLength d2 = clampLength (longest_line c 0)).
  { unfold getMaxLength. subst d2.
    destruct (rehashed_fields env (mkQFile c (Z.of_nat (length c))) d1)
      as (-> & _).
    now rewrite Hd1, Hstore1, Hmax. }
  assert (Hquiet1 : ~ In linesTooLong (events w1)) by apply Hinv.
  assert (Hclamp : (getMaxLength d2 =? LineLength_max) = true
                   <-> LineLength_max <= longest_line c 0).
  { rewrite Hd2, Z.eqb_eq. unfold clampLength.
    destruct (Z.gtb_spec (longest_line c 0) LineLength_max); lia. }
  exists w'. split; [exact Hrun|]. split; [split|].
  - intros Hin. apply Hclamp. rewrite Hev in Hin.
    apply in_app_or in Hin. destruct Hin as [Hin|Hin]; [contradiction|].
    destruct (getMaxLength d2 =? LineLength_max); [reflexivity|].
    destruct Hin as [Hin|[]]. discriminate.
  - intros Hle. apply Hclamp in Hle. rewrite Hev, Hle.
    apply in_or_app. right. now left.
  - intros Hquiet.
    destruct (getMaxLength d2 =? LineLength_max) eqn:Elong.
    { exfalso. apply Hquiet. rewrite Hev. apply in_or_app. right. now left. }
    rewrite Hstore.
    destruct (setEncodingGuess_if_none_fields env d2) as (_ & _ & Hm & _).
    unfold getMaxLength in *. rewrite Hm, Hd2.
    assert (Hlt : ~ LineLength_max <= longest_line c 0).
    { intros Hle. apply Hclamp in Hle. congruence. }
    unfold clampLength. destruct (Z.gtb_spec (longest_line c 0) LineLength_max);
      [lia | reflexivity].
Qed.

Lemma full_index_longest_line_witness :
  exists w',
    FullIndexOperation_run (exampleEnv threeLines false None None) None
      (startWorld helloStore)
    = Ok (ResultBool true) w' /\
    (~ In linesTooLong (events w') -> getMaxLength (store w') = 3).
Proof.
  destruct (full_index_longest_line (exampleEnv threeLines false None None)
              None helloStore)
    as (w' & Hrun & _ & Hmax);
    [reflexivity | reflexivity | reflexivity
    | (unfold wf_params; simpl; lia) | reflexivity
    | (vm_compute; intros H;
       repeat (destruct H as [H|H]; [discriminate|]); exact H) |].
  exists w'. split; [exact Hrun|]. intros Hquiet.
  rewrite (Hmax Hquiet). reflexivity.
Defined.

(** X20.  Every line of a full index ends at a genuine line feed, for every
    well-formed encoding (UTF-16 and UTF-32 included).  After a full index
    that nobody interrupts, each offset in the store is the position just
    behind the code unit of a byte LF of the file whose neighbouring bytes
    (forward or backward, as the encoding has it) lie within the file and
    are zero, or it is the file size plus one, the fake end of the last
    line, and the fake-final-LF flag is set. *)
Theorem full_index_lines_follow_line_feeds (env : Environment)
    (forced : option QTextCodec) (d : IndexingData) :
  exceptionAt env = None ->
  interruptSetAt env = None ->
  disk_readable env = true ->
  wf_params (encodingParametersOf env (chosenCodec env forced)) ->
  exists w',
    FullIndexOperation_run env forced (startWorld d) = Ok (ResultBool true) w' /\
    forall o,
      In o (offsets (linePosition_ (store w'))) ->
      follows_line_feed (encodingParametersOf env (chosenCodec env forced)) 0
        (disk_bytes env) o \/
      (o = Z.of_nat (length (disk_bytes env)) + 1 /\
       fakeFinalLF (linePosition_ (store w')) = true).
Proof.
  intros Hexc Hirq Hread Hwf.
  destruct (full_index_quiet env forced d Hexc Hirq Hread Hwf)
    as (state1 & w1 & w' & Hinv & _ & _ & _ & Hall & Hrun & Hstore & _).
  cbv zeta in Hstore.
  destruct Hinv as (_ & Hfs & _).
  set (c := disk_bytes env) in *.
  set (d1 := if file_size state1 >? pos state1
             then addAll env [] 0 (fake_line_position state1)
                    (encodingGuess state1) (store w1)
             else store w1) in *.
  set (d2 := rehashed env (mkQFile c (Z.of_nat (length c))) d1) in *.
  exists w'. split; [exact Hrun|]. intros o Ho.
  rewrite Hstore in Ho |- *.
  destruct (setEncodingGuess_if_none_fields env
              (if getMaxLength d2 =? LineLength_max then clear env d2 else d2))
    as (_ & _ & _ & Hl & _).
  rewrite Hl in Ho |- *. clear Hl.
  destruct (getMaxLength d2 =? LineLength_max); [destruct Ho|].
  subst d2.
  destruct (rehashed_fields env (mkQFile c (Z.of_nat (length c))) d1)
    as (_ & _ & Hl & _).
  rewrite Hl in Ho |- *. clear Hl. subst d1.
  destruct (file_size state1 >? pos state1).
  - rewrite addAll_offsets in Ho. rewrite addAll_fake.
    unfold fake_line_position in *.
    cbn [setFakeFinalLF lpa_append offsets fakeFinalLF emptyLinePositionArray
         app] in *.
    apply in_app_or in Ho. destruct Ho as [Ho|[Ho|[]]].
    + left. rewrite Forall_forall in Hall. now apply Hall.
    + right. rewrite <- Ho, Hfs. now split.
  - left. rewrite Forall_forall in Hall. now apply Hall.
Qed.

Lemma full_index_lines_follow_line_feeds_witness :
  exists w',
    FullIndexOperation_run
      (exampleEnv [x41; x00; x0a; x00; x0a; x42; x0a; x00] false None None)
      (Some "UTF-16LE"%string) (startWorld emptyIndexingData)
    = Ok (ResultBool true) w'.
Proof.
  destruct (full_index_lines_follow_line_feeds
              (exampleEnv [x41; x00; x0a; x00; x0a; x42; x0a; x00] false None
                 None)
              (Some "UTF-16LE"%string) emptyIndexingData)
    as (w' & Hrun & _);
    [reflexivity | reflexivity | reflexivity
    | (unfold wf_params; simpl; lia) |].
  exists w'. exact Hrun.
Defined.
